(** * Load take-down: tributary areas and vertical column alignment

    A shallow embedding of the geometric core of the load take-down
    scripts:

    - [LTD_summary.py]  ([group_columns_by_alignment]): the floor ordering,
      the proximity grouping of support points across floors and the report
      rows;
    - [vornoi5.py]      ([voronoi_finite_polygons_2d],
      [compute_weighted_voronoi], [generate_voronoi_floor_plots]): the finite
      Voronoi cells, their clipping and zone weighting, the per-floor records;
    - [LTD_floor4.py]   ([generate_merged_floor_json]): the choice of the main
      outline among the merged polygons.

    Numbers.  Python floats are modelled by exact rationals ([Q]); every
    comparison and every sum is the exact one.  Two values that print the
    same are related by [==] ([Qeq]), not necessarily by [=].  The calls of
    the aggregator that round in floating point ([math.dist], [round],
    [sum]) are also taken as the interpreter gives them: [Summary64] reads
    the grouping loop and the report rows over any three such functions.

    Libraries.  numpy is embedded directly (means, peak-to-peak, sign, dot
    product, the angular argsort).  shapely and scipy are used by the sources
    through a handful of operations; these are the fields of the class
    [Shapely] and the argument [Voronoi] below, and one exact instance on
    convex polygons is given for running the code on concrete floors. *)

From Stdlib Require Import ZArith QArith Qround Qabs Lqa Lia Reals Qreals Lra.
From Stdlib Require Import Ascii String DecimalString DecimalNat Permutation Sorted.
From stdpp Require Import list strings sorting gmap.

Open Scope Q_scope.

(** ** Python primitives *)

Module Py.

(** Exceptions the modelled code can raise or let through. *)
Inductive exn : Type :=
| ValueError (msg : string)
| QhullError.

Inductive result (A : Type) : Type :=
| Ok (a : A)
| Raise (e : exn).
Arguments Ok {A} a.
Arguments Raise {A} e.

Definition bind {A B} (r : result A) (k : A -> result B) : result B :=
  match r with
  | Ok a => k a
  | Raise e => Raise e
  end.

(** *** Numbers *)

(** Truth value of a float: [0.0] is false, everything else true. *)
Definition truthy (q : Q) : bool := negb (Qeq_bool q 0).

(** [sum(l)]: left to right, starting from the integer 0. *)
Definition sum (l : list Q) : Q := fold_left Qplus l 0.

(** Nearest integer, ties to the even neighbour. *)
Definition round_half_even (q : Q) : Z :=
  let f := Qfloor q in
  match Qcompare (q - inject_Z f) (1 # 2) with
  | Lt => f
  | Gt => (f + 1)%Z
  | Eq => if Z.even f then f else (f + 1)%Z
  end.

(** [round(q, ndigits)] for [ndigits >= 0]. *)
Definition round (q : Q) (ndigits : nat) : Q :=
  let scale := (10 ^ Z.of_nat ndigits)%Z in
  Qmake (round_half_even (q * inject_Z scale)) (Z.to_pos scale).

(** [math.dist(p, q) <= r], decided without the square root: the distance
    is non-negative, so the test holds exactly when [r] is non-negative
    and the squared distance is at most [r * r]. *)
Definition dist_le (p q : Q * Q) (r : Q) : bool :=
  let dx := fst p - fst q in
  let dy := snd p - snd q in
  Qle_bool 0 r && Qle_bool (dx * dx + dy * dy) (r * r).

(** *** Strings (ASCII) *)

Definition is_space (c : ascii) : bool :=
  let n := nat_of_ascii c in
  ((9 <=? n)%nat && (n <=? 13)%nat) || ((28 <=? n)%nat && (n <=? 32)%nat).

Definition is_digit (c : ascii) : bool :=
  let n := nat_of_ascii c in (48 <=? n)%nat && (n <=? 57)%nat.

Definition digit_val (c : ascii) : Z := Z.of_nat (nat_of_ascii c - 48).

Definition upper_char (c : ascii) : ascii :=
  let n := nat_of_ascii c in
  if ((97 <=? n)%nat && (n <=? 122)%nat)%bool then ascii_of_nat (n - 32) else c.

(** [s.upper()] *)
Fixpoint upper (s : string) : string :=
  match s with
  | EmptyString => EmptyString
  | String c s' => String (upper_char c) (upper s')
  end.

(** [s.startswith(p)] *)
Definition startswith (s p : string) : bool := String.prefix p s.

Fixpoint lstrip (l : list ascii) : list ascii :=
  match l with
  | c :: l' => if is_space c then lstrip l' else l
  | [] => []
  end.

Definition strip (l : list ascii) : list ascii :=
  rev (lstrip (rev (lstrip l))).

(** Digits of a decimal literal; single underscores may separate digits. *)
Fixpoint digits (acc : Z) (after_digit : bool) (l : list ascii) : option Z :=
  match l with
  | [] => if after_digit then Some acc else None
  | c :: l' =>
      if is_digit c then digits (10 * acc + digit_val c)%Z true l'
      else if (Ascii.eqb c "_" && after_digit)%bool then digits acc false l'
      else None
  end.

(** [int(s)] on an ASCII string: surrounding blanks, an optional sign,
    decimal digits.  Anything else raises [ValueError]. *)
Definition int (s : string) : result Z :=
  let body := strip (list_ascii_of_string s) in
  let parsed :=
    match body with
    | "-"%char :: l => option_map Z.opp (digits 0 false l)
    | "+"%char :: l => digits 0 false l
    | l => digits 0 false l
    end in
  match parsed with
  | Some n => Ok n
  | None => Raise (ValueError "invalid literal for int() with base 10")
  end.

(** [f"{n:03d}"] *)
Definition format_03d (n : nat) : string :=
  let s := NilEmpty.string_of_uint (Nat.to_uint n) in
  match String.length s with
  | 1%nat => "00" ++ s
  | 2%nat => "0" ++ s
  | _ => s
  end.

(** [sorted(l, key=key, reverse=True)]: descending by key, and stable:
    elements with equal keys keep their original relative order. *)
Fixpoint insert_desc {A} (key : A -> Z) (x : A) (l : list A) : list A :=
  match l with
  | [] => [x]
  | y :: l' =>
      if (key y <=? key x)%Z then x :: y :: l' else y :: insert_desc key x l'
  end.

Definition sorted_reverse {A} (key : A -> Z) (l : list A) : list A :=
  fold_right (insert_desc key) [] l.

(** [list(dict.fromkeys(l))]: first occurrences, in order. *)
Fixpoint fromkeys (l : list string) : list string :=
  match l with
  | [] => []
  | x :: l' => x :: List.filter (fun y => negb (String.eqb y x)) (fromkeys l')
  end.

End Py.

(** ** [LTD_summary.py] *)

Module Summary.
Import Py.

(** One element of a floor's ["columns"] list in the results file.  [X]
    and [Y] are read with [c["X"]]; the other three with [c.get]. *)
Record column_json : Type := {
  c_X : Q;
  c_Y : Q;
  c_Area : option Q;
  c_WeightedArea : option Q;
  c_Type : option string
}.

(** A floor of the results file; only ["columns"] is read here. *)
Record floor_json : Type := {
  f_columns : option (list column_json)
}.

(** The loaded file: floor label to floor, in file order.  It is a
    dictionary, so the labels are distinct. *)
Definition data_json : Type := list (string * floor_json).

Definition floor_sort_key (level : string) : Z :=
  if startswith (upper level) "RF" then 999%Z
  else if startswith (upper level) "LB" then (-1)%Z
  else match int level with
       | Ok n => n
       | Raise _ => 0%Z
       end.

Definition ordered_floors (data : data_json) : list string :=
  sorted_reverse floor_sort_key (map fst data).

(** The dictionaries built for [floors_data]. *)
Record column : Type := {
  col_X : Q;
  col_Y : Q;
  col_Area : Q;
  col_WeightedArea : Q;
  col_Type : string
}.

Definition read_column (c : column_json) : column :=
  {| col_X := c_X c;
     col_Y := c_Y c;
     col_Area := default 0 (c_Area c);
     col_WeightedArea := default 0 (c_WeightedArea c);
     col_Type := default "Unknown"%string (c_Type c) |}.

(** [data[floor].get("columns", [])] *)
Definition columns_of (data : data_json) (floor : string) : list column_json :=
  match find (fun kv => String.eqb (fst kv) floor) data with
  | Some (_, f) => default [] (f_columns f)
  | None => []
  end.

Definition floors_data (data : data_json) (floor : string) : list column :=
  map read_column (columns_of data floor).

(** The tuples [(floor, x, y, area, w_area, ctype)] stored in a group,
    with the fields named by their index. *)
Record point : Type := {
  p0 : string;
  p1 : Q;
  p2 : Q;
  p3 : Q;
  p4 : Q;
  p5 : string
}.

Record group : Type := {
  id : string;
  points : list point
}.

Definition make_point (floor : string) (col : column) : point :=
  {| p0 := floor; p1 := col_X col; p2 := col_Y col; p3 := col_Area col;
     p4 := col_WeightedArea col; p5 := col_Type col |}.

(** [group["points"][-1]], as the pair [(last_x, last_y)]. *)
Definition last_xy (g : group) : Q * Q :=
  match last (points g) with
  | Some p => (p1 p, p2 p)
  | None => (0, 0)
  end.

(** The test of the inner loop. *)
Definition in_radius (match_radius x y : Q) (g : group) : Prop :=
  dist_le (x, y) (last_xy g) match_radius = true.

#[global] Instance in_radius_dec r x y g : Decision (in_radius r x y g).
Proof. unfold in_radius. apply _. Defined.

Definition append_point (p : point) (g : group) : group :=
  {| id := id g; points := points g ++ [p] |}.

(** The state of the grouping loop: [column_groups] and [column_id]. *)
Definition grouping : Type := list group * nat.

(** Body of the loop over the columns of a floor: search the groups in
    order, stop at the first one in range, append there; otherwise add a
    group. *)
Definition place (match_radius : Q) (floor : string)
    (st : grouping) (col : column) : grouping :=
  let '(column_groups, column_id) := st in
  let p := make_point floor col in
  match list_find (in_radius match_radius (col_X col) (col_Y col)) column_groups with
  | Some (i, _) => (alter (append_point p) i column_groups, column_id)
  | None =>
      (column_groups ++ [ {| id := "C" ++ format_03d column_id; points := [p] |} ],
       S column_id)
  end.

Definition place_floor (match_radius : Q) (data : data_json)
    (st : grouping) (floor : string) : grouping :=
  fold_left (place match_radius floor) (floors_data data floor) st.

Definition group_by_proximity (data : data_json) (match_radius : Q) : list group :=
  fst (fold_left (place_floor match_radius data) (ordered_floors data) ([], 1%nat)).

(** *** The report rows *)

(** A value of the data frame: a number, [None], or the empty string. *)
Inductive cell : Type :=
| Num (q : Q)
| PyNone
| Blank.

Record row : Type := {
  Column_ID : string;
  r_X : Q;
  r_Y : Q;
  Floor : string;
  r_Type : string;
  Area_m2 : Q;
  Permanent_Load : cell;
  Imposed_Load : cell;
  Total_Permanent_Load : cell;
  Total_Imposed_Load : cell;
  Total_SLS_Load : cell
}.

(** [[weighted_areas[i:i+2] for i in range(0, len(weighted_areas), 2)]] *)
Fixpoint weighted_pairs (weighted_areas : list Q) : list (list Q) :=
  match weighted_areas with
  | [] => []
  | [a] => [[a]]
  | a :: b :: rest => [a; b] :: weighted_pairs rest
  end.

(** [weighted_pairs[i][k] if i < len(weighted_pairs) and
    len(weighted_pairs[i]) > k else None] *)
Definition pair_item (pairs : list (list Q)) (i k : nat) : option Q :=
  match pairs !! i with
  | Some pr => pr !! k
  | None => None
  end.

(** [round(w, 2) if w else None] *)
Definition load_cell (w : option Q) : cell :=
  match w with
  | Some v => if truthy v then Num (round v 2) else PyNone
  | None => PyNone
  end.

Definition first_on_floor (g : group) (floor : string) : option point :=
  find (fun p => String.eqb (p0 p) floor) (points g).

Definition group_row (g : group) (pairs : list (list Q))
    (total_perm total_imposed total_sls : Q) (i : nat) (floor : string) : row :=
  let w1 := pair_item pairs i 0 in
  let w2 := pair_item pairs i 1 in
  let first := first_on_floor g floor in
  let head := hd {| p0 := EmptyString; p1 := 0; p2 := 0; p3 := 0; p4 := 0; p5 := EmptyString |}
             (points g) in
  {| Column_ID := id g;
     r_X := round (p1 head) 2;
     r_Y := round (p2 head) 2;
     Floor := floor;
     r_Type := match first with Some p => p5 p | None => "Unknown" end;
     Area_m2 := round (match first with Some p => p3 p | None => 0 end) 2;
     Permanent_Load := load_cell w1;
     Imposed_Load := load_cell w2;
     Total_Permanent_Load := if Nat.eqb i 0 then Num total_perm else Blank;
     Total_Imposed_Load := if Nat.eqb i 0 then Num total_imposed else Blank;
     Total_SLS_Load := if Nat.eqb i 0 then Num total_sls else Blank |}.

Definition group_rows (g : group) : list row :=
  let floors := map p0 (points g) in
  let weighted_areas := map p4 (points g) in
  let total_sls := round (sum weighted_areas) 2 in
  let pairs := weighted_pairs weighted_areas in
  let perm_loads := omap (fun pr => pr !! 0%nat) pairs in
  let imposed_loads := omap (fun pr => pr !! 1%nat) pairs in
  let total_perm := round (sum perm_loads) 2 in
  let total_imposed := round (sum imposed_loads) 2 in
  let unique_floors := fromkeys floors in
  imap (group_row g pairs total_perm total_imposed total_sls) unique_floors.

(** The rows of the returned data frame. *)
Definition group_columns_by_alignment (data : data_json) (match_radius : Q) : list row :=
  concat (map group_rows (group_by_proximity data match_radius)).

(** The radius the application passes, which is also the default. *)
Definition default_match_radius : Q := 1 # 2.

End Summary.

(** ** [LTD_summary.py] on the interpreter's floats

    Three calls of [group_columns_by_alignment] round what they compute:
    [math.dist], [round] and [sum].  [Summary] takes them exact.  Here they
    are calls of the interpreter, whatever it returns for them; a float is
    still the rational it stands for, and the comparisons and the truth
    value of a float, which do not round, are as in [Summary]. *)

Module Float64.

Class Ops : Type := {
  (** [math.dist(p, q)] *)
  math_dist : Q * Q -> Q * Q -> Q;
  (** [round(x, ndigits)] *)
  round : Q -> nat -> Q;
  (** [sum(l)] *)
  sum : list Q -> Q
}.

End Float64.

(** The grouping loop and the rows of [Summary], line by line, over these
    calls. *)

Module Summary64.
Import Py Summary.

Section Floats.
Context {float : Float64.Ops}.

(** The test of the inner loop:
    [math.dist((x, y), (last_x, last_y)) <= match_radius]. *)
Definition in_radius (match_radius x y : Q) (g : group) : Prop :=
  Qle_bool (Float64.math_dist (x, y) (last_xy g)) match_radius = true.

#[global] Instance in_radius_dec r x y g : Decision (in_radius r x y g).
Proof. unfold in_radius. apply _. Defined.

(** Body of the loop over the columns of a floor. *)
Definition place (match_radius : Q) (floor : string)
    (st : grouping) (col : column) : grouping :=
  let '(column_groups, column_id) := st in
  let p := make_point floor col in
  match list_find (in_radius match_radius (col_X col) (col_Y col)) column_groups with
  | Some (i, _) => (alter (append_point p) i column_groups, column_id)
  | None =>
      (column_groups ++ [ {| id := "C" ++ format_03d column_id; points := [p] |} ],
       S column_id)
  end.

Definition place_floor (match_radius : Q) (data : data_json)
    (st : grouping) (floor : string) : grouping :=
  fold_left (place match_radius floor) (floors_data data floor) st.

Definition group_by_proximity (data : data_json) (match_radius : Q) : list group :=
  fst (fold_left (place_floor match_radius data) (ordered_floors data) ([], 1%nat)).

(** [round(w, 2) if w else None] *)
Definition load_cell (w : option Q) : cell :=
  match w with
  | Some v => if truthy v then Num (Float64.round v 2) else PyNone
  | None => PyNone
  end.

Definition group_row (g : group) (pairs : list (list Q))
    (total_perm total_imposed total_sls : Q) (i : nat) (floor : string) : row :=
  let w1 := pair_item pairs i 0 in
  let w2 := pair_item pairs i 1 in
  let first := first_on_floor g floor in
  let head := hd {| p0 := EmptyString; p1 := 0; p2 := 0; p3 := 0; p4 := 0; p5 := EmptyString |}
             (points g) in
  {| Column_ID := id g;
     r_X := Float64.round (p1 head) 2;
     r_Y := Float64.round (p2 head) 2;
     Floor := floor;
     r_Type := match first with Some p => p5 p | None => "Unknown" end;
     Area_m2 := Float64.round (match first with Some p => p3 p | None => 0 end) 2;
     Permanent_Load := load_cell w1;
     Imposed_Load := load_cell w2;
     Total_Permanent_Load := if Nat.eqb i 0 then Num total_perm else Blank;
     Total_Imposed_Load := if Nat.eqb i 0 then Num total_imposed else Blank;
     Total_SLS_Load := if Nat.eqb i 0 then Num total_sls else Blank |}.

Definition group_rows (g : group) : list row :=
  let floors := map p0 (points g) in
  let weighted_areas := map p4 (points g) in
  let total_sls := Float64.round (Float64.sum weighted_areas) 2 in
  let pairs := weighted_pairs weighted_areas in
  let perm_loads := omap (fun pr => pr !! 0%nat) pairs in
  let imposed_loads := omap (fun pr => pr !! 1%nat) pairs in
  let total_perm := Float64.round (Float64.sum perm_loads) 2 in
  let total_imposed := Float64.round (Float64.sum imposed_loads) 2 in
  let unique_floors := fromkeys floors in
  imap (group_row g pairs total_perm total_imposed total_sls) unique_floors.

(** The rows of the returned data frame. *)
Definition group_columns_by_alignment (data : data_json) (match_radius : Q) : list row :=
  concat (map group_rows (group_by_proximity data match_radius)).

End Floats.

End Summary64.

(** ** The geometry libraries *)

(** The shapely operations the sources call.  [Polygon] raises on a ring of
    one or two coordinates; [geoms] is [None] on a geometry without the
    attribute. *)
Class Shapely : Type := {
  geom : Type;
  Polygon : list (Q * Q) -> Py.result geom;
  intersection : geom -> geom -> geom;
  is_empty : geom -> bool;
  area : geom -> Q;
  exterior : geom -> list (Q * Q);
  is_Polygon : geom -> bool;
  geoms : geom -> option (list geom);
  unary_union : list geom -> geom
}.

(** ** numpy, on exact rationals *)

Module Np.

Definition xy (r : list Q) : Q * Q := (nth 0 r 0, nth 1 r 0).

(** [a.shape[1]] of a two-dimensional array given by its rows. *)
Definition shape1 (a : list (list Q)) : nat :=
  match a with
  | r :: _ => length r
  | [] => 0%nat
  end.

(** [a.mean(axis=0)] for rows of two coordinates. *)
Definition mean (a : list (Q * Q)) : Q * Q :=
  let n := inject_Z (Z.of_nat (length a)) in
  (Py.sum (map fst a) / n, Py.sum (map snd a) / n).

Definition Qmax (a b : Q) : Q := if Qle_bool a b then b else a.
Definition Qmin (a b : Q) : Q := if Qle_bool a b then a else b.

Definition maximum (l : list Q) : Q :=
  match l with
  | [] => 0
  | a :: l' => fold_left Qmax l' a
  end.

Definition minimum (l : list Q) : Q :=
  match l with
  | [] => 0
  | a :: l' => fold_left Qmin l' a
  end.

(** [np.ptp(a, axis=0).max()] *)
Definition ptp_max (a : list (Q * Q)) : Q :=
  Qmax (maximum (map fst a) - minimum (map fst a))
       (maximum (map snd a) - minimum (map snd a)).

Definition sign (q : Q) : Q :=
  match Qcompare q 0 with
  | Lt => -1
  | Eq => 0
  | Gt => 1
  end.

Definition dot (u v : Q * Q) : Q := fst u * fst v + snd u * snd v.

Definition sub (u v : Q * Q) : Q * Q := (fst u - fst v, snd u - snd v).
Definition add (u v : Q * Q) : Q * Q := (fst u + fst v, snd u + snd v).
Definition scale (k : Q) (u : Q * Q) : Q * Q := (k * fst u, k * snd u).

(** Square root: exact on the squares of rationals, and otherwise the
    root truncated after 64 binary places of [sqrt (num * den)]. *)
Definition sqrt (q : Q) : Q :=
  let n := (Qnum q * Zpos (Qden q))%Z in
  Qred (Qmake (Z.sqrt (n * 2 ^ 128)) (Qden q * 2 ^ 64)).

(** [np.linalg.norm(u)] *)
Definition norm (u : Q * Q) : Q := sqrt (dot u u).

(** Position of [arctan2(y, x)] in the interval from -pi (excluded) to pi:
    0 below the x axis, 1 at angle zero, 2 above the axis, 3 at pi. *)
Definition sector (v : Q * Q) : Z :=
  match Qcompare (snd v) 0 with
  | Lt => 0
  | Gt => 2
  | Eq => match Qcompare (fst v) 0 with Lt => 3 | _ => 1 end
  end.

(** [arctan2(uy, ux) < arctan2(vy, vx)], decided exactly: by sector, and
    inside an open half plane by the sign of the cross product. *)
Definition angle_lt (u v : Q * Q) : bool :=
  (sector u <? sector v)%Z
  || ((sector u =? sector v)%Z && Z.even (sector u)
      && negb (Qle_bool (fst u * snd v - snd u * fst v) 0)).

(** [np.argsort(angles)] applied to the list it indexes: the items in
    increasing angle, equal angles in their original order. *)
Fixpoint insert_by_angle {A} (ang : A -> Q * Q) (x : A) (l : list A) : list A :=
  match l with
  | [] => [x]
  | y :: l' =>
      if angle_lt (ang y) (ang x) then y :: insert_by_angle ang x l'
      else x :: y :: l'
  end.

Definition sort_by_angle {A} (ang : A -> Q * Q) (l : list A) : list A :=
  fold_right (insert_by_angle ang) [] l.

End Np.

(** ** [vornoi5.py] *)

Module Voronoi5.
Import Py.

(** The attributes of a [scipy.spatial.Voronoi] object that are read:
    arrays by rows, index [-1] for the vertex at infinity. *)
Record Vor : Type := {
  vor_points : list (list Q);
  vor_vertices : list (list Q);
  ridge_points : list (nat * nat);
  ridge_vertices : list (Z * Z);
  vor_regions : list (list Z);
  point_region : list nat
}.

(** [a[i]] with Python's negative indices; the rows read by the code are
    in range on a diagram, the origin stands for the others. *)
Definition getitem (a : list (Q * Q)) (i : Z) : Q * Q :=
  if (0 <=? i)%Z then nth (Z.to_nat i) a (0, 0)
  else nth (length a - Z.to_nat (- i)) a (0, 0).

(** [all_ridges.get(p, [])]: the ridges of site [p], in ridge order. *)
Definition ridges_of (vor : Vor) (p : nat) : list (nat * Z * Z) :=
  flat_map
    (fun r : (nat * nat) * (Z * Z) =>
       let '((a, b), (v1, v2)) := r in
       (if Nat.eqb a p then [(b, v1, v2)] else [])
       ++ (if Nat.eqb b p then [(a, v1, v2)] else []))
    (zip (ridge_points vor) (ridge_vertices vor)).

(** Body of the loop over the ridges of site [p1]: a ridge with one end
    at infinity gets a far point. *)
Definition extend_ridge (vor : Vor) (pts : list (Q * Q)) (center : Q * Q)
    (radius : Q) (p1 : nat) (st : list (Q * Q) * list Z)
    (ridge : nat * Z * Z) : list (Q * Q) * list Z :=
  let '(new_vertices, new_region) := st in
  let '(p2, v1, v2) := ridge in
  let '(v1, v2) := if (v2 <? 0)%Z then (v2, v1) else (v1, v2) in
  if (0 <=? v1)%Z then st
  else
    let t := Np.sub (nth p2 pts (0, 0)) (nth p1 pts (0, 0)) in
    let t := (fst t / Np.norm t, snd t / Np.norm t) in
    let n := (- snd t, fst t) in
    let midpoint := Np.mean [nth p1 pts (0, 0); nth p2 pts (0, 0)] in
    let direction := Np.scale (Np.sign (Np.dot (Np.sub midpoint center) n)) n in
    let far_point := Np.add (getitem (map Np.xy (vor_vertices vor)) v2)
                            (Np.scale radius direction) in
    (new_vertices ++ [far_point],
     new_region ++ [Z.of_nat (length new_vertices)]).

(** Body of the loop over the sites. *)
Definition finite_region (vor : Vor) (pts : list (Q * Q)) (center : Q * Q)
    (radius : Q) (st : list (list Z) * list (Q * Q))
    (site : nat * nat) : list (list Z) * list (Q * Q) :=
  let '(new_regions, new_vertices) := st in
  let '(p1, region_idx) := site in
  let vertices := nth region_idx (vor_regions vor) [] in
  if forallb (fun v => (0 <=? v)%Z) vertices then
    (new_regions ++ [vertices], new_vertices)
  else
    let ridges := ridges_of vor p1 in
    let new_region := List.filter (fun v => (0 <=? v)%Z) vertices in
    let '(new_vertices, new_region) :=
      fold_left (extend_ridge vor pts center radius p1) ridges
                (new_vertices, new_region) in
    if (length new_region <? 3)%nat then (new_regions, new_vertices)
    else
      let vs := map (getitem new_vertices) new_region in
      let c := Np.mean vs in
      let new_region :=
        Np.sort_by_angle (fun v => Np.sub (getitem new_vertices v) c) new_region in
      (new_regions ++ [new_region], new_vertices).

Definition voronoi_finite_polygons_2d (vor : Vor) (radius : option Q)
    : result (list (list Z) * list (Q * Q)) :=
  if negb (Nat.eqb (Np.shape1 (vor_points vor)) 2) then
    Raise (ValueError "Requires 2D input")
  else
    let pts := map Np.xy (vor_points vor) in
    let new_vertices := map Np.xy (vor_vertices vor) in
    let center := Np.mean pts in
    let radius := match radius with
                  | None => Np.ptp_max pts * 2
                  | Some r => r
                  end in
    Ok (fold_left (finite_region vor pts center radius)
                  (imap pair (point_region vor)) ([], new_vertices)).

(** A weighted zone, and a record of the list of results; [G] is the type
    of shapely geometries. *)
Record zone (G : Type) : Type := {
  polygon : G;
  weight : Q
}.
Arguments polygon {G} _.
Arguments weight {G} _.

Record cell (G : Type) : Type := {
  index : nat;
  cell_point : Q * Q;
  area_raw : Q;
  area_weighted : Q;
  cell_polygon : G
}.
Arguments index {G} _.
Arguments cell_point {G} _.
Arguments area_raw {G} _.
Arguments area_weighted {G} _.
Arguments cell_polygon {G} _.

Section Engine.
Context {shapely : Shapely}.

(** [scipy.spatial.Voronoi(points)]; it raises [QhullError] on sites
    it cannot triangulate. *)
Variable Voronoi : list (Q * Q) -> result Vor.

(** The loop over the zones for one clipped cell. *)
Definition weighted_sum (poly : geom) (weighted_zones : list (zone geom)) : Q :=
  fold_left
    (fun acc zone =>
       let inter := intersection poly (polygon zone) in
       if negb (is_empty inter) then acc + area inter * weight zone else acc)
    weighted_zones 0.

(** Body of the loop over the regions. *)
Definition clip_region (boundary_poly : geom) (interior_points vertices : list (Q * Q))
    (weighted_zones : list (zone geom)) (acc : result (list (cell geom)))
    (ir : nat * list Z) : result (list (cell geom)) :=
  bind acc (fun results =>
    let '(i, region) := ir in
    if match region with [] => true | _ => false end
       || existsb (fun v => (Z.of_nat (length vertices) <=? v)%Z) region
    then Ok results
    else
      bind (Polygon (map (getitem vertices) region)) (fun cellpoly =>
        let poly := intersection cellpoly boundary_poly in
        if is_empty poly then Ok results
        else
          Ok (results ++ [ {| index := i;
                              cell_point := nth i interior_points (0, 0);
                              area_raw := area poly;
                              area_weighted := weighted_sum poly weighted_zones;
                              cell_polygon := poly |} ]))).

Definition compute_weighted_voronoi (boundary_coords interior_points : list (Q * Q))
    (weighted_zones : list (zone geom)) : result (list (cell geom) * geom) :=
  bind (Polygon boundary_coords) (fun boundary_poly =>
    if (length interior_points <? 3)%nat then Ok ([], boundary_poly)
    else
      bind (Voronoi interior_points) (fun vor =>
      bind (voronoi_finite_polygons_2d vor None) (fun rv =>
        let '(regions, vertices) := rv in
        bind (fold_left (clip_region boundary_poly interior_points vertices weighted_zones)
                        (imap pair regions) (Ok []))
             (fun results => Ok (results, boundary_poly))))).

(** *** One floor of [generate_voronoi_floor_plots] *)

Record floor_info : Type := {
  floor_boundary : list (Q * Q);
  columns : list (Q * Q);
  walls : list (Q * Q);
  foundations : list (Q * Q)
}.

(** A load zone of the loading file: [zone.get("Vertices", [])] and
    [zone.get("UnitLoad")]. *)
Record zone_json : Type := {
  Vertices : list (Q * Q);
  UnitLoad : option Q
}.

(** The weight given to a zone in the pass [load_type]. *)
Definition unit_load (load_type : string) (z : zone_json) : Q :=
  match UnitLoad z with
  | Some u => u
  | None => if String.eqb load_type "Permanent Loading" then 1 else 0.8
  end.

(** The loop that builds [weighted_zones]. *)
Fixpoint weighted_zones_of (load_type : string) (load_zones : list zone_json)
    : result (list (zone geom)) :=
  match load_zones with
  | [] => Ok []
  | z :: rest =>
      if (3 <=? length (Vertices z))%nat then
        bind (Polygon (Vertices z)) (fun poly =>
        bind (weighted_zones_of load_type rest) (fun zs =>
          Ok ({| polygon := poly; weight := unit_load load_type z |} :: zs)))
      else weighted_zones_of load_type rest
  end.

(** [(px, py) in pts] *)
Definition mem (p : Q * Q) (pts : list (Q * Q)) : bool :=
  existsb (fun q => Qeq_bool (fst p) (fst q) && Qeq_bool (snd p) (snd q)) pts.

Definition type_of (wall_points foundation_points : list (Q * Q)) (p : Q * Q) : string :=
  if mem p wall_points then "Wall"
  else if mem p foundation_points then "Foundation"
  else "Column".

(** The record appended to ["columns"] for a region. *)
Definition column_record (wall_points foundation_points : list (Q * Q))
    (region : cell geom) : Summary.column_json :=
  {| Summary.c_X := fst (cell_point region);
     Summary.c_Y := snd (cell_point region);
     Summary.c_Area := Some (round (area_raw region) 3);
     Summary.c_WeightedArea := Some (round (area_weighted region) 3);
     Summary.c_Type := Some (type_of wall_points foundation_points (cell_point region)) |}.

(** One load-type pass over a floor: the records it appends. *)
Definition floor_pass (info : floor_info) (load_zones : list zone_json)
    (load_type : string) : result (list Summary.column_json) :=
  match load_zones with
  | [] => Ok []
  | _ =>
      bind (weighted_zones_of load_type load_zones) (fun weighted_zones =>
        match weighted_zones with
        | [] => Ok []
        | _ =>
            let all_points := columns info ++ walls info ++ foundations info in
            bind (compute_weighted_voronoi (floor_boundary info) all_points weighted_zones)
                 (fun rb =>
                    Ok (map (column_record (walls info) (foundations info)) (fst rb)))
        end)
  end.

(** The ["columns"] list written for a floor that has a boundary;
    [loading] is [loading_data[load_key]] when the key is present. *)
Definition floor_columns (info : floor_info)
    (loading : option (string -> list zone_json)) : result (list Summary.column_json) :=
  match loading with
  | None => Ok []
  | Some zones_for =>
      bind (floor_pass info (zones_for "Permanent Loading"%string) "Permanent Loading")
           (fun perm =>
      bind (floor_pass info (zones_for "Imposed Loading"%string) "Imposed Loading")
           (fun imposed => Ok (perm ++ imposed)))
  end.

End Engine.

End Voronoi5.

(** ** [LTD_floor4.py] *)

Module Floor4.

Section Outline.
Context {shapely : Shapely}.

(** [merged_polys] for the union of the polygons of a level group. *)
Definition merged_polys (all_polygons : list geom) : list geom :=
  let merged_area := unary_union all_polygons in
  if is_Polygon merged_area then [merged_area]
  else match geoms merged_area with
       | Some gs => gs
       | None => []
       end.

(** [max(p :: ps, key=lambda p: p.area)]: the first of the largest. *)
Definition max_by_area (p : geom) (ps : list geom) : geom :=
  fold_left (fun best q => if Qle_bool (area q) (area best) then best else q) ps p.

(** The coordinates stored for a level group, when one is stored. *)
Definition main_outline (all_polygons : list geom) : option (list (Q * Q)) :=
  match all_polygons with
  | [] => None
  | _ =>
      match merged_polys all_polygons with
      | [] => None
      | p :: ps => Some (exterior (max_by_area p ps))
      end
  end.

End Outline.

End Floor4.

(** ** An exact instance of the libraries

    Polygons are rings of rational vertices.  Areas are exact (shoelace
    formula).  The intersection clips one operand by the edges of the other,
    which has to be convex; the union is taken of pairwise disjoint parts.
    Outside these cases the instance answers [Unsupported]. *)

Module Exact.
Import Py.

Inductive shape : Type :=
| Ring (r : list (Q * Q))
| Multi (parts : list (list (Q * Q)))
| Unsupported.

Definition cross (o a b : Q * Q) : Q :=
  (fst a - fst o) * (snd b - snd o) - (snd a - snd o) * (fst b - fst o).

(** Consecutive pairs of a ring, the last vertex paired with the first. *)
Definition edges {A} (r : list A) : list (A * A) :=
  match r with
  | [] => []
  | v :: r' => zip r (r' ++ [v])
  end.

Definition signed_area2 (r : list (Q * Q)) : Q :=
  Py.sum (map (fun e : (Q * Q) * (Q * Q) =>
                 fst (fst e) * snd (snd e) - fst (snd e) * snd (fst e)) (edges r)).

Definition ring_area (r : list (Q * Q)) : Q := Qred (Qabs (signed_area2 r) / 2).

Definition counterclockwise (r : list (Q * Q)) : list (Q * Q) :=
  if Qle_bool 0 (signed_area2 r) then r else rev r.

(** Every turn of the ring, taken counterclockwise, is to the left. *)
Definition convex (r : list (Q * Q)) : bool :=
  forallb (fun ee : ((Q * Q) * (Q * Q)) * ((Q * Q) * (Q * Q)) =>
             Qle_bool 0 (cross (fst (fst ee)) (snd (fst ee)) (snd (snd ee))))
          (edges (edges (counterclockwise r))).

(** Where the segment from [s] to [e] meets the line through [a], [b]. *)
Definition meet (a b s e : Q * Q) : Q * Q :=
  let ds := cross a b s in
  let de := cross a b e in
  let t := ds / (ds - de) in
  (Qred (fst s + t * (fst e - fst s)), Qred (snd s + t * (snd e - snd s))).

(** The part of ring [r] to the left of the line from [a] to [b]. *)
Definition clip_edge (r : list (Q * Q)) (ab : (Q * Q) * (Q * Q)) : list (Q * Q) :=
  let '(a, b) := ab in
  let inside p := Qle_bool 0 (cross a b p) in
  flat_map
    (fun se : (Q * Q) * (Q * Q) =>
       let '(s, e) := se in
       if inside e then (if inside s then [e] else [meet a b s e; e])
       else (if inside s then [meet a b s e] else []))
    (edges r).

(** [subject] cut by every edge of the convex ring [clip]. *)
Definition clip (subject clip : list (Q * Q)) : list (Q * Q) :=
  fold_left clip_edge (edges (counterclockwise clip)) subject.

Definition open_ring (coords : list (Q * Q)) : list (Q * Q) :=
  match coords, last coords with
  | v :: _ :: _, Some w =>
      if Qeq_bool (fst v) (fst w) && Qeq_bool (snd v) (snd w)
      then removelast coords else coords
  | _, _ => coords
  end.

Definition exact_Polygon (coords : list (Q * Q)) : result shape :=
  match coords with
  | [_] | [_; _] => Raise (ValueError "A linearring requires at least 4 coordinates.")
  | _ => Ok (Ring (open_ring coords))
  end.

Definition exact_intersection (g h : shape) : shape :=
  match g, h with
  | Ring a, Ring b =>
      if convex b then Ring (clip a b)
      else if convex a then Ring (clip b a)
      else Unsupported
  | _, _ => Unsupported
  end.

Definition exact_area (g : shape) : Q :=
  match g with
  | Ring r => ring_area r
  | Multi parts => Qred (Py.sum (map ring_area parts))
  | Unsupported => 0
  end.

Definition exact_is_empty (g : shape) : bool :=
  match g with
  | Ring [] | Multi [] => true
  | _ => false
  end.

Definition exact_exterior (g : shape) : list (Q * Q) :=
  match g with
  | Ring (v :: r) => v :: r ++ [v]
  | _ => []
  end.

Definition disjoint (a b : list (Q * Q)) : bool :=
  exact_is_empty (exact_intersection (Ring a) (Ring b)).

Fixpoint pairwise_disjoint (parts : list (list (Q * Q))) : bool :=
  match parts with
  | [] => true
  | a :: rest => forallb (disjoint a) rest && pairwise_disjoint rest
  end.

Definition rings_of (gs : list shape) : option (list (list (Q * Q))) :=
  mapM (fun g => match g with Ring r => Some r | _ => None end) gs.

Definition exact_unary_union (gs : list shape) : shape :=
  match rings_of gs with
  | Some [r] => Ring r
  | Some parts => if pairwise_disjoint parts then Multi parts else Unsupported
  | None => Unsupported
  end.

#[export] Instance exact_shapely : Shapely := {|
  geom := shape;
  Polygon := exact_Polygon;
  intersection := exact_intersection;
  is_empty := exact_is_empty;
  area := exact_area;
  exterior := exact_exterior;
  is_Polygon := fun g => match g with Ring _ => true | _ => false end;
  geoms := fun g => match g with Multi parts => Some (map Ring parts) | _ => None end;
  unary_union := exact_unary_union
|}.

(** *** The Voronoi diagram of three sites

    Three sites that are not on a line have one Voronoi vertex, their
    circumcentre, and three ridges that leave it for infinity; sites on a
    line make Qhull fail.  The instance is defined on three sites. *)

Definition circumcentre (a b c : Q * Q) : Q * Q :=
  let d := 2 * cross a b c in
  let a2 := Np.dot a a in
  let b2 := Np.dot b b in
  let c2 := Np.dot c c in
  (Qred ((a2 * (snd b - snd c) + b2 * (snd c - snd a) + c2 * (snd a - snd b)) / d),
   Qred ((a2 * (fst c - fst b) + b2 * (fst a - fst c) + c2 * (fst b - fst a)) / d)).

Definition row (p : Q * Q) : list Q := [fst p; snd p].

Definition voronoi3 (points : list (Q * Q)) : result Voronoi5.Vor :=
  match points with
  | [a; b; c] =>
      if Qeq_bool (cross a b c) 0 then Raise QhullError
      else Ok {| Voronoi5.vor_points := map row points;
                 Voronoi5.vor_vertices := [row (circumcentre a b c)];
                 Voronoi5.ridge_points := [(0, 1); (0, 2); (1, 2)]%nat;
                 Voronoi5.ridge_vertices := [(-1, 0); (-1, 0); (-1, 0)]%Z;
                 Voronoi5.vor_regions := [[-1; 0]; [-1; 0]; [-1; 0]]%Z;
                 Voronoi5.point_region := [0; 1; 2]%nat |}
  | _ => Raise QhullError
  end.

(** *** The calls of the interpreter

    [round] and [sum] without rounding error, and [math.dist] with the
    square root of [Np.sqrt]: exact when the distance is rational, cut
    after 64 binary places when it is not. *)

Definition floats : Float64.Ops :=
  {| Float64.math_dist := fun p q => Np.norm (Np.sub p q);
     Float64.round := Py.round;
     Float64.sum := Py.sum |}.

End Exact.

(** ** The specification's reading of the aggregator

    Definitions that follow the words of the specification; the theorems
    below compare them with the functions above. *)

Module Spec.
Import Py Summary.

(** A label starting with the two given letters, in either case. *)
Definition starts_with_letters (u1 l1 u2 l2 : ascii) (level : string) : Prop :=
  exists c1 c2 rest,
    level = String c1 (String c2 rest)
    /\ (c1 = u1 \/ c1 = l1) /\ (c2 = u2 \/ c2 = l2).

Definition RF_label : string -> Prop := starts_with_letters "R" "r" "F" "f".
Definition LB_label : string -> Prop := starts_with_letters "L" "l" "B" "b".

(** Every entry of the results file in the order it is visited: floors in
    processing order, the entries of a floor in their original order. *)
Definition visits (data : data_json) : list (string * column) :=
  flat_map (fun floor => map (pair floor) (floors_data data floor))
           (ordered_floors data).

(** Euclidean distance at most [r], over the reals. *)
Definition within (r : Q) (a b : Q * Q) : Prop :=
  (sqrt (Q2R ((fst a - fst b) * (fst a - fst b) + (snd a - snd b) * (snd a - snd b)))
   <= Q2R r)%R.

(** The last recorded position of a group is that of point [q]. *)
Definition last_position (g : group) (q : point) : Prop :=
  exists before, points g = before ++ [q].

Definition reaches (r : Q) (col : column) (g : group) : Prop :=
  exists q, last_position g q /\ within r (col_X col, col_Y col) (p1 q, p2 q).

(** One point is placed: it joins the first group, in creation order,
    whose last position is within the radius, or else seeds a new group
    at the end. *)
Inductive first_match (r : Q) (floor : string) (col : column)
    (groups : list group) : list group -> Prop :=
| joins (i : nat) (g : group) :
    groups !! i = Some g ->
    reaches r col g ->
    (forall j g', (j < i)%nat -> groups !! j = Some g' -> ~ reaches r col g') ->
    first_match r floor col groups
      (<[i := {| id := id g; points := points g ++ [make_point floor col] |}]> groups)
| seeds (name : string) :
    (forall g, g ∈ groups -> ~ reaches r col g) ->
    first_match r floor col groups
      (groups ++ [ {| id := name; points := [make_point floor col] |} ]).

(** A whole run: the visited entries are placed one after the other. *)
Inductive run (r : Q) : list (string * column) -> list group -> list group -> Prop :=
| run_done groups : run r [] groups groups
| run_step floor col rest groups groups' groups'' :
    first_match r floor col groups groups' ->
    run r rest groups' groups'' ->
    run r ((floor, col) :: rest) groups groups''.

(** The value paired with row [i] of a group for pass [k] (0 permanent,
    1 imposed): weighted areas are taken two at a time. *)
Definition paired_value (g : group) (i k : nat) : option Q :=
  map p4 (points g) !! (2 * i + k)%nat.

(** The largest weight among the zones of a pass. *)
Definition max_weight {G : Type} (zones : list (Voronoi5.zone G)) : Q :=
  Np.maximum (map Voronoi5.weight zones).

(** Total area of the overlaps of a clipped cell with the zones. *)
Definition overlap_total {shapely : Shapely} (poly : geom)
    (zones : list (Voronoi5.zone geom)) : Q :=
  Py.sum (map (fun z => area (intersection poly (Voronoi5.polygon z)))
              (List.filter (fun z => negb (is_empty (intersection poly (Voronoi5.polygon z))))
                      zones)).

(** The part of the boundary that lies in a region of the finite diagram:
    the polygon on the vertices of the region, cut by the boundary.  A
    region without vertices, or with an index beyond the vertex array, has
    no polygon. *)
Definition clipped {shapely : Shapely} (boundary_poly : geom)
    (vertices : list (Q * Q)) (region : list Z) : option geom :=
  match region with
  | [] => None
  | _ =>
      if existsb (fun v => (Z.of_nat (length vertices) <=? v)%Z) region then None
      else match Polygon (map (Voronoi5.getitem vertices) region) with
           | Ok cellpoly => Some (intersection cellpoly boundary_poly)
           | Raise _ => None
           end
  end.

(** The cell a region gives: its part of the boundary when that is not
    empty, under the position of the region in the diagram. *)
Definition cell_of_region {shapely : Shapely} (boundary_poly : geom)
    (vertices : list (Q * Q)) (ir : nat * list Z) : option (nat * geom) :=
  match clipped boundary_poly vertices (snd ir) with
  | Some g => if is_empty g then None else Some (fst ir, g)
  | None => None
  end.

(** The area of the boundary that the regions of the finite diagram
    cover, the part in each region counted for itself. *)
Definition covered_area {shapely : Shapely} (boundary_poly : geom)
    (vertices : list (Q * Q)) (regions : list (list Z)) : Q :=
  Py.sum (map area (omap (clipped boundary_poly vertices) regions)).

End Spec.

(** The placement rule of [Spec] for the distance that the interpreter
    computes: a group is in reach of an entry when [math.dist] from the
    entry to the last recorded position of the group is at most the
    radius. *)

Module Spec64.
Import Py Summary.

Section Floats.
Context {float : Float64.Ops}.

Definition reaches (r : Q) (col : column) (g : group) : Prop :=
  exists q, Spec.last_position g q
            /\ Float64.math_dist (col_X col, col_Y col) (p1 q, p2 q) <= r.

(** One point is placed: it joins the first group, in creation order,
    that is in reach, or else seeds a new group at the end. *)
Inductive first_match (r : Q) (floor : string) (col : column)
    (groups : list group) : list group -> Prop :=
| joins (i : nat) (g : group) :
    groups !! i = Some g ->
    reaches r col g ->
    (forall j g', (j < i)%nat -> groups !! j = Some g' -> ~ reaches r col g') ->
    first_match r floor col groups
      (<[i := {| id := id g; points := points g ++ [make_point floor col] |}]> groups)
| seeds (name : string) :
    (forall g, g ∈ groups -> ~ reaches r col g) ->
    first_match r floor col groups
      (groups ++ [ {| id := name; points := [make_point floor col] |} ]).

(** A whole run: the visited entries are placed one after the other. *)
Inductive run (r : Q) : list (string * column) -> list group -> list group -> Prop :=
| run_done groups : run r [] groups groups
| run_step floor col rest groups groups' groups'' :
    first_match r floor col groups groups' ->
    run r rest groups' groups'' ->
    run r ((floor, col) :: rest) groups groups''.

End Floats.

End Spec64.

(** ** Floors used as examples *)

Module Scenario.
Import Py Summary Voronoi5 Exact.

(** A slab of 4 m by 3 m and a hall of 40 m by 30 m around it. *)
Definition slab : list (Q * Q) := [(18, 14); (22, 14); (22, 17); (18, 17)].
Definition hall : list (Q * Q) := [(0, 0); (40, 0); (40, 30); (0, 30)].

(** Three supports at three corners of the slab. *)
Definition sites : list (Q * Q) := [(18, 14); (22, 14); (18, 17)].

Definition covering (w : Q) : zone shape := {| polygon := Ring slab; weight := w |}.
Definition hall_zone (w : Q) : zone shape := {| polygon := Ring hall; weight := w |}.

(** The slab carried by two columns and one wall sample, with one
    permanent load zone over the whole slab and no explicit unit load. *)
Definition wall_floor : floor_info :=
  {| floor_boundary := slab;
     columns := [(18, 14); (22, 14)];
     walls := [(18, 17)];
     foundations := [] |}.

Definition slab_loading (load_type : string) : list zone_json :=
  if String.eqb load_type "Permanent Loading"
  then [ {| Vertices := slab; UnitLoad := None |} ]
  else [].

(** The cells the engine returns on these floors, and the records it
    writes for the slab with the wall sample. *)
Definition cells_of (r : result (list (cell shape) * shape)) : list (cell shape) :=
  match r with
  | Ok (cells, _) => cells
  | Raise _ => []
  end.

Definition slab_cells : list (cell shape) :=
  Eval vm_compute in cells_of (compute_weighted_voronoi voronoi3 slab sites []).

Definition hall_cells : list (cell shape) :=
  Eval vm_compute in
    cells_of (compute_weighted_voronoi voronoi3 hall sites [hall_zone (3 # 2)]).

Definition doubled_cells : list (cell shape) :=
  Eval vm_compute in
    cells_of (compute_weighted_voronoi voronoi3 slab sites [covering 1; covering 1]).

Definition wall_floor_columns : list column_json :=
  Eval vm_compute in
    match floor_columns voronoi3 wall_floor (Some slab_loading) with
    | Ok cols => cols
    | Raise _ => []
    end.

Definition wall_floor_data : data_json :=
  [("01"%string, {| f_columns := Some wall_floor_columns |})].

Definition wall_floor_groups : list group :=
  Eval vm_compute in group_by_proximity wall_floor_data default_match_radius.

(** The unit square with two supports. *)
Definition unit_square : list (Q * Q) := [(0, 0); (1, 0); (1, 1); (0, 1)].
Definition two_sites : list (Q * Q) := [(0.25, 0.5); (0.75, 0.5)].
Definition unit_zone : zone shape := {| polygon := Ring unit_square; weight := 1 |}.

(** Three supports of the slab on one line. *)
Definition on_a_line : list (Q * Q) := [(19, 15); (20, 15); (21, 15)].

(** Two rings apart from each other, of areas 10 and 3. *)
Definition ring10 : shape := Ring [(10, 0); (15, 0); (15, 2); (10, 2)].
Definition ring3 : shape := Ring [(0, 0); (3, 0); (3, 1); (0, 1)].

(** A results file with a floor numbered above 999 and one below -1. *)
Definition no_columns : floor_json := {| f_columns := None |}.
Definition tall_building : data_json :=
  [("LB"%string, no_columns); ("RF"%string, no_columns);
   ("-2"%string, no_columns); ("1000"%string, no_columns)].

(** A column at (0, 0) on floor 02 and one at (0.3, 0.3) on floor 01. *)
Definition two_floors : data_json :=
  [("01"%string,
    {| f_columns := Some [ {| c_X := 3 # 10; c_Y := 3 # 10; c_Area := Some 9;
                              c_WeightedArea := Some 7; c_Type := Some "Column"%string |} ] |});
   ("02"%string,
    {| f_columns := Some [ {| c_X := 0; c_Y := 0; c_Area := Some 9;
                              c_WeightedArea := Some 5; c_Type := Some "Column"%string |} ] |})].

(** The group that the two columns make with the default radius. *)
Definition two_floors_group : group :=
  {| id := "C001";
     points := [ {| p0 := "02"; p1 := 0; p2 := 0; p3 := 9; p4 := 5; p5 := "Column" |};
                 {| p0 := "01"; p1 := 3 # 10; p2 := 3 # 10; p3 := 9; p4 := 7;
                    p5 := "Column" |} ] |}.

(** A group with one floor whose two passes weigh 0 and 2.5. *)
Definition zero_load_group : group :=
  {| id := "C001";
     points := [ {| p0 := "01"; p1 := 0; p2 := 0; p3 := 4; p4 := 0; p5 := "Column" |};
                 {| p0 := "01"; p1 := 0; p2 := 0; p3 := 4; p4 := 5 # 2; p5 := "Column" |} ] |}.

(** A results file with one floor and one column on it, to which the
    permanent pass gave a weighted area of 0 and the imposed pass 2.5. *)
Definition zero_load_data : data_json :=
  [("01"%string,
    {| f_columns := Some [ {| c_X := 0; c_Y := 0; c_Area := Some 4;
                              c_WeightedArea := Some 0; c_Type := Some "Column"%string |};
                           {| c_X := 0; c_Y := 0; c_Area := Some 4;
                              c_WeightedArea := Some (5 # 2);
                              c_Type := Some "Column"%string |} ] |})].

End Scenario.

(** ** Level names and the grouping by level
    ([LTD_floor4.py], [LTD_foundation2.py], [visual_check2.py],
    [filled_regions2.py]) *)

Module Levels.
Import Py.

Definition is_alnum (c : ascii) : bool :=
  let n := nat_of_ascii c in
  is_digit c
  || ((65 <=? n)%nat && (n <=? 90)%nat)
  || ((97 <=? n)%nat && (n <=? 122)%nat).

(** [s[:n]] and [s.strip()] *)
Definition str_take (n : nat) (s : string) : string :=
  string_of_list_ascii (take n (list_ascii_of_string s)).

Definition str_strip (s : string) : string :=
  string_of_list_ascii (strip (list_ascii_of_string s)).

(** [sub in s] *)
Fixpoint contains (sub s : string) : bool :=
  String.prefix sub s
  || match s with
     | EmptyString => false
     | String _ s' => contains sub s'
     end.

(** [a or b] on two values read with [.get]: the first unless it is
    missing or empty. *)
Definition py_or (a b : option string) : option string :=
  match a with
  | Some EmptyString | None => b
  | Some _ => a
  end.

(** *** [extract_level_prefix] ([LTD_floor4.py], [LTD_foundation2.py])

    [None] stands for a value that is not a string.  The pattern takes one
    or two leading letters or digits of the stripped name; without a match
    the first two characters of the name as given are returned. *)
Definition extract_level_prefix (level_name : option string) : string :=
  match level_name with
  | None => "Unknown"
  | Some name =>
      match strip (list_ascii_of_string name) with
      | c1 :: rest =>
          if is_alnum c1 then
            match rest with
            | c2 :: _ =>
                if is_alnum c2 then String c1 (String c2 EmptyString)
                else String c1 EmptyString
            | [] => String c1 EmptyString
            end
          else str_take 2 name
      | [] => str_take 2 name
      end
  end.

(** *** [level_to_number] and the level keys ([visual_check2.py]) *)

Definition level_to_number (level_name : option string) : option Z :=
  match level_name with
  | None => None
  | Some name =>
      let level_name := upper (str_take 2 (str_strip name)) in
      if startswith level_name "RF" then Some 999%Z
      else if startswith level_name "LB" then Some (-1)%Z
      else if startswith level_name "B" then
        match list_ascii_of_string level_name with
        | _ :: c :: _ =>
            match int (String c EmptyString) with
            | Ok n => Some (- n)%Z
            | Raise _ => None
            end
        | _ => None
        end
      else match int level_name with
           | Ok n => Some n
           | Raise _ => None
           end
  end.

(** [str(n)] for a natural number. *)
Definition decimal (n : nat) : string := NilEmpty.string_of_uint (Nat.to_uint n).

(** [f"{n:02d}"] *)
Definition format_02d (n : nat) : string :=
  match String.length (decimal n) with
  | 1%nat => "0" ++ decimal n
  | _ => decimal n
  end.

(** [f"{lvl:02d}" if lvl >= 0 else f"B{abs(lvl)}"] *)
Definition level_key (lvl : Z) : string :=
  if (0 <=? lvl)%Z then format_02d (Z.to_nat lvl)
  else "B" ++ decimal (Z.abs_nat lvl).

(** [range(low, high)] *)
Definition range (low high : Z) : list Z :=
  map (fun k => (low + Z.of_nat k)%Z) (seq 0 (Z.to_nat (high - low))).

(** The levels of an element from base [base_num] to top [top_num]:
    [low, high = sorted([base_num + 1, top_num])], then
    [range(low, high + 1)]. *)
Definition span (base_num top_num : Z) : list Z :=
  range (Z.min (base_num + 1) top_num) (Z.max (base_num + 1) top_num + 1).

(** An element of the column list.  [Top] is the dictionary under "Top"
    when there is one, with its "X" and "Y". *)
Record col_info : Type := {
  TopLevel : option string;
  Top_Level : option string;
  BaseLevel : option string;
  Base_Level : option string;
  Top : option (option Q * option Q);
  Top_X_m : option Q;
  Top_Y_m : option Q
}.

(** The [(level_key, (x, y))] pairs appended for one column, in order. *)
Definition column_levels (c : col_info) : list (string * (Q * Q)) :=
  let top_level := py_or (TopLevel c) (Top_Level c) in
  let base_level := py_or (BaseLevel c) (Base_Level c) in
  let top_num := level_to_number top_level in
  let base_num := level_to_number base_level in
  let '(x, y) := match Top c with
                 | Some xy => xy
                 | None => (Top_X_m c, Top_Y_m c)
                 end in
  match x, y, top_num, base_num with
  | Some x, Some y, Some top_num, Some base_num =>
      map (fun lvl => (level_key lvl, (x, y))) (span base_num top_num)
      ++ match top_level with
         | Some t =>
             if startswith (upper (str_strip t)) "RF" then [("RF"%string, (x, y))] else []
         | None => []
         end
  | _, _, _, _ => []
  end.

(** [d.setdefault(key, []).append(v)] *)
Definition setdefault_append {V} (d : gmap string (list V)) (kv : string * V)
    : gmap string (list V) :=
  <[fst kv := default [] (d !! fst kv) ++ [snd kv]]> d.

Definition columns_by_level (columns_list : list col_info) : gmap string (list (Q * Q)) :=
  fold_left (fun d c => fold_left setdefault_append (column_levels c) d) columns_list ∅.

(** [d.get(key, [])] *)
Definition get {V} (d : gmap string (list V)) (key : string) : list V :=
  default [] (d !! key).

(** *** [normalize_level_name] ([filled_regions2.py]) and the key under
    which [vornoi5.py] looks up the load zones of a floor *)

Definition normalize_level_name (raw_level : string) : string :=
  let level := str_strip raw_level in
  if startswith level "LB" then "LB Lvl"
  else if negb (contains "Lvl" level) then level ++ " Lvl"
  else level.

Definition load_key (floor_level : string) : string := floor_level ++ " Lvl".

End Levels.

(** ** [filled_regions2.py]: the load regions of each level

    The file [vornoi5.py] reads as [loading_data] is written here.  A
    [row] holds the values the [try] block binds for one line of the CSV
    file; lines on which it fails are skipped before this point. *)

Module Regions.
Import Py.

Record row : Type := {
  region_id : Z;
  region_type : string;
  view_name : string;
  loop_index : Z;
  X_m : Q;
  Y_m : Q
}.

(** Indexing a plain dictionary with a key it does not have. *)
Inductive attempt (A : Type) : Type :=
| Done (a : A)
| KeyError (key : string).
Arguments Done {A} a.
Arguments KeyError {A} key.

Definition load_type_of (view_name : string) : string :=
  if Levels.contains "Permanent" view_name then "Permanent Loading"
  else if Levels.contains "Imposed" view_name then "Imposed Loading"
  else "Other".

(** [s.split("-")[0]] *)
Fixpoint before_dash (s : string) : string :=
  match s with
  | EmptyString => EmptyString
  | String c s' => if Ascii.eqb c "-" then EmptyString else String c (before_dash s')
  end.

(** [(level, load_type, region_id, region_type, loop_index)] *)
Definition key : Type := string * string * Z * string * Z.

Definition key_of (r : row) : key :=
  let load_type := load_type_of (view_name r) in
  let raw_level := Levels.str_strip (before_dash (view_name r)) in
  let level := Levels.normalize_level_name raw_level in
  (level, load_type, region_id r, region_type r, loop_index r).

Record region_info : Type := {
  RegionID : Z;
  RegionType : string;
  LoopIndex : Z;
  Vertices : list (Q * Q)
}.

Definition append_vertex (v : Q * Q) (info : region_info) : region_info :=
  {| RegionID := RegionID info;
     RegionType := RegionType info;
     LoopIndex := LoopIndex info;
     Vertices := Vertices info ++ [v] |}.

(** [if key not in region_data: region_data[key] = new] followed by
    [region_data[key]["Vertices"].append(v)], on a dictionary kept in
    insertion order. *)
Fixpoint setdefault_vertex (k : key) (new : region_info) (v : Q * Q)
    (region_data : list (key * region_info)) : list (key * region_info) :=
  match region_data with
  | [] => [(k, append_vertex v new)]
  | (k', info) :: rest =>
      if bool_decide (k' = k) then (k', append_vertex v info) :: rest
      else (k', info) :: setdefault_vertex k new v rest
  end.

Definition add_row (region_data : list (key * region_info)) (r : row)
    : list (key * region_info) :=
  setdefault_vertex (key_of r)
    {| RegionID := region_id r;
       RegionType := region_type r;
       LoopIndex := loop_index r;
       Vertices := [] |}
    (X_m r, Y_m r) region_data.

Definition region_data (rows : list row) : list (key * region_info) :=
  fold_left add_row rows [].

(** The value the [defaultdict] makes for a new level. *)
Record loads : Type := {
  Permanent_Loading : list region_info;
  Imposed_Loading : list region_info
}.

Definition no_loads : loads :=
  {| Permanent_Loading := []; Imposed_Loading := [] |}.

(** [d[load_type].append(info)] on that two-key dictionary. *)
Definition append_region (d : loads) (load_type : string) (info : region_info)
    : attempt loads :=
  if String.eqb load_type "Permanent Loading" then
    Done {| Permanent_Loading := Permanent_Loading d ++ [info];
            Imposed_Loading := Imposed_Loading d |}
  else if String.eqb load_type "Imposed Loading" then
    Done {| Permanent_Loading := Permanent_Loading d;
            Imposed_Loading := Imposed_Loading d ++ [info] |}
  else KeyError load_type.

Definition level_of (k : key) : string := fst (fst (fst (fst k))).
Definition load_type_in (k : key) : string := snd (fst (fst (fst k))).

Fixpoint organise (entries : list (key * region_info)) (data : gmap string loads)
    : attempt (gmap string loads) :=
  match entries with
  | [] => Done data
  | (k, info) :: rest =>
      match append_region (default no_loads (data !! level_of k))
                          (load_type_in k) info with
      | Done d => organise rest (<[level_of k := d]> data)
      | KeyError missing => KeyError missing
      end
  end.

Definition generate_filled_regions_json (rows : list row)
    : attempt (gmap string loads) :=
  organise (region_data rows) ∅.

(** [data[level]] when [level] is a key, the default otherwise. *)
Definition loads_of (data : gmap string loads) (level : string) : loads :=
  default no_loads (data !! level).

End Regions.

(** ** Sample inputs for the level and region code *)

Module Samples.

(** A column whose base and top are both on level 01. *)
Definition one_level_column : Levels.col_info :=
  {| Levels.TopLevel := Some "01"%string;
     Levels.Top_Level := None;
     Levels.BaseLevel := Some "01"%string;
     Levels.Base_Level := None;
     Levels.Top := Some (Some 3, Some 4);
     Levels.Top_X_m := None;
     Levels.Top_Y_m := None |}.

(** A corner of a permanent-load region and a corner of an imposed-load
    region, both drawn on level 01. *)
Definition permanent_corner (x y : Q) : Regions.row :=
  {| Regions.region_id := 7; Regions.region_type := "5kN";
     Regions.view_name := "01 - Permanent"; Regions.loop_index := 0;
     Regions.X_m := x; Regions.Y_m := y |}.

Definition imposed_corner (x y : Q) : Regions.row :=
  {| Regions.region_id := 8; Regions.region_type := "2kN";
     Regions.view_name := "01 - Imposed"; Regions.loop_index := 0;
     Regions.X_m := x; Regions.Y_m := y |}.

(** Three corners of the permanent-load region, with a corner of the
    imposed-load region in between. *)
Definition load_rows : list Regions.row :=
  [ permanent_corner 0 0; imposed_corner 9 9;
    permanent_corner 4 0; permanent_corner 4 3 ].

(** A row from a view that names neither load. *)
Definition section_corner : Regions.row :=
  {| Regions.region_id := 9; Regions.region_type := "1kN";
     Regions.view_name := "01 - Section"; Regions.loop_index := 0;
     Regions.X_m := 1; Regions.Y_m := 1 |}.

(** The rows above followed by that one. *)
Definition rows_with_section_view : list Regions.row :=
  load_rows ++ [section_corner].

End Samples.

(** * Properties *)

(** ** Python primitives *)

Module PyFacts.
Import Py.

Lemma Qle_bool_false (a b : Q) : Qle_bool a b = false <-> b < a.
Proof.
  destruct (Qle_bool a b) eqn:E.
  - split; [discriminate|]. intros H. apply Qle_bool_iff in E.
    exfalso. exact (Qlt_not_le _ _ H E).
  - split; [intros _|reflexivity]. apply Qnot_le_lt.
    intros H. apply Qle_bool_iff in H. congruence.
Qed.

Lemma sq_nonneg (a : Q) : 0 <= a * a.
Proof. unfold Qle, Qmult; simpl. nia. Qed.

(** The test used for [math.dist(p, q) <= r] is the comparison of the
    Euclidean distance, computed over the reals, with [r]. *)
Lemma dist_le_euclid (p q : Q * Q) (r : Q) :
  dist_le p q r = true <-> Spec.within r p q.
Proof.
  unfold dist_le, Spec.within.
  set (d := (fst p - fst q) * (fst p - fst q) + (snd p - snd q) * (snd p - snd q)).
  assert (Hd : (0 <= Q2R d)%R).
  { replace 0%R with (Q2R 0) by apply RMicromega.Q2R_0.
    apply Qle_Rle. unfold d.
    pose proof (sq_nonneg (fst p - fst q)).
    pose proof (sq_nonneg (snd p - snd q)). Lqa.lra. }
  rewrite andb_true_iff, !Qle_bool_iff. split.
  - intros [Hr Hle].
    apply Qle_Rle in Hr, Hle. rewrite RMicromega.Q2R_0 in Hr.
    rewrite Q2R_mult in Hle.
    rewrite <- (sqrt_square (Q2R r)) by exact Hr.
    apply sqrt_le_1_alt. exact Hle.
  - intros Hs.
    assert (Hr : (0 <= Q2R r)%R) by (pose proof (sqrt_pos (Q2R d)); Lra.lra).
    split.
    + apply Rle_Qle. rewrite RMicromega.Q2R_0. exact Hr.
    + apply Rle_Qle. rewrite Q2R_mult.
      rewrite <- (sqrt_sqrt (Q2R d)) by exact Hd.
      apply Rmult_le_compat; auto using sqrt_pos.
Qed.

(** *** Sorting *)

Lemma insert_desc_perm {A} (key : A -> Z) x l :
  Permutation (insert_desc key x l) (x :: l).
Proof.
  induction l as [|y l IH]; simpl; [reflexivity|].
  destruct (key y <=? key x)%Z; [reflexivity|].
  rewrite IH. apply perm_swap.
Qed.

Lemma sorted_reverse_perm {A} (key : A -> Z) l :
  Permutation (sorted_reverse key l) l.
Proof.
  induction l as [|x l IH]; simpl; [reflexivity|].
  rewrite insert_desc_perm. now constructor.
Qed.

Lemma insert_desc_sorted {A} (key : A -> Z) x l :
  StronglySorted (fun a b => (key b <= key a)%Z) l ->
  StronglySorted (fun a b => (key b <= key a)%Z) (insert_desc key x l).
Proof.
  induction 1 as [|y l Hs IH Hy]; simpl.
  - repeat constructor.
  - destruct (Z.leb_spec (key y) (key x)) as [Hle|Hgt].
    + constructor; [constructor; assumption|].
      constructor; [exact Hle|].
      eapply Forall_impl; [exact Hy|]. simpl. intros; lia.
    + constructor; [exact IH|].
      rewrite insert_desc_perm.
      constructor; [lia|exact Hy].
Qed.

Lemma sorted_reverse_sorted {A} (key : A -> Z) l :
  StronglySorted (fun a b => (key b <= key a)%Z) (sorted_reverse key l).
Proof.
  induction l as [|x l IH]; simpl; [constructor|].
  now apply insert_desc_sorted.
Qed.

(** *** Letters *)

Ltac all_chars c :=
  destruct c as [[] [] [] [] [] [] [] []].

Lemma upper_char_R c : upper_char c = "R"%char <-> c = "R"%char \/ c = "r"%char.
Proof.
  all_chars c; vm_compute; split;
    solve [ intros _; auto | intros [H|H]; solve [reflexivity | discriminate H]
          | intros H; discriminate H ].
Qed.

Lemma upper_char_F c : upper_char c = "F"%char <-> c = "F"%char \/ c = "f"%char.
Proof.
  all_chars c; vm_compute; split;
    solve [ intros _; auto | intros [H|H]; solve [reflexivity | discriminate H]
          | intros H; discriminate H ].
Qed.

Lemma upper_char_L c : upper_char c = "L"%char <-> c = "L"%char \/ c = "l"%char.
Proof.
  all_chars c; vm_compute; split;
    solve [ intros _; auto | intros [H|H]; solve [reflexivity | discriminate H]
          | intros H; discriminate H ].
Qed.

Lemma upper_char_B c : upper_char c = "B"%char <-> c = "B"%char \/ c = "b"%char.
Proof.
  all_chars c; vm_compute; split;
    solve [ intros _; auto | intros [H|H]; solve [reflexivity | discriminate H]
          | intros H; discriminate H ].
Qed.

Lemma startswith_upper_two (u1 l1 u2 l2 : ascii) (level : string) :
  (forall c, upper_char c = u1 <-> c = u1 \/ c = l1) ->
  (forall c, upper_char c = u2 <-> c = u2 \/ c = l2) ->
  startswith (upper level) (String u1 (String u2 EmptyString)) = true
  <-> Spec.starts_with_letters u1 l1 u2 l2 level.
Proof.
  intros H1 H2. unfold startswith, Spec.starts_with_letters.
  destruct level as [|c1 [|c2 rest]]; simpl.
  - split; [discriminate|]. intros (? & ? & ? & ? & _). discriminate.
  - split.
    + destruct (ascii_dec u1 (upper_char c1)); discriminate.
    + intros (? & ? & ? & ? & _). discriminate.
  - destruct (ascii_dec u1 (upper_char c1)) as [E1|N1];
      [destruct (ascii_dec u2 (upper_char c2)) as [E2|N2]|].
    + split; [intros _|intros _; destruct (upper rest); reflexivity].
      exists c1, c2, rest. symmetry in E1, E2. rewrite H1 in E1. rewrite H2 in E2. auto.
    + split; [discriminate|].
      intros (d1 & d2 & rest' & E & _ & Hd2). injection E as -> -> ->.
      apply H2 in Hd2. congruence.
    + split; [discriminate|].
      intros (d1 & d2 & rest' & E & Hd1 & _). injection E as -> -> ->.
      apply H1 in Hd1. congruence.
Qed.

End PyFacts.

(** ** Floor order and alignment ([LTD_summary.py]) *)

Module SummaryFacts.
Import Py Summary PyFacts.

Lemma RF_label_iff level : startswith (upper level) "RF" = true <-> Spec.RF_label level.
Proof. apply startswith_upper_two; [apply upper_char_R | apply upper_char_F]. Qed.

Lemma LB_label_iff level : startswith (upper level) "LB" = true <-> Spec.LB_label level.
Proof. apply startswith_upper_two; [apply upper_char_L | apply upper_char_B]. Qed.

Lemma RF_not_LB level : Spec.RF_label level -> ~ Spec.LB_label level.
Proof.
  intros (c1 & c2 & rest & -> & H1 & _) (d1 & d2 & rest' & E & H2 & _).
  injection E as -> _ _. destruct H1, H2; congruence.
Qed.

Lemma not_true_false (b : bool) : ~ (b = true) -> b = false.
Proof. destruct b; congruence. Qed.

(** C4, as amended: the sort key is 999 for a label starting with RF and
    -1 for one starting with LB (either case), the integer value of a label
    that [int] parses, and 0 for any other label; floors are processed in
    non-increasing key order.  So an RF label comes at or before every label
    that is not an integer above 999, and an LB label at or after every
    label that is not an integer below -1. *)
Theorem floor_order_rule :
  (forall level, Spec.RF_label level -> floor_sort_key level = 999%Z)
  /\ (forall level, Spec.LB_label level -> floor_sort_key level = (-1)%Z)
  /\ (forall level n, ~ Spec.RF_label level -> ~ Spec.LB_label level ->
                     int level = Ok n -> floor_sort_key level = n)
  /\ (forall level e, ~ Spec.RF_label level -> ~ Spec.LB_label level ->
                     int level = Raise e -> floor_sort_key level = 0%Z)
  /\ (forall rf level, Spec.RF_label rf ->
                      (forall n, int level = Ok n -> (n <= 999)%Z) ->
                      (floor_sort_key level <= floor_sort_key rf)%Z)
  /\ (forall lb level, Spec.LB_label lb ->
                      (forall n, int level = Ok n -> (-1 <= n)%Z) ->
                      (floor_sort_key lb <= floor_sort_key level)%Z)
  /\ (forall data,
        Permutation (ordered_floors data) (map fst data)
        /\ StronglySorted (fun a b => (floor_sort_key b <= floor_sort_key a)%Z)
                          (ordered_floors data)).
Proof.
  assert (HRF : forall level, Spec.RF_label level -> floor_sort_key level = 999%Z).
  { intros level H. unfold floor_sort_key. apply RF_label_iff in H. now rewrite H. }
  assert (HLB : forall level, Spec.LB_label level -> floor_sort_key level = (-1)%Z).
  { intros level H. unfold floor_sort_key.
    assert (Hn : startswith (upper level) "RF" = false).
    { apply not_true_false. rewrite RF_label_iff. intros Hrf.
      exact (RF_not_LB _ Hrf H). }
    apply LB_label_iff in H. now rewrite Hn, H. }
  assert (Hint : forall level, ~ Spec.RF_label level -> ~ Spec.LB_label level ->
            floor_sort_key level = match int level with Ok n => n | Raise _ => 0%Z end).
  { intros level H1 H2. unfold floor_sort_key.
    rewrite <- RF_label_iff in H1. rewrite <- LB_label_iff in H2.
    now rewrite (not_true_false _ H1), (not_true_false _ H2). }
  assert (Hcases : forall level,
            floor_sort_key level = 999%Z \/ floor_sort_key level = (-1)%Z
            \/ floor_sort_key level = 0%Z
            \/ exists n, int level = Ok n /\ floor_sort_key level = n).
  { intros level. unfold floor_sort_key.
    destruct (startswith (upper level) "RF"); [auto|].
    destruct (startswith (upper level) "LB"); [auto|].
    destruct (int level) as [n|e]; [|auto].
    right. right. right. now exists n. }
  split; [exact HRF|]. split; [exact HLB|].
  split; [intros level n H1 H2 E; now rewrite Hint, E|].
  split; [intros level e H1 H2 E; now rewrite Hint, E|].
  split; [|split].
  - intros rf level Hrf Hn. rewrite (HRF rf Hrf).
    destruct (Hcases level) as [E|[E|[E|(n & E & En)]]]; try lia.
    rewrite En. now apply Hn.
  - intros lb level Hlb Hn. rewrite (HLB lb Hlb).
    destruct (Hcases level) as [E|[E|[E|(n & E & En)]]]; try lia.
    rewrite En. now apply Hn.
  - intros data. split; [apply sorted_reverse_perm | apply sorted_reverse_sorted].
Qed.

Lemma floor_order_rule_witness :
  floor_sort_key "rf2" = 999%Z /\ floor_sort_key "LB" = (-1)%Z
  /\ floor_sort_key "07" = 7%Z /\ floor_sort_key "G" = 0%Z
  /\ (floor_sort_key "07" <= floor_sort_key "RF")%Z
  /\ (floor_sort_key "LB" <= floor_sort_key "07")%Z.
Proof.
  destruct floor_order_rule as (Hrf & Hlb & Hn & Hz & Htop & Hbot & _).
  assert (R : forall rest, Spec.RF_label (String "r" (String "f" rest))).
  { intros rest. exists "r"%char, "f"%char, rest. auto. }
  assert (R' : Spec.RF_label "RF").
  { exists "R"%char, "F"%char, EmptyString. auto. }
  assert (L : Spec.LB_label "LB").
  { exists "L"%char, "B"%char, EmptyString. auto. }
  assert (N7 : ~ Spec.RF_label "07" /\ ~ Spec.LB_label "07").
  { split; intros (c1 & c2 & rest & E & [H|H] & _);
      injection E as <- _ _; discriminate H. }
  assert (NG : ~ Spec.RF_label "G" /\ ~ Spec.LB_label "G").
  { split; intros (c1 & c2 & rest & E & _); discriminate E. }
  split; [apply Hrf, R|]. split; [apply Hlb, L|].
  split; [apply (Hn "07"%string 7%Z); [apply N7 | apply N7 | reflexivity]|].
  split; [eapply (Hz "G"%string); [apply NG | apply NG | reflexivity]|].
  split.
  - apply (Htop "RF"%string "07"%string R').
    intros n E. vm_compute in E. injection E as <-. lia.
  - apply (Hbot "LB"%string "07"%string L).
    intros n E. vm_compute in E. injection E as <-. lia.
Defined.

(** C4 as stated fails: a floor numbered above 999 is processed before the
    roof, and one numbered below -1 after the lowest basement. *)
Lemma roof_is_not_always_first :
  ~ (forall level, (floor_sort_key level <= floor_sort_key "RF")%Z)
  /\ ~ (forall level, (floor_sort_key "LB" <= floor_sort_key level)%Z)
  /\ ordered_floors Scenario.tall_building = ["1000"; "RF"; "LB"; "-2"]%string.
Proof.
  split; [|split].
  - intros H. specialize (H "1000"%string). vm_compute in H. now apply H.
  - intros H. specialize (H "-2"%string). vm_compute in H. now apply H.
  - reflexivity.
Qed.

(** *** The grouping loop *)

Lemma alter_as_insert {A} (f : A -> A) (l : list A) (i : nat) (x : A) :
  l !! i = Some x -> alter f i l = <[i := f x]> l.
Proof.
  revert i. induction l as [|y l IH]; intros [|i] H; simpl in *; try discriminate.
  - now injection H as ->.
  - f_equal. now apply IH.
Qed.

Lemma last_position_unique g q q' :
  Spec.last_position g q -> Spec.last_position g q' -> q = q'.
Proof.
  intros [b E] [b' E']. rewrite E in E'. now apply app_inj_tail in E' as [_ ?].
Qed.

Lemma in_radius_reaches r col (g : group) :
  points g <> [] ->
  in_radius r (col_X col) (col_Y col) g <-> Spec.reaches r col g.
Proof.
  intros Hne. unfold in_radius, last_xy, Spec.reaches.
  assert (Hlast : exists l p0, points g = l ++ [p0]).
  { destruct (points g) as [|p0 l _] using rev_ind; [congruence | eauto]. }
  destruct Hlast as (l & p0 & E). rewrite E.
  rewrite last_snoc, dist_le_euclid. split.
  - intros H. exists p0. split; [|exact H]. exists l. exact E.
  - intros (q & Hq & H).
    assert (q = p0) as -> by (apply (last_position_unique g); [exact Hq | now exists l]).
    exact H.
Qed.

Lemma place_first_match r floor (gs : list group) (n : nat) col :
  Forall (fun g => points g <> []) gs ->
  Spec.first_match r floor col gs (fst (place r floor (gs, n) col))
  /\ Forall (fun g => points g <> []) (fst (place r floor (gs, n) col)).
Proof.
  intros Hne. unfold place.
  destruct (list_find _ gs) as [[i g]|] eqn:E; simpl.
  - apply list_find_Some in E as (Hi & Hin & Hfirst).
    rewrite (alter_as_insert _ _ _ _ Hi). split.
    + apply Spec.joins; [exact Hi| |].
      * apply in_radius_reaches; [|exact Hin].
        exact (proj1 (Forall_lookup _ _) Hne _ _ Hi).
      * intros j g' Hj Hg' Hr. apply (Hfirst j g' Hg' Hj).
        apply in_radius_reaches; [|exact Hr].
        exact (proj1 (Forall_lookup _ _) Hne _ _ Hg').
    + apply Forall_insert; [exact Hne|]. simpl. now destruct (points g).
  - apply list_find_None in E. split.
    + apply Spec.seeds. intros g Hg Hr.
      rewrite Forall_forall in E, Hne.
      apply (E g Hg). apply in_radius_reaches; [now apply Hne | exact Hr].
    + apply Forall_app. split; [exact Hne|]. now repeat constructor.
Qed.

Lemma run_app r l1 l2 a b c :
  Spec.run r l1 a b -> Spec.run r l2 b c -> Spec.run r (l1 ++ l2) a c.
Proof.
  induction 1; intros H2; simpl; [exact H2|].
  econstructor; eauto.
Qed.

Lemma place_fold_run r floor cols : forall (gs : list group) (n : nat),
  Forall (fun g => points g <> []) gs ->
  Spec.run r (map (pair floor) cols) gs (fst (fold_left (place r floor) cols (gs, n)))
  /\ Forall (fun g => points g <> []) (fst (fold_left (place r floor) cols (gs, n))).
Proof.
  induction cols as [|col cols IH]; intros gs n Hne; cbn [fold_left map].
  - split; [constructor | exact Hne].
  - destruct (place_first_match r floor gs n col Hne) as [Hstep Hne'].
    destruct (place r floor (gs, n) col) as [gs' n']. cbn [fst] in *.
    destruct (IH gs' n' Hne') as [Hrun Hne''].
    split; [econstructor; eauto | exact Hne''].
Qed.

Lemma floors_fold_run r data floors : forall (gs : list group) (n : nat),
  Forall (fun g => points g <> []) gs ->
  Spec.run r (flat_map (fun floor => map (pair floor) (floors_data data floor)) floors)
           gs (fst (fold_left (place_floor r data) floors (gs, n)))
  /\ Forall (fun g => points g <> [])
            (fst (fold_left (place_floor r data) floors (gs, n))).
Proof.
  induction floors as [|floor floors IH]; intros gs n Hne; cbn [fold_left flat_map].
  - split; [constructor | exact Hne].
  - destruct (place_fold_run r floor (floors_data data floor) gs n Hne) as [Hrun Hne'].
    change (place_floor r data (gs, n) floor)
      with (fold_left (place r floor) (floors_data data floor) (gs, n)).
    destruct (fold_left (place r floor) (floors_data data floor) (gs, n)) as [gs' n'].
    cbn [fst] in *. destruct (IH gs' n' Hne') as [Hrun' Hne''].
    split; [eapply run_app; eauto | exact Hne''].
Qed.

Lemma group_by_proximity_run data r :
  Spec.run r (Spec.visits data) [] (group_by_proximity data r).
Proof. apply floors_fold_run. constructor. Qed.

(** *** Which entries are grouped *)

Lemma first_match_perm r floor col gs gs' :
  Spec.first_match r floor col gs gs' ->
  Permutation (concat (map points gs'))
              (concat (map points gs) ++ [make_point floor col]).
Proof.
  intros [i g Hi _ _ | name _].
  - rewrite insert_take_drop by (eapply lookup_lt_Some; eauto).
    rewrite <- (take_drop_middle gs i g Hi) at 3.
    rewrite !map_app, !concat_app. simpl. solve_Permutation.
  - rewrite map_app, concat_app. simpl. rewrite ?app_nil_r. reflexivity.
Qed.

Lemma run_perm r visits gs gs' :
  Spec.run r visits gs gs' ->
  Permutation (concat (map points gs'))
              (concat (map points gs)
               ++ map (fun fc => make_point (fst fc) (snd fc)) visits).
Proof.
  induction 1 as [gs | floor col rest gs gs1 gs2 Hstep Hrun IH]; simpl.
  - now rewrite app_nil_r.
  - rewrite IH, (first_match_perm _ _ _ _ _ Hstep), <- app_assoc. reflexivity.
Qed.

(** C1, as amended: every entry of a floor's "columns" list takes part in
    the grouping, whatever its type (Column, Wall or Foundation): the
    points held by the groups are exactly the visited entries, each with
    its own floor and type, and so every entry is in some group. *)
Theorem every_entry_is_grouped (data : data_json) (r : Q) :
  Permutation (concat (map points (group_by_proximity data r)))
              (map (fun fc => make_point (fst fc) (snd fc)) (Spec.visits data))
  /\ (forall floor col,
        In (floor, col) (Spec.visits data) ->
        exists g p, In g (group_by_proximity data r) /\ In p (points g)
                    /\ p0 p = floor /\ p5 p = col_Type col
                    /\ (p1 p, p2 p) = (col_X col, col_Y col)).
Proof.
  assert (Hperm := run_perm _ _ _ _ (group_by_proximity_run data r)).
  simpl in Hperm. split; [exact Hperm|].
  intros floor col Hin.
  assert (Hp : In (make_point floor col)
                  (concat (map points (group_by_proximity data r)))).
  { eapply Permutation_in; [symmetry; exact Hperm|].
    apply (in_map (fun fc => make_point (fst fc) (snd fc)) _ _ Hin). }
  apply in_concat in Hp as (pts & Hpts & Hp).
  apply in_map_iff in Hpts as (g & <- & Hg).
  exists g, (make_point floor col). repeat split; assumption.
Qed.

Lemma every_entry_is_grouped_witness :
  exists g p, In g (group_by_proximity
                      [("01"%string,
                        {| f_columns := Some [ {| c_X := 1; c_Y := 2; c_Area := Some 3;
                                                  c_WeightedArea := Some 4;
                                                  c_Type := Some "Foundation"%string |} ] |})]
                      default_match_radius)
              /\ In p (points g) /\ p5 p = "Foundation"%string.
Proof.
  destruct (every_entry_is_grouped
              [("01"%string,
                {| f_columns := Some [ {| c_X := 1; c_Y := 2; c_Area := Some 3;
                                          c_WeightedArea := Some 4;
                                          c_Type := Some "Foundation"%string |} ] |})]
              default_match_radius) as [_ H].
  destruct (H "01"%string
              {| col_X := 1; col_Y := 2; col_Area := 3; col_WeightedArea := 4;
                 col_Type := "Foundation" |}) as (g & p & Hg & Hp & _ & Ht & _).
  - left. reflexivity.
  - exists g, p. auto.
Defined.

(** C1 as stated fails: on the slab carried by two columns and a wall
    sample, the engine writes the wall sample into the "columns" list and
    the aggregator seeds a group with it. *)
Lemma wall_sample_seeds_a_group :
  Voronoi5.floor_columns (shapely := Exact.exact_shapely) Exact.voronoi3
    Scenario.wall_floor (Some Scenario.slab_loading)
  = Ok Scenario.wall_floor_columns
  /\ map c_Type Scenario.wall_floor_columns
     = [Some "Column"; Some "Column"; Some "Wall"]%string
  /\ group_by_proximity Scenario.wall_floor_data default_match_radius
     = Scenario.wall_floor_groups
  /\ map (fun g => map p5 (points g)) Scenario.wall_floor_groups
     = [["Column"]; ["Column"]; ["Wall"]]%string
  /\ ~ (forall g p,
          In g (group_by_proximity Scenario.wall_floor_data default_match_radius) ->
          In p (points g) -> p5 p = "Column"%string).
Proof.
  assert (E : group_by_proximity Scenario.wall_floor_data default_match_radius
              = Scenario.wall_floor_groups) by (vm_compute; reflexivity).
  split; [vm_compute; reflexivity|].
  split; [reflexivity|]. split; [exact E|]. split; [reflexivity|].
  rewrite E. unfold Scenario.wall_floor_groups. intros H.
  specialize (H _ _ (or_intror (or_intror (or_introl eq_refl))) (or_introl eq_refl)).
  discriminate H.
Qed.

(** *** The report rows *)

Lemma pair_item_weighted_pairs (l : list Q) :
  forall i k, (k < 2)%nat -> pair_item (weighted_pairs l) i k = l !! (2 * i + k)%nat.
Proof.
  enough (H : (forall i k, (k < 2)%nat ->
                 pair_item (weighted_pairs l) i k = l !! (2 * i + k)%nat)
              /\ (forall a i k, (k < 2)%nat ->
                    pair_item (weighted_pairs (a :: l)) i k = (a :: l) !! (2 * i + k)%nat))
    by apply H.
  induction l as [|b l [IH1 IH2]].
  - split.
    + intros i k _. unfold pair_item. simpl. now rewrite !lookup_nil.
    + intros a [|i] [|[|k]] Hk; try lia; unfold pair_item; simpl; try reflexivity.
  - split; [apply IH2|].
    intros a [|i] k Hk.
    + destruct k as [|[|k]]; try lia; reflexivity.
    + replace (2 * S i + k)%nat with (S (S (2 * i + k))) by lia.
      simpl. apply (IH1 i k Hk).
Qed.

End SummaryFacts.

(** ** Cells and weights ([vornoi5.py]) *)

Module VoronoiFacts.
Import Py Voronoi5 PyFacts.

Lemma sum_from (l : list Q) (a : Q) : fold_left Qplus l a == a + Py.sum l.
Proof.
  unfold Py.sum. revert a.
  induction l as [|x l IH]; intros a; simpl; [Lqa.lra|].
  rewrite (IH (a + x)), (IH (0 + x)). Lqa.lra.
Qed.

Lemma sum_cons (x : Q) (l : list Q) : Py.sum (x :: l) == x + Py.sum l.
Proof. unfold Py.sum at 1. simpl. rewrite sum_from. Lqa.lra. Qed.

Lemma sum_app (l1 l2 : list Q) : Py.sum (l1 ++ l2) == Py.sum l1 + Py.sum l2.
Proof. unfold Py.sum. rewrite List.fold_left_app. apply (sum_from l2). Qed.

Section EngineFacts.
Context {shapely : Shapely}.
Variable Voronoi : list (Q * Q) -> result Vor.

(** *** The guard on the number of sites *)

Lemma compute_few_sites boundary_coords interior_points weighted_zones boundary_poly :
  (length interior_points < 3)%nat ->
  Polygon boundary_coords = Ok boundary_poly ->
  compute_weighted_voronoi Voronoi boundary_coords interior_points weighted_zones
  = Ok ([], boundary_poly).
Proof.
  intros Hlen Hb. unfold compute_weighted_voronoi. rewrite Hb. simpl.
  apply Nat.ltb_lt in Hlen. now rewrite Hlen.
Qed.

Lemma compute_voronoi_error boundary_coords interior_points weighted_zones boundary_poly e :
  (3 <= length interior_points)%nat ->
  Polygon boundary_coords = Ok boundary_poly ->
  Voronoi interior_points = Raise e ->
  compute_weighted_voronoi Voronoi boundary_coords interior_points weighted_zones = Raise e.
Proof.
  intros Hlen Hb Hv. unfold compute_weighted_voronoi. rewrite Hb. simpl.
  apply Nat.ltb_ge in Hlen. now rewrite Hlen, Hv.
Qed.

(** C7: the guard on the number of sites is the only one.  With fewer
    than 3 sites the engine returns no cells and raises nothing, as the
    specification says; three sites on one line are as degenerate, the
    guard lets them through, and the [QhullError] that the triangulation
    raises on them leaves the engine where the specification promises an
    empty result and no error. *)
Theorem sites_on_a_line_raise boundary_coords weighted_zones boundary_poly :
  Polygon boundary_coords = Ok boundary_poly ->
  Voronoi Scenario.on_a_line = Raise QhullError ->
  (forall interior_points,
     (length interior_points < 3)%nat ->
     compute_weighted_voronoi Voronoi boundary_coords interior_points weighted_zones
     = Ok ([], boundary_poly))
  /\ compute_weighted_voronoi Voronoi boundary_coords Scenario.on_a_line weighted_zones
     = Raise QhullError.
Proof.
  intros Hb Hv. split.
  - intros interior_points Hlen. now apply compute_few_sites.
  - apply (compute_voronoi_error _ _ _ boundary_poly); [simpl; lia | exact Hb | exact Hv].
Qed.

(** *** The zone loop *)

Lemma weighted_sum_from (poly : geom) (zones : list (zone geom)) (W acc : Q) :
  Forall (fun z => weight z <= W) zones ->
  Forall (fun z => 0 <= area (intersection poly (polygon z))) zones ->
  fold_left
    (fun acc zone =>
       let inter := intersection poly (polygon zone) in
       if negb (is_empty inter) then acc + area inter * weight zone else acc)
    zones acc
  <= acc + Spec.overlap_total poly zones * W.
Proof.
  unfold Spec.overlap_total. revert acc.
  induction zones as [|z zones IH]; intros acc Hw Ha; simpl.
  - unfold Py.sum. simpl. Lqa.lra.
  - apply Forall_cons in Hw as [Hw Hws]. apply Forall_cons in Ha as [Ha Has].
    destruct (negb (is_empty (intersection poly (polygon z)))); simpl.
    + eapply Qle_trans; [apply (IH _ Hws Has)|]. rewrite sum_cons.
      set (a := area (intersection poly (polygon z))) in *.
      set (rest := Py.sum _).
      assert (a * weight z <= a * W) by Lqa.nra.
      Lqa.lra.
    + apply (IH _ Hws Has).
Qed.

Lemma weighted_sum_le (poly : geom) (zones : list (zone geom)) (W : Q) :
  0 <= W ->
  Forall (fun z => weight z <= W) zones ->
  Forall (fun z => 0 <= area (intersection poly (polygon z))) zones ->
  Spec.overlap_total poly zones <= area poly ->
  weighted_sum poly zones <= area poly * W.
Proof.
  intros HW Hw Ha Hov. unfold weighted_sum.
  eapply Qle_trans; [apply (weighted_sum_from poly zones W 0 Hw Ha)|].
  assert (Spec.overlap_total poly zones * W <= area poly * W)
    by (apply Qmult_le_compat_r; assumption).
  Lqa.lra.
Qed.

Lemma weighted_sum_no_overlap (poly : geom) (zones : list (zone geom)) :
  Forall (fun z => is_empty (intersection poly (polygon z)) = true) zones ->
  weighted_sum poly zones = 0.
Proof.
  unfold weighted_sum. generalize 0.
  induction zones as [|z zones IH]; intros acc H; simpl; [reflexivity|].
  apply Forall_cons in H as [Hz Hzs]. rewrite Hz. simpl. now apply IH.
Qed.

(** *** The loop over the regions *)

Lemma fold_clip_raise bp pts verts zones irs e :
  fold_left (clip_region bp pts verts zones) irs (Raise e) = Raise e.
Proof. induction irs as [|ir irs IH]; simpl; [reflexivity | exact IH]. Qed.

Lemma clip_region_step bp pts verts zones results i region results' :
  clip_region bp pts verts zones (Ok results) (i, region) = Ok results' ->
  results' = results
  \/ exists cellpoly,
       Polygon (map (getitem verts) region) = Ok cellpoly
       /\ is_empty (intersection cellpoly bp) = false
       /\ results' =
          results ++ [ {| index := i;
                          cell_point := nth i pts (0, 0);
                          area_raw := area (intersection cellpoly bp);
                          area_weighted := weighted_sum (intersection cellpoly bp) zones;
                          cell_polygon := intersection cellpoly bp |} ].
Proof.
  unfold clip_region. simpl.
  destruct (_ || _); [intros [= <-]; now left|].
  destruct (Polygon (map (getitem verts) region)) as [cellpoly|e]; simpl; [|discriminate].
  destruct (is_empty (intersection cellpoly bp)) eqn:E; intros [= <-]; [now left|].
  right. exists cellpoly. auto.
Qed.

Lemma fold_clip_cells bp pts verts zones (regions : list (list Z)) :
  forall k results res,
    fold_left (clip_region bp pts verts zones)
              (imap (fun i => pair (k + i)%nat) regions) (Ok results) = Ok res ->
    exists new,
      res = results ++ new
      /\ StronglySorted lt (map index new)
      /\ Forall (fun c =>
                   (k <= index c)%nat
                   /\ exists region cellpoly,
                        regions !! (index c - k)%nat = Some region
                        /\ Polygon (map (getitem verts) region) = Ok cellpoly
                        /\ is_empty (intersection cellpoly bp) = false
                        /\ cell_polygon c = intersection cellpoly bp
                        /\ area_raw c = area (cell_polygon c)
                        /\ area_weighted c = weighted_sum (cell_polygon c) zones) new.
Proof.
  induction regions as [|region rest IH]; intros k results res; cbn [imap fold_left].
  - intros [= <-]. exists []. rewrite app_nil_r. repeat constructor.
  - rewrite (imap_ext _ (fun i => pair (S k + i)%nat))
      by (intros; simpl; f_equal; lia).
    destruct (clip_region bp pts verts zones (Ok results) ((k + 0)%nat, region))
      as [results1|e] eqn:E; [|rewrite fold_clip_raise; discriminate].
    intros Hfold. apply IH in Hfold as (new & -> & Hsorted & Hall).
    assert (Hshift : Forall (fun c =>
                   (k <= index c)%nat
                   /\ exists region' cellpoly,
                        (region :: rest) !! (index c - k)%nat = Some region'
                        /\ Polygon (map (getitem verts) region') = Ok cellpoly
                        /\ is_empty (intersection cellpoly bp) = false
                        /\ cell_polygon c = intersection cellpoly bp
                        /\ area_raw c = area (cell_polygon c)
                        /\ area_weighted c = weighted_sum (cell_polygon c) zones) new).
    { eapply Forall_impl; [exact Hall|]. simpl.
      intros c (Hk & region' & cellpoly & Hr & H). split; [lia|].
      exists region', cellpoly. split; [|exact H].
      replace (index c - k)%nat with (S (index c - S k)) by lia. exact Hr. }
    apply clip_region_step in E as [->|(cellpoly & Hp & He & ->)].
    + exists new. repeat split; assumption.
    + eexists (_ :: new). rewrite <- app_assoc. split; [reflexivity|]. split.
      * simpl. constructor; [exact Hsorted|].
        apply Forall_fmap. eapply Forall_impl; [exact Hall|].
        simpl. intros c [Hc _]. lia.
      * constructor; [|exact Hshift]. simpl. split; [lia|].
        exists region, cellpoly. replace (k + 0 - k)%nat with 0%nat by lia.
        repeat split; assumption || reflexivity.
Qed.

(** What a successful call returns. *)
Lemma compute_cells boundary_coords interior_points weighted_zones results boundary_poly :
  compute_weighted_voronoi Voronoi boundary_coords interior_points weighted_zones
  = Ok (results, boundary_poly) ->
  Polygon boundary_coords = Ok boundary_poly
  /\ (((length interior_points < 3)%nat /\ results = [])
      \/ ((3 <= length interior_points)%nat
          /\ exists vor regions vertices,
               Voronoi interior_points = Ok vor
               /\ voronoi_finite_polygons_2d vor None = Ok (regions, vertices)
               /\ StronglySorted lt (map index results)
               /\ Forall (fun c =>
                     exists region cellpoly,
                       regions !! index c = Some region
                       /\ Polygon (map (getitem vertices) region) = Ok cellpoly
                       /\ is_empty (intersection cellpoly boundary_poly) = false
                       /\ cell_polygon c = intersection cellpoly boundary_poly
                       /\ area_raw c = area (cell_polygon c)
                       /\ area_weighted c = weighted_sum (cell_polygon c) weighted_zones)
                     results)).
Proof.
  unfold compute_weighted_voronoi.
  destruct (Polygon boundary_coords) as [bp|e]; simpl; [|discriminate].
  destruct (Nat.ltb_spec (length interior_points) 3) as [Hlt|Hge].
  - intros [= <- <-]. split; [reflexivity|]. left. auto.
  - destruct (Voronoi interior_points) as [vor|e]; simpl; [|discriminate].
    destruct (voronoi_finite_polygons_2d vor None) as [[regions vertices]|e] eqn:Hf;
      simpl; [|discriminate].
    destruct (fold_left _ _ _) as [res|e] eqn:Hfold; simpl; [|discriminate].
    intros [= <- <-]. split; [reflexivity|]. right. split; [exact Hge|].
    exists vor, regions, vertices. split; [reflexivity|]. split; [exact Hf|].
    apply (fold_clip_cells _ _ _ _ regions 0) in Hfold as (new & -> & Hsorted & Hall).
    simpl. split; [exact Hsorted|].
    eapply Forall_impl; [exact Hall|]. simpl.
    intros c (_ & region & cellpoly & Hr & H).
    exists region, cellpoly. rewrite Nat.sub_0_r in Hr. auto.
Qed.

Lemma maximum_upper (l : list Q) : Forall (fun x => x <= Np.maximum l) l.
Proof.
  assert (H : forall l a, a <= fold_left Np.Qmax l a
                          /\ Forall (fun x => x <= fold_left Np.Qmax l a) l).
  { clear. induction l as [|x l IH]; intros a; simpl.
    - split; [apply Qle_refl | constructor].
    - destruct (IH (Np.Qmax a x)) as [H1 H2].
      assert (Hm : a <= Np.Qmax a x /\ x <= Np.Qmax a x).
      { unfold Np.Qmax. destruct (Qle_bool a x) eqn:E.
        - apply Qle_bool_iff in E. split; [exact E | apply Qle_refl].
        - apply Qle_bool_false in E. split; [apply Qle_refl | now apply Qlt_le_weak]. }
      split; [eapply Qle_trans; [apply Hm | exact H1]|].
      constructor; [eapply Qle_trans; [apply Hm | exact H1] | exact H2]. }
  destruct l as [|a l]; [constructor|]. simpl.
  destruct (H l a). now constructor.
Qed.

(** C5, as amended: the weighted area of a cell is the sum, over the zones
    of the pass that meet it, of overlap area times zone weight.  It is 0
    when no zone meets the cell.  It is at most the raw area times the
    largest zone weight when that weight is not negative and the overlaps
    of the zones with the cell add up to no more than the cell, that is,
    when the zones do not cover any part of the cell twice. *)
Theorem weighted_area_bound boundary_coords interior_points weighted_zones
    results boundary_poly (c : cell geom) :
  compute_weighted_voronoi Voronoi boundary_coords interior_points weighted_zones
  = Ok (results, boundary_poly) ->
  In c results ->
  area_weighted c = weighted_sum (cell_polygon c) weighted_zones
  /\ (Forall (fun z => is_empty (intersection (cell_polygon c) (polygon z)) = true)
             weighted_zones ->
      area_weighted c = 0)
  /\ (0 <= Spec.max_weight weighted_zones ->
      Forall (fun z => 0 <= area (intersection (cell_polygon c) (polygon z)))
             weighted_zones ->
      Spec.overlap_total (cell_polygon c) weighted_zones <= area_raw c ->
      area_weighted c <= area_raw c * Spec.max_weight weighted_zones).
Proof.
  intros Hc Hin. apply compute_cells in Hc as [_ [[_ ->]|(_ & vor & rs & vs & _ & _ & _ & H)]];
    [destruct Hin|].
  rewrite List.Forall_forall in H.
  destruct (H c Hin) as (region & cellpoly & _ & _ & _ & _ & Hraw & Hw).
  split; [exact Hw|]. split.
  - intros He. rewrite Hw. now apply weighted_sum_no_overlap.
  - intros HW Ha Hov. rewrite Hw, Hraw in *.
    apply weighted_sum_le; try assumption.
    unfold Spec.max_weight. apply List.Forall_forall. intros z Hz.
    pose proof (maximum_upper (map weight weighted_zones)) as Hm.
    rewrite List.Forall_forall in Hm. apply Hm. now apply in_map.
Qed.

(** *** The cells and the regions of the diagram *)

Lemma clip_region_cell bp pts verts zones results (ir : nat * list Z) :
  (snd ir <> [] ->
   existsb (fun v => (Z.of_nat (length verts) <=? v)%Z) (snd ir) = false ->
   exists cellpoly, Polygon (map (getitem verts) (snd ir)) = Ok cellpoly) ->
  exists new,
    clip_region bp pts verts zones (Ok results) ir = Ok (results ++ new)
    /\ map (fun c => (index c, cell_polygon c)) new
       = option_list (Spec.cell_of_region bp verts ir)
    /\ Forall (fun c => area_raw c = area (cell_polygon c)) new
    /\ ((forall g, is_empty g = true -> area g == 0) ->
        Py.sum (map area_raw new)
        == Py.sum (map area (option_list (Spec.clipped bp verts (snd ir))))).
Proof.
  destruct ir as [i region].
  unfold clip_region, Spec.cell_of_region, Spec.clipped. cbn [bind fst snd].
  intros Hring. destruct region as [|v region].
  { exists []. rewrite app_nil_r. repeat split; constructor. }
  cbn [orb].
  destruct (existsb _ (v :: region)) eqn:Hin.
  { exists []. rewrite app_nil_r. repeat split; constructor. }
  destruct (Hring ltac:(discriminate) eq_refl) as [cellpoly ->]. cbn [bind].
  destruct (is_empty (intersection cellpoly bp)) eqn:E.
  - exists []. rewrite app_nil_r. split; [reflexivity|]. split; [reflexivity|].
    split; [constructor|]. intros Hlaw. cbn [option_list option_rect map].
    rewrite sum_cons, (Hlaw _ E). reflexivity.
  - eexists [_]. split; [reflexivity|]. split; [reflexivity|].
    split; [repeat constructor|]. intros _. reflexivity.
Qed.

Lemma fold_clip_regions bp pts verts zones (irs : list (nat * list Z)) :
  Forall (fun region =>
            region <> [] ->
            existsb (fun v => (Z.of_nat (length verts) <=? v)%Z) region = false ->
            exists cellpoly, Polygon (map (getitem verts) region) = Ok cellpoly)
         (map snd irs) ->
  forall results,
    exists new,
      fold_left (clip_region bp pts verts zones) irs (Ok results) = Ok (results ++ new)
      /\ map (fun c => (index c, cell_polygon c)) new
         = omap (Spec.cell_of_region bp verts) irs
      /\ Forall (fun c => area_raw c = area (cell_polygon c)) new
      /\ ((forall g, is_empty g = true -> area g == 0) ->
          Py.sum (map area_raw new)
          == Py.sum (map area (omap (Spec.clipped bp verts) (map snd irs)))).
Proof.
  induction irs as [|ir irs IH]; intros Hrings results; cbn [fold_left].
  - exists []. rewrite app_nil_r. repeat split; constructor.
  - cbn [map] in Hrings. apply Forall_cons in Hrings as [Hring Hrings].
    destruct (clip_region_cell bp pts verts zones results ir Hring)
      as (new1 & -> & Hkey1 & Hraw1 & Hsum1).
    destruct (IH Hrings (results ++ new1)) as (new2 & -> & Hkey2 & Hraw2 & Hsum2).
    exists (new1 ++ new2). rewrite <- app_assoc. split; [reflexivity|]. split; [|split].
    + rewrite map_app, Hkey1, Hkey2. cbn [omap list_omap].
      now destruct (Spec.cell_of_region bp verts ir).
    + apply Forall_app. now split.
    + intros Hlaw. rewrite !map_app, sum_app, (Hsum1 Hlaw), (Hsum2 Hlaw).
      cbn [map omap list_omap].
      destruct (Spec.clipped bp verts (snd ir)) as [g|]; cbn [option_list option_rect map].
      * rewrite !sum_cons. unfold Py.sum at 1. cbn [fold_left]. Lqa.lra.
      * unfold Py.sum at 1. cbn [fold_left]. Lqa.lra.
Qed.

Lemma snd_imap_pair {A} (l : list A) : forall k, map snd (imap (fun i => pair (k + i)%nat) l) = l.
Proof.
  induction l as [|x l IH]; intros k; cbn [imap map snd]; [reflexivity|].
  f_equal. rewrite (imap_ext _ (fun i => pair (S k + i)%nat))
    by (intros; simpl; f_equal; lia).
  apply IH.
Qed.


(** *** The zones of a pass *)

(** C9: every zone with at least three vertices becomes a weighted zone,
    in order, when shapely accepts its ring; the weight is the explicit
    unit load when there is one, and otherwise 1.0 in the pass "Permanent
    Loading" and 0.8 in the pass "Imposed Loading". *)
Theorem zone_default_weights (load_type : string) (load_zones : list zone_json) :
  Forall (fun z => (3 <= length (Vertices z))%nat ->
                   exists g, Polygon (Vertices z) = Ok g) load_zones ->
  exists weighted_zones,
    weighted_zones_of load_type load_zones = Ok weighted_zones
    /\ Forall2
         (fun z w =>
            Polygon (Vertices z) = Ok (polygon w)
            /\ match UnitLoad z with
               | Some u => weight w = u
               | None =>
                   (load_type = "Permanent Loading"%string -> weight w = 1)
                   /\ (load_type = "Imposed Loading"%string -> weight w = 8 # 10)
               end)
         (List.filter (fun z => (3 <=? length (Vertices z))%nat) load_zones)
         weighted_zones.
Proof.
  induction load_zones as [|z rest IH]; intros H; cbn [weighted_zones_of List.filter].
  - exists []. split; [reflexivity | constructor].
  - apply Forall_cons in H as [Hz Hrest].
    destruct (IH Hrest) as (wz & Hwz & Hall).
    destruct (3 <=? length (Vertices z))%nat eqn:H3.
    + apply Nat.leb_le in H3.
      destruct (Hz H3) as [g Hg]. rewrite Hg, Hwz. cbn [bind].
      eexists. split; [reflexivity|]. constructor; [|exact Hall].
      simpl. split; [exact Hg|]. unfold unit_load.
      destruct (UnitLoad z); [reflexivity|].
      split; intros ->; reflexivity.
    + exists wz. split; [exact Hwz | exact Hall].
Qed.

(** *** The builder *)

Lemma builder_raises vor radius :
  Np.shape1 (vor_points vor) <> 2%nat ->
  voronoi_finite_polygons_2d vor radius = Raise (ValueError "Requires 2D input").
Proof.
  intros H. unfold voronoi_finite_polygons_2d.
  apply Nat.eqb_neq in H. now rewrite H.
Qed.

Lemma builder_returns vor radius :
  Np.shape1 (vor_points vor) = 2%nat ->
  exists regions vertices, voronoi_finite_polygons_2d vor radius = Ok (regions, vertices).
Proof.
  intros H. unfold voronoi_finite_polygons_2d.
  apply Nat.eqb_eq in H. rewrite H. simpl.
  destruct (fold_left _ _ _) as [regions vertices]. now exists regions, vertices.
Qed.

End EngineFacts.

End VoronoiFacts.

(** ** The main outline ([LTD_floor4.py]) *)

Module FloorFacts.
Import Py Floor4 PyFacts.

Section OutlineFacts.
Context {shapely : Shapely}.

Lemma max_by_area_from (ps : list geom) : forall best,
  In (max_by_area best ps) (best :: ps)
  /\ area best <= area (max_by_area best ps)
  /\ Forall (fun q => area q <= area (max_by_area best ps)) ps.
Proof.
  unfold max_by_area.
  induction ps as [|q ps IH]; intros best; simpl.
  - split; [now left|]. split; [apply Qle_refl | constructor].
  - set (best' := if Qle_bool (area q) (area best) then best else q).
    destruct (IH best') as (Hin & Hle & Hall).
    assert (Hb : area best <= area best' /\ area q <= area best').
    { unfold best'. destruct (Qle_bool (area q) (area best)) eqn:E.
      - apply Qle_bool_iff in E. split; [apply Qle_refl | exact E].
      - apply Qle_bool_false in E. split; [now apply Qlt_le_weak | apply Qle_refl]. }
    split; [|split].
    + destruct Hin as [Hin|Hin]; [|now right; right].
      rewrite <- Hin. unfold best'.
      destruct (Qle_bool (area q) (area best)); [now left | now right; left].
    + eapply Qle_trans; [apply Hb | exact Hle].
    + constructor; [eapply Qle_trans; [apply Hb | exact Hle] | exact Hall].
Qed.

(** C8: when the union of the polygons of a level group gives polygons,
    the outline kept is the exterior of one of them, one of largest area,
    and nothing else is kept; with two parts of areas 10 and 3, in either
    order, it is the part of area 10. *)
Theorem largest_polygon_is_kept (all_polygons : list geom) :
  all_polygons <> [] ->
  merged_polys all_polygons <> [] ->
  exists p,
    main_outline all_polygons = Some (exterior p)
    /\ In p (merged_polys all_polygons)
    /\ Forall (fun q => area q <= area p) (merged_polys all_polygons)
    /\ (forall a b,
          merged_polys all_polygons = [a; b] \/ merged_polys all_polygons = [b; a] ->
          area a == 10 -> area b == 3 -> p = a).
Proof.
  intros Hall Hm. unfold main_outline.
  destruct all_polygons as [|g0 gs]; [congruence|].
  destruct (merged_polys (g0 :: gs)) as [|p ps] eqn:E; [congruence|].
  destruct (max_by_area_from ps p) as (Hin & Hle & Hmax).
  exists (max_by_area p ps). split; [reflexivity|]. split; [exact Hin|].
  split; [now constructor|].
  intros a b [[= -> ->]|[= -> ->]] Ha Hb; unfold max_by_area; simpl.
  - assert (Hq : Qle_bool (area b) (area a) = true)
      by (apply Qle_bool_iff; rewrite Ha, Hb; discriminate).
    now rewrite Hq.
  - assert (Hq : Qle_bool (area a) (area b) = false)
      by (apply Qle_bool_false; rewrite Ha, Hb; reflexivity).
    now rewrite Hq.
Qed.

End OutlineFacts.

Lemma largest_polygon_is_kept_witness :
  main_outline (shapely := Exact.exact_shapely) [Scenario.ring3; Scenario.ring10]
  = Some [(10, 0); (15, 0); (15, 2); (10, 2); (10, 0)]
  /\ Exact.exact_area Scenario.ring10 == 10 /\ Exact.exact_area Scenario.ring3 == 3.
Proof.
  destruct (largest_polygon_is_kept (shapely := Exact.exact_shapely)
              [Scenario.ring3; Scenario.ring10])
    as (p & Hout & _ & _ & Hp).
  - discriminate.
  - vm_compute. discriminate.
  - rewrite Hout, (Hp Scenario.ring10 Scenario.ring3).
    + repeat split; reflexivity.
    + right. vm_compute. reflexivity.
    + reflexivity.
    + reflexivity.
Defined.

End FloorFacts.

(** ** The engine on the example floors *)

Module ExactFacts.
Import Py Voronoi5 Exact VoronoiFacts.

(** The vertex of the three-site diagram is at the same distance from the
    three sites. *)
Lemma circumcentre_equidistant (a b c : Q * Q) :
  ~ cross a b c == 0 ->
  let o := circumcentre a b c in
  Np.dot (Np.sub a o) (Np.sub a o) == Np.dot (Np.sub b o) (Np.sub b o)
  /\ Np.dot (Np.sub a o) (Np.sub a o) == Np.dot (Np.sub c o) (Np.sub c o).
Proof.
  destruct a as [ax ay], b as [bx by_], c as [cx cy].
  unfold circumcentre, cross, Np.dot, Np.sub. simpl. intros H.
  rewrite !Qred_correct. split; field; intros H'; apply H; rewrite <- H'; ring.
Qed.

Lemma empty_shape_has_no_area (g : shape) : exact_is_empty g = true -> exact_area g == 0.
Proof. destruct g as [[|v r]|[|part parts]|]; try discriminate; reflexivity. Qed.



Lemma weighted_area_bound_witness :
  Forall (fun c => area_weighted c
                   <= area_raw c * Spec.max_weight [Scenario.hall_zone (3 # 2)])
         Scenario.hall_cells
  /\ Py.sum (map area_weighted Scenario.hall_cells) == 576 # 5.
Proof.
  assert (E : compute_weighted_voronoi voronoi3 Scenario.hall Scenario.sites
                [Scenario.hall_zone (3 # 2)]
              = Ok (Scenario.hall_cells, Ring Scenario.hall))
    by (vm_compute; reflexivity).
  split; [|vm_compute; reflexivity].
  apply List.Forall_forall. intros c Hin.
  refine (proj2 (proj2 (weighted_area_bound (shapely := exact_shapely) voronoi3
                          Scenario.hall Scenario.sites
                          [Scenario.hall_zone (3 # 2)] _ _ c E Hin)) _ _ _).
  - vm_compute. discriminate.
  - destruct Hin as [<-|[<-|[<-|[]]]]; repeat constructor; vm_compute; discriminate.
  - destruct Hin as [<-|[<-|[<-|[]]]]; vm_compute; discriminate.
Defined.

(** C5 as stated fails: two zones of weight 1 laid over the whole slab
    give the first cell a weighted area of 6 for a raw area of 3. *)
Lemma overlapping_zones_exceed_the_bound :
  compute_weighted_voronoi voronoi3 Scenario.slab Scenario.sites
    [Scenario.covering 1; Scenario.covering 1]
  = Ok (Scenario.doubled_cells, Ring Scenario.slab)
  /\ map area_raw Scenario.doubled_cells = [3; 165 # 32; 123 # 32]
  /\ map area_weighted Scenario.doubled_cells = [6; 10560 # 1024; 7872 # 1024]
  /\ Spec.max_weight [Scenario.covering 1; Scenario.covering 1] == 1
  /\ Forall (fun c =>
               ~ area_weighted c
                 <= area_raw c
                    * Spec.max_weight [Scenario.covering 1; Scenario.covering 1])
            Scenario.doubled_cells.
Proof.
  split; [vm_compute; reflexivity|].
  split; [reflexivity|]. split; [reflexivity|]. split; [reflexivity|].
  repeat constructor; vm_compute; intros H; now apply H.
Qed.

(** C6, as amended: on the unit square with the two supports at
    (0.25, 0.5) and (0.75, 0.5) the engine returns no cells, whatever the
    zones: two sites are fewer than the three the engine asks for. *)
Theorem two_sites_give_no_cells (Voronoi : list (Q * Q) -> result Vor)
    (weighted_zones : list (zone geom)) :
  compute_weighted_voronoi Voronoi Scenario.unit_square Scenario.two_sites weighted_zones
  = Ok ([], Ring Scenario.unit_square).
Proof.
  apply (compute_few_sites (shapely := exact_shapely) Voronoi Scenario.unit_square
           Scenario.two_sites weighted_zones (Ring Scenario.unit_square));
    [simpl; lia | reflexivity].
Qed.

(** C6 as stated fails: the engine does not return two cells of area 0.5. *)
Lemma unit_square_is_not_split :
  compute_weighted_voronoi voronoi3 Scenario.unit_square Scenario.two_sites
    [Scenario.unit_zone] = Ok ([], Ring Scenario.unit_square)
  /\ ~ (exists c1 c2 bp,
          compute_weighted_voronoi voronoi3 Scenario.unit_square Scenario.two_sites
            [Scenario.unit_zone] = Ok ([c1; c2], bp)
          /\ area_raw c1 == 1 # 2 /\ area_raw c2 == 1 # 2
          /\ area_weighted c1 == 1 # 2 /\ area_weighted c2 == 1 # 2).
Proof.
  split; [reflexivity|].
  intros (c1 & c2 & bp & H & _). vm_compute in H. discriminate H.
Qed.

Lemma sites_on_a_line_raise_witness :
  compute_weighted_voronoi voronoi3 Scenario.slab Scenario.on_a_line [] = Raise QhullError
  /\ compute_weighted_voronoi voronoi3 Scenario.slab Scenario.two_sites []
     = Ok ([], Ring Scenario.slab).
Proof.
  destruct (sites_on_a_line_raise (shapely := exact_shapely) voronoi3 Scenario.slab []
              (Ring Scenario.slab) eq_refl eq_refl) as [Hfew Hline].
  split; [exact Hline|]. apply Hfew. simpl. lia.
Defined.

Lemma zone_default_weights_witness :
  exists wz,
    weighted_zones_of "Imposed Loading"
      [ {| Vertices := Scenario.slab; UnitLoad := None |};
        {| Vertices := Scenario.slab; UnitLoad := Some 5 |};
        {| Vertices := [(0, 0); (1, 1)]; UnitLoad := None |} ] = Ok wz
    /\ map weight wz = [8 # 10; 5].
Proof.
  destruct (zone_default_weights (shapely := exact_shapely) "Imposed Loading"
              [ {| Vertices := Scenario.slab; UnitLoad := None |};
                {| Vertices := Scenario.slab; UnitLoad := Some 5 |};
                {| Vertices := [(0, 0); (1, 1)]; UnitLoad := None |} ])
    as (wz & Hwz & Hall).
  - repeat constructor; simpl; intros H; try lia; eexists; reflexivity.
  - exists wz. split; [exact Hwz|].
    simpl in Hall.
    inversion Hall as [|z1 w1 l1 l1' H1 Hall1]; subst.
    inversion Hall1 as [|z2 w2 l2 l2' H2 Hall2]; subst.
    inversion Hall2; subst. simpl in *.
    destruct H1 as [_ [_ H1]]. destruct H2 as [_ H2].
    now rewrite (H1 eq_refl), H2.
Defined.

End ExactFacts.

(** ** More on the aggregator ([LTD_summary.py]) *)

Module SummaryExtra.
Import Py Summary PyFacts SummaryFacts.

(** *** Group names *)

Lemma format_03d_decode (n : nat) :
  option_map Nat.of_uint (NilEmpty.uint_of_string (format_03d n)) = Some n.
Proof.
  unfold format_03d.
  pose proof (NilEmpty.usu (Nat.to_uint n)) as Hs.
  pose proof (DecimalNat.Unsigned.of_to n) as Hn.
  set (s := NilEmpty.string_of_uint (Nat.to_uint n)) in *.
  assert (H0 : option_map Nat.of_uint (NilEmpty.uint_of_string s) = Some n)
    by (rewrite Hs; simpl; now f_equal).
  assert (H1 : option_map Nat.of_uint (NilEmpty.uint_of_string (String "0" s)) = Some n).
  { change (NilEmpty.uint_of_string (String "0" s))
      with (uint_of_char "0" (NilEmpty.uint_of_string s)).
    rewrite Hs. cbn [uint_of_char option_map]. f_equal.
    rewrite <- Hn at 2. apply DecimalNat.Unsigned.of_iff. reflexivity. }
  assert (H2 : option_map Nat.of_uint
                 (NilEmpty.uint_of_string (String "0" (String "0" s))) = Some n).
  { change (NilEmpty.uint_of_string (String "0" (String "0" s)))
      with (uint_of_char "0" (uint_of_char "0" (NilEmpty.uint_of_string s))).
    rewrite Hs. cbn [uint_of_char option_map]. f_equal.
    rewrite <- Hn at 2. apply DecimalNat.Unsigned.of_iff. reflexivity. }
  destruct (String.length s) as [|[|[|k]]]; assumption.
Qed.

Lemma format_03d_inj (n m : nat) : format_03d n = format_03d m -> n = m.
Proof.
  intros H. pose proof (format_03d_decode n) as Hn.
  rewrite H, format_03d_decode in Hn. now injection Hn.
Qed.

Lemma ids_alter (p : point) (i : nat) (gs : list group) :
  map id (alter (append_point p) i gs) = map id gs.
Proof.
  revert i. induction gs as [|g gs IH]; intros [|i]; simpl; try reflexivity.
  f_equal. apply IH.
Qed.

Lemma place_ids r floor (gs : list group) (n : nat) col :
  n = S (length gs) ->
  map id gs = map (fun k => "C" ++ format_03d (S k))%string (seq 0 (length gs)) ->
  snd (place r floor (gs, n) col) = S (length (fst (place r floor (gs, n) col)))
  /\ map id (fst (place r floor (gs, n) col))
     = map (fun k => "C" ++ format_03d (S k))%string
           (seq 0 (length (fst (place r floor (gs, n) col)))).
Proof.
  intros Hn Hid. unfold place.
  destruct (list_find _ gs) as [[i g]|]; cbn [fst snd].
  - rewrite length_alter, ids_alter. auto.
  - rewrite length_app, Nat.add_1_r, seq_S, !map_app, <- Hid, Hn. simpl. auto.
Qed.

Lemma place_fold_ids r floor cols : forall (gs : list group) (n : nat),
  n = S (length gs) ->
  map id gs = map (fun k => "C" ++ format_03d (S k))%string (seq 0 (length gs)) ->
  snd (fold_left (place r floor) cols (gs, n))
  = S (length (fst (fold_left (place r floor) cols (gs, n))))
  /\ map id (fst (fold_left (place r floor) cols (gs, n)))
     = map (fun k => "C" ++ format_03d (S k))%string
           (seq 0 (length (fst (fold_left (place r floor) cols (gs, n))))).
Proof.
  induction cols as [|col cols IH]; intros gs n Hn Hid; cbn [fold_left].
  - auto.
  - destruct (place_ids r floor gs n col Hn Hid) as [Hn' Hid'].
    destruct (place r floor (gs, n) col) as [gs' n']. cbn [fst snd] in *.
    now apply IH.
Qed.

Lemma floors_fold_ids r data floors : forall (gs : list group) (n : nat),
  n = S (length gs) ->
  map id gs = map (fun k => "C" ++ format_03d (S k))%string (seq 0 (length gs)) ->
  map id (fst (fold_left (place_floor r data) floors (gs, n)))
  = map (fun k => "C" ++ format_03d (S k))%string
        (seq 0 (length (fst (fold_left (place_floor r data) floors (gs, n))))).
Proof.
  induction floors as [|floor floors IH]; intros gs n Hn Hid; cbn [fold_left].
  - exact Hid.
  - destruct (place_fold_ids r floor (floors_data data floor) gs n Hn Hid) as [Hn' Hid'].
    change (place_floor r data (gs, n) floor)
      with (fold_left (place r floor) (floors_data data floor) (gs, n)).
    destruct (fold_left (place r floor) (floors_data data floor) (gs, n)) as [gs' n'].
    cbn [fst snd] in *. now apply IH.
Qed.

(** X1: the groups are named C001, C002, ... in the order in which they
    are created (the number is written with at least three digits), and
    no two groups have the same name. *)
Theorem group_ids_are_sequential (data : data_json) (r : Q) :
  map id (group_by_proximity data r)
  = map (fun k => "C" ++ format_03d (S k))%string
        (seq 0 (length (group_by_proximity data r)))
  /\ NoDup (map id (group_by_proximity data r)).
Proof.
  assert (H : map id (group_by_proximity data r)
              = map (fun k => "C" ++ format_03d (S k))%string
                    (seq 0 (length (group_by_proximity data r))))
    by (apply floors_fold_ids; reflexivity).
  split; [exact H|]. rewrite H.
  apply NoDup_fmap_2; [|apply NoDup_ListNoDup, seq_NoDup].
  intros a b E. injection E as E. apply format_03d_inj in E. lia.
Qed.

(** *** What every group satisfies *)

Lemma StronglySorted_sublist {A} (R : A -> A -> Prop) (l k : list A) :
  sublist l k -> StronglySorted R k -> StronglySorted R l.
Proof.
  induction 1 as [|x l k Hsub IH|x l k Hsub IH]; intros Hs.
  - constructor.
  - apply StronglySorted_inv in Hs as [Hs Hx].
    constructor; [now apply IH|].
    rewrite Forall_forall in Hx |- *. intros y Hy.
    apply Hx. eapply sublist_subseteq; eauto.
  - apply StronglySorted_inv in Hs as [Hs _]. now apply IH.
Qed.

Lemma first_match_sublist r floor col gs gs' (before : list point) :
  Spec.first_match r floor col gs gs' ->
  Forall (fun g => sublist (points g) before) gs ->
  Forall (fun g => sublist (points g) (before ++ [make_point floor col])) gs'.
Proof.
  intros [i g Hi _ _ | name _] Hall.
  - apply Forall_insert.
    + eapply Forall_impl; [exact Hall|]. intros g' Hg'. now apply sublist_inserts_r.
    + cbn [points]. apply sublist_app; [|reflexivity].
      exact (proj1 (Forall_lookup _ _) Hall _ _ Hi).
  - apply Forall_app. split.
    + eapply Forall_impl; [exact Hall|]. intros g' Hg'. now apply sublist_inserts_r.
    + constructor; [|constructor]. cbn [points]. now apply sublist_inserts_l.
Qed.

Lemma run_sublist r visits : forall gs gs' (before : list point),
  Spec.run r visits gs gs' ->
  Forall (fun g => sublist (points g) before) gs ->
  Forall (fun g => sublist (points g)
                     (before ++ map (fun fc => make_point (fst fc) (snd fc)) visits)) gs'.
Proof.
  induction visits as [|[floor col] rest IH]; intros gs gs' before Hrun Hall;
    inversion Hrun; subst; simpl.
  - now rewrite app_nil_r.
  - rewrite (cons_middle _ before), app_assoc.
    eapply IH; [eassumption|].
    eapply first_match_sublist; eauto.
Qed.

Lemma visits_sorted (data : data_json) :
  StronglySorted (fun a b : point => (floor_sort_key (p0 b) <= floor_sort_key (p0 a))%Z)
                 (map (fun fc => make_point (fst fc) (snd fc)) (Spec.visits data)).
Proof.
  unfold Spec.visits, ordered_floors.
  pose proof (sorted_reverse_sorted floor_sort_key (map fst data)) as Hs.
  induction Hs as [|floor floors Hs IH Hfl]; simpl; [constructor|].
  rewrite map_app. apply StronglySorted_app_2; [| |exact IH].
  - intros a b Ha Hb.
    apply list_elem_of_In, in_map_iff in Ha as ([fa ca] & <- & Ha).
    apply in_map_iff in Ha as (c & [= <- <-] & _).
    apply list_elem_of_In, in_map_iff in Hb as ([fb cb] & <- & Hb).
    apply in_flat_map in Hb as (f' & Hf' & Hb).
    apply in_map_iff in Hb as (c' & [= <- <-] & _).
    simpl. rewrite List.Forall_forall in Hfl. now apply Hfl.
  - induction (floors_data data floor) as [|c cs IHc]; simpl; constructor; [exact IHc|].
    apply List.Forall_forall. intros b Hb.
    apply in_map_iff in Hb as ([fb cb] & <- & Hb).
    apply in_map_iff in Hb as (c' & [= <- <-] & _). simpl. lia.
Qed.

(** X3: in every group the floors run in processing order: along the
    points of a group the floor sort key never increases. *)
Theorem group_floors_in_processing_order (data : data_json) (r : Q) (g : group) :
  In g (group_by_proximity data r) ->
  StronglySorted (fun a b : point => (floor_sort_key (p0 b) <= floor_sort_key (p0 a))%Z)
                 (points g).
Proof.
  intros Hg.
  pose proof (run_sublist r _ _ _ [] (group_by_proximity_run data r) (List.Forall_nil _)) as H.
  rewrite List.Forall_forall in H. specialize (H g Hg). simpl in H.
  eapply StronglySorted_sublist; [exact H | apply visits_sorted].
Qed.

Lemma group_floors_in_processing_order_witness :
  StronglySorted (fun a b : point => (floor_sort_key (p0 b) <= floor_sort_key (p0 a))%Z)
    [ {| p0 := "02"; p1 := 0; p2 := 0; p3 := 9; p4 := 5; p5 := "Column" |};
      {| p0 := "01"; p1 := 3 # 10; p2 := 3 # 10; p3 := 9; p4 := 7; p5 := "Column" |} ].
Proof.
  refine (group_floors_in_processing_order Scenario.two_floors default_match_radius
            {| id := "C001";
               points := [ {| p0 := "02"; p1 := 0; p2 := 0; p3 := 9; p4 := 5;
                              p5 := "Column" |};
                           {| p0 := "01"; p1 := 3 # 10; p2 := 3 # 10; p3 := 9; p4 := 7;
                              p5 := "Column" |} ] |} _).
  vm_compute. left. reflexivity.
Defined.

Lemma run_without_match r visits : forall gs gs',
  r < 0 ->
  Spec.run r visits gs gs' ->
  map points gs' = map points gs ++ map (fun fc => [make_point (fst fc) (snd fc)]) visits.
Proof.
  induction visits as [|[floor col] rest IH]; intros gs gs' Hr Hrun;
    inversion Hrun as [|? ? ? ? gs1 ? Hstep Hrest]; subst; simpl.
  - now rewrite app_nil_r.
  - rewrite (IH _ _ Hr Hrest).
    destruct Hstep as [i g Hi (q & _ & Hw) _ | name _].
    + exfalso. apply dist_le_euclid in Hw. unfold dist_le in Hw.
      apply andb_true_iff in Hw as [Hw _]. apply Qle_bool_iff in Hw.
      exact (Qlt_not_le _ _ Hr Hw).
    + rewrite map_app, <- app_assoc. reflexivity.
Qed.

(** X7: with a negative match radius nothing ever matches: every entry
    seeds a group of its own, in the order of the visit. *)
Theorem negative_radius_never_groups (data : data_json) (r : Q) :
  r < 0 ->
  map points (group_by_proximity data r)
  = map (fun fc => [make_point (fst fc) (snd fc)]) (Spec.visits data).
Proof.
  intros Hr. exact (run_without_match r _ _ _ Hr (group_by_proximity_run data r)).
Qed.

Lemma negative_radius_never_groups_witness :
  length (group_by_proximity Scenario.two_floors (-1)) = 2%nat.
Proof.
  rewrite <- (length_map points),
    (negative_radius_never_groups Scenario.two_floors (-1) eq_refl).
  reflexivity.
Defined.

(** *** The rows of a group *)

Lemma fromkeys_In (l : list string) (x : string) : In x (fromkeys l) <-> In x l.
Proof.
  induction l as [|y l IH]; simpl; [tauto|].
  rewrite filter_In, IH. split.
  - intros [H|[H _]]; auto.
  - intros [H|H]; [now left|].
    destruct (String.eqb_spec x y) as [->|Hne]; [now left|].
    right. split; [exact H | reflexivity].
Qed.

Lemma fromkeys_NoDup (l : list string) : List.NoDup (fromkeys l).
Proof.
  induction l as [|y l IH]; simpl; constructor.
  - rewrite filter_In. intros [_ H]. now rewrite String.eqb_refl in H.
  - now apply List.NoDup_filter.
Qed.

Lemma map_Floor_imap (f : nat -> string -> row) (l : list string) :
  (forall i x, Floor (f i x) = x) -> map Floor (imap f l) = l.
Proof.
  revert f. induction l as [|x l IH]; intros f Hf; simpl; [reflexivity|].
  rewrite Hf. f_equal. apply IH. intros i y. apply Hf.
Qed.

(** X4: a group gives exactly one row per distinct floor among its
    points, in the order in which the floors first appear. *)
Theorem one_row_per_floor (g : group) :
  map Floor (group_rows g) = fromkeys (map p0 (points g))
  /\ List.NoDup (map Floor (group_rows g))
  /\ (forall floor, In floor (map Floor (group_rows g)) <-> In floor (map p0 (points g))).
Proof.
  assert (H : map Floor (group_rows g) = fromkeys (map p0 (points g)))
    by (unfold group_rows; apply map_Floor_imap; reflexivity).
  rewrite H. split; [reflexivity|]. split; [apply fromkeys_NoDup|].
  intros floor. apply fromkeys_In.
Qed.

(** *** Groups whose points come in pairs *)

Lemma fromkeys_pairs (prs : list (point * point)) :
  Forall (fun ab => p0 (snd ab) = p0 (fst ab)) prs ->
  List.NoDup (map (fun ab => p0 (fst ab)) prs) ->
  fromkeys (map p0 (flat_map (fun ab => [fst ab; snd ab]) prs))
  = map (fun ab => p0 (fst ab)) prs.
Proof.
  induction prs as [|[a b] prs IH]; intros Hsame Hnd; simpl; [reflexivity|].
  apply Forall_cons in Hsame as [Hab Hsame]. simpl in Hab.
  apply List.NoDup_cons_iff in Hnd as [Hnotin Hnd].
  rewrite Hab, (IH Hsame Hnd). f_equal. simpl.
  rewrite String.eqb_refl. simpl.
  assert (Hf : forall l, ~ In (p0 a) l ->
             List.filter (fun y => negb (String.eqb y (p0 a))) l = l).
  { clear. induction l as [|y l IHl]; intros Hn; simpl; [reflexivity|].
    destruct (String.eqb_spec y (p0 a)) as [->|Hne]; simpl.
    - exfalso. apply Hn. now left.
    - f_equal. apply IHl. intros H. apply Hn. now right. }
  assert (Hn : ~ In (p0 a) (map (fun ab : point * point => p0 (fst ab)) prs))
    by exact Hnotin.
  now rewrite (Hf _ Hn), (Hf _ Hn).
Qed.

Lemma lookup_pairs {A} (f : point -> A) (prs : list (point * point)) (i : nat) a b :
  prs !! i = Some (a, b) ->
  map f (flat_map (fun ab => [fst ab; snd ab]) prs) !! (2 * i)%nat = Some (f a)
  /\ map f (flat_map (fun ab => [fst ab; snd ab]) prs) !! (2 * i + 1)%nat = Some (f b).
Proof.
  revert i. induction prs as [|[a' b'] prs IH]; intros [|i] H; try discriminate.
  - injection H as -> ->. split; reflexivity.
  - replace (2 * S i)%nat with (S (S (2 * i))) by lia. simpl. now apply IH.
Qed.

Lemma find_in_pairs (prs : list (point * point)) (i : nat) a b :
  Forall (fun ab => p0 (snd ab) = p0 (fst ab)) prs ->
  List.NoDup (map (fun ab => p0 (fst ab)) prs) ->
  prs !! i = Some (a, b) ->
  find (fun p => String.eqb (p0 p) (p0 a)) (flat_map (fun ab => [fst ab; snd ab]) prs)
  = Some a.
Proof.
  revert i. induction prs as [|[a' b'] prs IH]; intros [|i] Hsame Hnd H; try discriminate.
  - injection H as -> ->. simpl. now rewrite String.eqb_refl.
  - apply Forall_cons in Hsame as [Hab Hsame]. simpl in Hab.
    apply List.NoDup_cons_iff in Hnd as [Hnotin Hnd]. simpl in *.
    assert (Hne : p0 a' <> p0 a).
    { intros E. apply Hnotin. rewrite E.
      apply (in_map (fun ab => p0 (fst ab)) prs (a, b)).
      apply list_elem_of_In. eapply list_elem_of_lookup_2; eauto. }
    rewrite Hab. apply String.eqb_neq in Hne. rewrite Hne.
    eapply IH; eauto.
Qed.

(** X6: when the points of a group come floor by floor as a permanent
    entry followed by an imposed entry, each floor once, the row of the
    [i]-th floor reports that floor with its own two weighted areas, and the
    area and type of its permanent entry. *)
Theorem paired_rows_are_aligned (g : group) (prs : list (point * point))
    (i : nat) (a b : point) :
  points g = flat_map (fun ab => [fst ab; snd ab]) prs ->
  Forall (fun ab => p0 (snd ab) = p0 (fst ab)) prs ->
  List.NoDup (map (fun ab => p0 (fst ab)) prs) ->
  prs !! i = Some (a, b) ->
  exists row,
    group_rows g !! i = Some row
    /\ Floor row = p0 a
    /\ Permanent_Load row = load_cell (Some (p4 a))
    /\ Imposed_Load row = load_cell (Some (p4 b))
    /\ Area_m2 row = round (p3 a) 2
    /\ r_Type row = p5 a.
Proof.
  intros Hpts Hsame Hnd Hi.
  assert (Hfloor : fromkeys (map p0 (points g)) !! i = Some (p0 a)).
  { rewrite Hpts, (fromkeys_pairs prs Hsame Hnd).
    change map with (@fmap list _). now rewrite list_lookup_fmap, Hi. }
  unfold group_rows. rewrite list_lookup_imap, Hfloor. cbn [fmap option_fmap option_map].
  eexists. split; [reflexivity|].
  cbn [group_row Floor Permanent_Load Imposed_Load Area_m2 r_Type].
  rewrite !pair_item_weighted_pairs by lia.
  destruct (lookup_pairs p4 prs i a b Hi) as [H0 H1].
  rewrite Nat.add_0_r, Hpts, H0, H1.
  unfold first_on_floor. rewrite Hpts, (find_in_pairs prs i a b Hsame Hnd Hi).
  repeat split.
Qed.

Lemma paired_rows_are_aligned_witness :
  exists row,
    group_rows Scenario.zero_load_group !! 0%nat = Some row
    /\ Floor row = "01"%string
    /\ Permanent_Load row = PyNone
    /\ Imposed_Load row = Num (round (5 # 2) 2).
Proof.
  destruct (paired_rows_are_aligned Scenario.zero_load_group
              [( {| p0 := "01"; p1 := 0; p2 := 0; p3 := 4; p4 := 0; p5 := "Column" |},
                 {| p0 := "01"; p1 := 0; p2 := 0; p3 := 4; p4 := 5 # 2; p5 := "Column" |} )]
              0
              {| p0 := "01"; p1 := 0; p2 := 0; p3 := 4; p4 := 0; p5 := "Column" |}
              {| p0 := "01"; p1 := 0; p2 := 0; p3 := 4; p4 := 5 # 2; p5 := "Column" |})
    as (row & Hrow & Hf & Hp & Hi & _).
  - reflexivity.
  - repeat constructor.
  - repeat constructor. intros [].
  - reflexivity.
  - exists row. auto.
Defined.

End SummaryExtra.

(** ** The aggregator on the interpreter's floats ([LTD_summary.py]) *)

Module Summary64Facts.
Import Py Summary PyFacts SummaryFacts.

(** Where [round] and [sum] do not round, the rows of [Summary64] are
    those of [Summary]. *)
Lemma exact_rows (g : group) :
  Summary64.group_rows (float := Exact.floats) g = group_rows g.
Proof. reflexivity. Qed.

Section FloatFacts.
Context {float : Float64.Ops}.

(** *** The grouping loop *)

Lemma in_radius_iff_reaches r col (g : group) :
  points g <> [] ->
  Summary64.in_radius r (col_X col) (col_Y col) g <-> Spec64.reaches r col g.
Proof.
  intros Hne. unfold Summary64.in_radius, last_xy, Spec64.reaches.
  assert (Hlast : exists l p0, points g = l ++ [p0]).
  { destruct (points g) as [|p0 l _] using rev_ind; [congruence | eauto]. }
  destruct Hlast as (l & p0 & E). rewrite E.
  rewrite last_snoc, Qle_bool_iff. split.
  - intros H. exists p0. split; [|exact H]. exists l. exact E.
  - intros (q & Hq & H).
    assert (q = p0) as -> by (apply (last_position_unique g); [exact Hq | now exists l]).
    exact H.
Qed.

Lemma place_is_first_match r floor (gs : list group) (n : nat) col :
  Forall (fun g => points g <> []) gs ->
  Spec64.first_match r floor col gs (fst (Summary64.place r floor (gs, n) col))
  /\ Forall (fun g => points g <> []) (fst (Summary64.place r floor (gs, n) col)).
Proof.
  intros Hne. unfold Summary64.place.
  destruct (list_find _ gs) as [[i g]|] eqn:E; simpl.
  - apply list_find_Some in E as (Hi & Hin & Hfirst).
    rewrite (alter_as_insert _ _ _ _ Hi). split.
    + apply Spec64.joins; [exact Hi| |].
      * apply in_radius_iff_reaches; [|exact Hin].
        exact (proj1 (Forall_lookup _ _) Hne _ _ Hi).
      * intros j g' Hj Hg' Hr. apply (Hfirst j g' Hg' Hj).
        apply in_radius_iff_reaches; [|exact Hr].
        exact (proj1 (Forall_lookup _ _) Hne _ _ Hg').
    + apply Forall_insert; [exact Hne|]. simpl. now destruct (points g).
  - apply list_find_None in E. split.
    + apply Spec64.seeds. intros g Hg Hr.
      rewrite Forall_forall in E, Hne.
      apply (E g Hg). apply in_radius_iff_reaches; [now apply Hne | exact Hr].
    + apply Forall_app. split; [exact Hne|]. now repeat constructor.
Qed.

Lemma run_concat r l1 l2 a b c :
  Spec64.run r l1 a b -> Spec64.run r l2 b c -> Spec64.run r (l1 ++ l2) a c.
Proof.
  induction 1; intros H2; simpl; [exact H2|].
  econstructor; eauto.
Qed.

Lemma place_fold_is_run r floor cols : forall (gs : list group) (n : nat),
  Forall (fun g => points g <> []) gs ->
  Spec64.run r (map (pair floor) cols) gs
             (fst (fold_left (Summary64.place r floor) cols (gs, n)))
  /\ Forall (fun g => points g <> [])
            (fst (fold_left (Summary64.place r floor) cols (gs, n))).
Proof.
  induction cols as [|col cols IH]; intros gs n Hne; cbn [fold_left map].
  - split; [constructor | exact Hne].
  - destruct (place_is_first_match r floor gs n col Hne) as [Hstep Hne'].
    destruct (Summary64.place r floor (gs, n) col) as [gs' n']. cbn [fst] in *.
    destruct (IH gs' n' Hne') as [Hrun Hne''].
    split; [econstructor; eauto | exact Hne''].
Qed.

Lemma floors_fold_is_run r data floors : forall (gs : list group) (n : nat),
  Forall (fun g => points g <> []) gs ->
  Spec64.run r (flat_map (fun floor => map (pair floor) (floors_data data floor)) floors)
             gs (fst (fold_left (Summary64.place_floor r data) floors (gs, n)))
  /\ Forall (fun g => points g <> [])
            (fst (fold_left (Summary64.place_floor r data) floors (gs, n))).
Proof.
  induction floors as [|floor floors IH]; intros gs n Hne; cbn [fold_left flat_map].
  - split; [constructor | exact Hne].
  - destruct (place_fold_is_run r floor (floors_data data floor) gs n Hne) as [Hrun Hne'].
    change (Summary64.place_floor r data (gs, n) floor)
      with (fold_left (Summary64.place r floor) (floors_data data floor) (gs, n)).
    destruct (fold_left (Summary64.place r floor) (floors_data data floor) (gs, n))
      as [gs' n'].
    cbn [fst] in *. destruct (IH gs' n' Hne') as [Hrun' Hne''].
    split; [eapply run_concat; eauto | exact Hne''].
Qed.

Lemma group_by_proximity_is_run data r :
  Spec64.run r (Spec.visits data) [] (Summary64.group_by_proximity data r).
Proof. apply floors_fold_is_run. constructor. Qed.

(** The placement rule leaves no choice but the names of the groups. *)
Lemma reaches_by_points r col (g g' : group) :
  points g = points g' -> Spec64.reaches r col g -> Spec64.reaches r col g'.
Proof.
  intros E (q & [b Hq] & H). exists q. split; [|exact H].
  exists b. now rewrite <- E.
Qed.

Lemma first_match_fixes_points r floor col gs1 gs2 gs1' gs2' :
  map points gs1 = map points gs2 ->
  Spec64.first_match r floor col gs1 gs1' ->
  Spec64.first_match r floor col gs2 gs2' ->
  map points gs1' = map points gs2'.
Proof.
  intros E H1 H2.
  assert (Hsame : forall k a, gs1 !! k = Some a ->
            exists b, gs2 !! k = Some b /\ points a = points b).
  { intros k a Hk.
    assert (Hm : map points gs1 !! k = Some (points a)) by (now rewrite list_lookup_fmap, Hk).
    rewrite E, list_lookup_fmap in Hm.
    destruct (gs2 !! k) as [b|]; [|discriminate]. exists b. split; [reflexivity|].
    now injection Hm. }
  assert (Hsame' : forall k b, gs2 !! k = Some b ->
            exists a, gs1 !! k = Some a /\ points a = points b).
  { intros k b Hk.
    assert (Hm : map points gs2 !! k = Some (points b)) by (now rewrite list_lookup_fmap, Hk).
    rewrite <- E, list_lookup_fmap in Hm.
    destruct (gs1 !! k) as [a|]; [|discriminate]. exists a. split; [reflexivity|].
    now injection Hm. }
  destruct H1 as [i g Hi Hr Hmin | name Hnone];
    destruct H2 as [j h Hj Hr' Hmin' | name' Hnone'].
  - assert (i = j) as <-.
    { destruct (lt_eq_lt_dec i j) as [[Hlt|Heq]|Hgt]; [|exact Heq|]; exfalso.
      - destruct (Hsame i g Hi) as (b & Hb & Eb).
        apply (Hmin' i b Hlt Hb). now apply (reaches_by_points r col g).
      - destruct (Hsame' j h Hj) as (a & Ha & Ea).
        apply (Hmin j a Hgt Ha). now apply (reaches_by_points r col h). }
    destruct (Hsame i g Hi) as (b & Hb & Eb).
    assert (b = h) as -> by congruence.
    change map with (@fmap list _) in *.
    rewrite !list_fmap_insert. simpl. now rewrite E, Eb.
  - exfalso. destruct (Hsame i g Hi) as (b & Hb & Eb).
    apply (Hnone' b); [now apply list_elem_of_lookup_2 in Hb|].
    now apply (reaches_by_points r col g).
  - exfalso. destruct (Hsame' j h Hj) as (a & Ha & Ea).
    apply (Hnone a); [now apply list_elem_of_lookup_2 in Ha|].
    now apply (reaches_by_points r col h).
  - rewrite !map_app. simpl. now rewrite E.
Qed.

Lemma run_fixes_points r visits : forall gs1 gs2 gs1' gs2',
  map points gs1 = map points gs2 ->
  Spec64.run r visits gs1 gs1' -> Spec64.run r visits gs2 gs2' ->
  map points gs1' = map points gs2'.
Proof.
  induction visits as [|[floor col] rest IH]; intros gs1 gs2 gs1' gs2' E H1 H2;
    inversion H1; inversion H2; subst; [exact E|].
  eapply IH; [|eassumption|eassumption].
  eapply first_match_fixes_points; eauto.
Qed.

(** C3: the grouping is first-match with a drifting reference, for the
    distance as the interpreter measures it.  The default radius is 0.5;
    the entries are visited floor by floor in the processing order and in
    their original order within a floor; each one joins the first group (in
    creation order) for which [math.dist] from the entry to the last
    recorded position of the group is at most the radius, or seeds a new
    group when there is none; the joined entry is then the last position of
    its group.  The rule fixes the groups: any other run that obeys it
    builds the same lists of points.  This holds for every radius and
    whatever [math.dist] returns in floating point. *)
Theorem alignment_is_first_match (data : data_json) :
  default_match_radius == 1 # 2
  /\ (forall match_radius,
        Spec64.run match_radius (Spec.visits data) []
                   (Summary64.group_by_proximity data match_radius)
        /\ (forall groups,
              Spec64.run match_radius (Spec.visits data) [] groups ->
              map points groups
              = map points (Summary64.group_by_proximity data match_radius))).
Proof.
  split; [reflexivity|]. intros match_radius.
  split; [apply group_by_proximity_is_run|].
  intros groups H.
  eapply run_fixes_points; [reflexivity | exact H | apply group_by_proximity_is_run].
Qed.

(** *** Which entries are grouped *)

Lemma first_match_adds_the_point r floor col gs gs' :
  Spec64.first_match r floor col gs gs' ->
  Permutation (concat (map points gs'))
              (concat (map points gs) ++ [make_point floor col]).
Proof.
  intros [i g Hi _ _ | name _].
  - rewrite insert_take_drop by (eapply lookup_lt_Some; eauto).
    rewrite <- (take_drop_middle gs i g Hi) at 3.
    rewrite !map_app, !concat_app. simpl. solve_Permutation.
  - rewrite map_app, concat_app. simpl. rewrite ?app_nil_r. reflexivity.
Qed.

Lemma run_adds_the_points r visits gs gs' :
  Spec64.run r visits gs gs' ->
  Permutation (concat (map points gs'))
              (concat (map points gs)
               ++ map (fun fc => make_point (fst fc) (snd fc)) visits).
Proof.
  induction 1 as [gs | floor col rest gs gs1 gs2 Hstep Hrun IH]; simpl.
  - now rewrite app_nil_r.
  - rewrite IH, (first_match_adds_the_point _ _ _ _ _ Hstep), <- app_assoc. reflexivity.
Qed.

(** Every entry of the file is a point of some group, and its floor is one
    of the distinct floors of that group. *)
Lemma every_entry_has_a_floor (data : data_json) (match_radius : Q) floor col :
  In (floor, col) (Spec.visits data) ->
  exists g i,
    In g (Summary64.group_by_proximity data match_radius)
    /\ In (make_point floor col) (points g)
    /\ fromkeys (map p0 (points g)) !! i = Some floor.
Proof.
  intros Hin.
  pose proof (run_adds_the_points _ _ _ _ (group_by_proximity_is_run data match_radius))
    as Hperm.
  simpl in Hperm.
  assert (Hp : In (make_point floor col)
                  (concat (map points (Summary64.group_by_proximity data match_radius)))).
  { eapply Permutation_in; [symmetry; exact Hperm|].
    apply (in_map (fun fc => make_point (fst fc) (snd fc)) _ _ Hin). }
  apply in_concat in Hp as (pts & Hpts & Hp).
  apply in_map_iff in Hpts as (g & <- & Hg).
  assert (Hf : In floor (fromkeys (map p0 (points g)))).
  { apply SummaryExtra.fromkeys_In. exact (in_map p0 _ _ Hp). }
  apply list_elem_of_In, list_elem_of_lookup_1 in Hf as [i Hi].
  exists g, i. auto.
Qed.

(** *** What every group satisfies *)

Lemma first_match_keeps_chain r floor col gs gs' :
  Spec64.first_match r floor col gs gs' ->
  Forall (fun g => forall k a b, points g !! k = Some a -> points g !! S k = Some b ->
                   Float64.math_dist (p1 b, p2 b) (p1 a, p2 a) <= r) gs ->
  Forall (fun g => forall k a b, points g !! k = Some a -> points g !! S k = Some b ->
                   Float64.math_dist (p1 b, p2 b) (p1 a, p2 a) <= r) gs'.
Proof.
  intros [i g Hi (q & [before Hq] & Hw) _ | name _] Hall.
  - apply Forall_insert; [exact Hall|]. cbn [points].
    pose proof (proj1 (Forall_lookup _ _) Hall _ _ Hi) as Hg.
    intros k a b Ha Hb.
    destruct (decide (S k < length (points g))%nat) as [Hlt|Hge].
    + rewrite lookup_app_l in Ha by lia. rewrite lookup_app_l in Hb by lia.
      exact (Hg k a b Ha Hb).
    + assert (Hlen : length (points g) = S (length before))
        by (rewrite Hq, length_app; simpl; lia).
      assert (Hk : S k = length (points g)).
      { apply lookup_lt_Some in Hb. rewrite length_app in Hb. simpl in Hb. lia. }
      rewrite lookup_app_r in Hb by lia.
      rewrite Hk, Nat.sub_diag in Hb. injection Hb as <-.
      rewrite lookup_app_l in Ha by lia.
      rewrite Hq, lookup_app_r in Ha by lia.
      replace (k - length before)%nat with 0%nat in Ha by lia.
      injection Ha as <-. exact Hw.
  - apply Forall_app. split; [exact Hall|].
    constructor; [|constructor]. cbn [points].
    intros k a b _ Hb. destruct k; discriminate Hb.
Qed.

Lemma run_keeps_chain r visits gs gs' :
  Spec64.run r visits gs gs' ->
  Forall (fun g => forall k a b, points g !! k = Some a -> points g !! S k = Some b ->
                   Float64.math_dist (p1 b, p2 b) (p1 a, p2 a) <= r) gs ->
  Forall (fun g => forall k a b, points g !! k = Some a -> points g !! S k = Some b ->
                   Float64.math_dist (p1 b, p2 b) (p1 a, p2 a) <= r) gs'.
Proof.
  induction 1 as [gs | floor col rest gs gs1 gs2 Hstep Hrun IH]; intros H; [exact H|].
  apply IH. eapply first_match_keeps_chain; eauto.
Qed.

(** X2: in every group, each point passed the distance test of the loop
    against the point recorded just before it in that group: [math.dist]
    between the two is at most the match radius, as the interpreter
    computes it. *)
Theorem consecutive_points_within_radius (data : data_json) (r : Q)
    (g : group) (k : nat) (a b : point) :
  In g (Summary64.group_by_proximity data r) ->
  points g !! k = Some a ->
  points g !! S k = Some b ->
  Float64.math_dist (p1 b, p2 b) (p1 a, p2 a) <= r.
Proof.
  intros Hg Ha Hb.
  pose proof (run_keeps_chain _ _ _ _ (group_by_proximity_is_run data r)
                (List.Forall_nil _)) as H.
  rewrite List.Forall_forall in H. exact (H g Hg k a b Ha Hb).
Qed.

(** *** The report rows *)

Lemma rows_are_in_the_report (data : data_json) (match_radius : Q) (g : group) (r : row) :
  In g (Summary64.group_by_proximity data match_radius) ->
  In r (Summary64.group_rows g) ->
  In r (Summary64.group_columns_by_alignment data match_radius).
Proof.
  intros Hg Hr. unfold Summary64.group_columns_by_alignment.
  apply List.in_concat. exists (Summary64.group_rows g).
  split; [now apply List.in_map | exact Hr].
Qed.

(** The row written for the [i]-th distinct floor of a group. *)
Lemma row_of_floor (g : group) (i : nat) (floor : string) :
  fromkeys (map p0 (points g)) !! i = Some floor ->
  Summary64.group_rows g !! i
  = Some (Summary64.group_row g (weighted_pairs (map p4 (points g)))
            (Float64.round
               (Float64.sum (omap (fun pr => pr !! 0%nat)
                                  (weighted_pairs (map p4 (points g))))) 2)
            (Float64.round
               (Float64.sum (omap (fun pr => pr !! 1%nat)
                                  (weighted_pairs (map p4 (points g))))) 2)
            (Float64.round (Float64.sum (map p4 (points g))) 2)
            i floor).
Proof.
  intros H. unfold Summary64.group_rows. now rewrite list_lookup_imap, H.
Qed.

Lemma load_cell_zero_or_rounded (w : option Q) :
  match w with
  | None => Summary64.load_cell w = PyNone
  | Some v => (v == 0 -> Summary64.load_cell w = PyNone)
              /\ (~ v == 0 -> Summary64.load_cell w = Num (Float64.round v 2))
  end.
Proof.
  destruct w as [v|]; [|reflexivity]. unfold Summary64.load_cell, truthy.
  destruct (Qeq_bool v 0) eqn:E; simpl.
  - split; [reflexivity|]. intros H. apply Qeq_bool_iff in E. contradiction.
  - split; [|reflexivity]. intros H. apply Qeq_bool_iff in H. congruence.
Qed.

(** C10: every entry of the results file is a point of a group and its
    floor one of the distinct floors of that group; every group gives the
    report one row for each of its distinct floors, and the report has no
    other rows.  In the row of the [i]-th floor of a group the permanent
    load is read from the weighted area at position [2 i] of the group and
    the imposed load from position [2 i + 1].  A value that is exactly 0
    gives the cell [None], the same cell as when there is no value at that
    position; any other value gives the cell [round(value, 2)]. *)
Theorem zero_load_is_missing (data : data_json) (match_radius : Q) :
  (forall floor col,
     In (floor, col) (Spec.visits data) ->
     exists g i,
       In g (Summary64.group_by_proximity data match_radius)
       /\ In (make_point floor col) (points g)
       /\ fromkeys (map p0 (points g)) !! i = Some floor)
  /\ (forall g i floor,
        In g (Summary64.group_by_proximity data match_radius) ->
        fromkeys (map p0 (points g)) !! i = Some floor ->
        exists r,
          In r (Summary64.group_columns_by_alignment data match_radius)
          /\ Summary64.group_rows g !! i = Some r
          /\ Column_ID r = id g
          /\ Floor r = floor
          /\ (forall k c,
                (k = 0%nat /\ c = Permanent_Load r) \/ (k = 1%nat /\ c = Imposed_Load r) ->
                match Spec.paired_value g i k with
                | None => c = PyNone
                | Some v => (v == 0 -> c = PyNone)
                            /\ (~ v == 0 -> c = Num (Float64.round v 2))
                end))
  /\ (forall r,
        In r (Summary64.group_columns_by_alignment data match_radius) ->
        exists g i,
          In g (Summary64.group_by_proximity data match_radius)
          /\ fromkeys (map p0 (points g)) !! i = Some (Floor r)
          /\ Summary64.group_rows g !! i = Some r).
Proof.
  split; [intros floor col; apply every_entry_has_a_floor|]. split.
  - intros g i floor Hg Hfloor. pose proof (row_of_floor g i floor Hfloor) as Hrow.
    eexists. split; [|split; [exact Hrow|]].
    + apply (rows_are_in_the_report data match_radius g _ Hg).
      apply list_elem_of_In. eapply list_elem_of_lookup_2. exact Hrow.
    + split; [reflexivity|]. split; [reflexivity|].
      intros k c Hk. unfold Spec.paired_value.
      destruct Hk as [[-> ->]|[-> ->]];
        cbn [Summary64.group_row Permanent_Load Imposed_Load];
        rewrite pair_item_weighted_pairs by lia; apply load_cell_zero_or_rounded.
  - intros r Hr. unfold Summary64.group_columns_by_alignment in Hr.
    apply in_concat in Hr as (rows & Hrows & Hr).
    apply in_map_iff in Hrows as (g & <- & Hg).
    apply list_elem_of_In, list_elem_of_lookup_1 in Hr as [i Hi].
    exists g, i. split; [exact Hg|].
    pose proof Hi as Hi'. unfold Summary64.group_rows in Hi'.
    apply list_lookup_imap_Some in Hi' as (floor & Hfloor & ->).
    split; [exact Hfloor | exact Hi].
Qed.

Lemma loads_of_pairs (l : list Q) :
  forall j,
    omap (fun pr : list Q => pr !! 0%nat) (weighted_pairs l) !! j = l !! (2 * j)%nat
    /\ omap (fun pr : list Q => pr !! 1%nat) (weighted_pairs l) !! j
       = l !! (2 * j + 1)%nat.
Proof.
  enough (H : (forall j,
                 omap (fun pr : list Q => pr !! 0%nat) (weighted_pairs l) !! j
                 = l !! (2 * j)%nat
                 /\ omap (fun pr : list Q => pr !! 1%nat) (weighted_pairs l) !! j
                    = l !! (2 * j + 1)%nat)
              /\ (forall a j,
                    omap (fun pr : list Q => pr !! 0%nat) (weighted_pairs (a :: l)) !! j
                    = (a :: l) !! (2 * j)%nat
                    /\ omap (fun pr : list Q => pr !! 1%nat) (weighted_pairs (a :: l)) !! j
                       = (a :: l) !! (2 * j + 1)%nat))
    by apply H.
  induction l as [|b l [IH1 IH2]].
  - split.
    + intros j. simpl. now rewrite !lookup_nil.
    + intros a [|j]; simpl; split; reflexivity.
  - split; [apply IH2|].
    intros a [|j].
    + split; reflexivity.
    + replace (2 * S j)%nat with (S (S (2 * j))) by lia.
      replace (S (S (2 * j)) + 1)%nat with (S (S (2 * j + 1))) by lia.
      change (weighted_pairs (a :: b :: l)) with ([a; b] :: weighted_pairs l).
      cbn [omap list_omap lookup list_lookup]. apply IH1.
Qed.

(** X5: every entry of the results file is a point of a group and its
    floor one of the distinct floors of that group; every group gives the
    report a row for each of its distinct floors, and the three totals of
    the group are written on the first of them only; the other rows hold
    the empty string.  The permanent total is [round(sum(...), 2)] of the
    weighted areas at the even positions of the group, the imposed total
    that of the odd positions, and the SLS total that of all of them. *)
Theorem totals_on_first_row (data : data_json) (match_radius : Q) :
  (forall floor col,
     In (floor, col) (Spec.visits data) ->
     exists g i,
       In g (Summary64.group_by_proximity data match_radius)
       /\ In (make_point floor col) (points g)
       /\ fromkeys (map p0 (points g)) !! i = Some floor)
  /\ (forall g i floor,
        In g (Summary64.group_by_proximity data match_radius) ->
        fromkeys (map p0 (points g)) !! i = Some floor ->
        exists (r : row) (perm_loads imposed_loads : list Q),
          In r (Summary64.group_columns_by_alignment data match_radius)
          /\ Summary64.group_rows g !! i = Some r
          /\ (forall j, perm_loads !! j = map p4 (points g) !! (2 * j)%nat)
          /\ (forall j, imposed_loads !! j = map p4 (points g) !! (2 * j + 1)%nat)
          /\ (i = 0%nat ->
              Total_Permanent_Load r = Num (Float64.round (Float64.sum perm_loads) 2)
              /\ Total_Imposed_Load r
                 = Num (Float64.round (Float64.sum imposed_loads) 2)
              /\ Total_SLS_Load r
                 = Num (Float64.round (Float64.sum (map p4 (points g))) 2))
          /\ (i <> 0%nat ->
              Total_Permanent_Load r = Blank
              /\ Total_Imposed_Load r = Blank
              /\ Total_SLS_Load r = Blank)).
Proof.
  split; [intros floor col; apply every_entry_has_a_floor|].
  intros g i floor Hg Hfloor. pose proof (row_of_floor g i floor Hfloor) as Hrow.
  eexists _, (omap (fun pr : list Q => pr !! 0%nat) (weighted_pairs (map p4 (points g)))),
             (omap (fun pr : list Q => pr !! 1%nat) (weighted_pairs (map p4 (points g)))).
  split; [|split; [exact Hrow|]].
  - apply (rows_are_in_the_report data match_radius g _ Hg).
    apply list_elem_of_In. eapply list_elem_of_lookup_2. exact Hrow.
  - split; [intros j; apply loads_of_pairs|].
    split; [intros j; apply loads_of_pairs|].
    cbn [Summary64.group_row Total_Permanent_Load Total_Imposed_Load Total_SLS_Load].
    split.
    + intros ->. repeat split.
    + intros Hi. apply Nat.eqb_neq in Hi. rewrite Hi. repeat split.
Qed.

End FloatFacts.

Lemma alignment_is_first_match_witness :
  map points (Summary64.group_by_proximity (float := Exact.floats)
                Scenario.two_floors default_match_radius)
  = [[ {| p0 := "02"; p1 := 0; p2 := 0; p3 := 9; p4 := 5; p5 := "Column" |};
       {| p0 := "01"; p1 := 3 # 10; p2 := 3 # 10; p3 := 9; p4 := 7; p5 := "Column" |} ]].
Proof.
  destruct (alignment_is_first_match (float := Exact.floats) Scenario.two_floors)
    as (_ & H).
  destruct (H default_match_radius) as (Hrun & Hsame).
  etransitivity; [exact (Hsame _ Hrun)|]. reflexivity.
Defined.

Lemma consecutive_points_within_radius_witness :
  In Scenario.two_floors_group
     (Summary64.group_by_proximity (float := Exact.floats)
        Scenario.two_floors default_match_radius)
  /\ Np.norm (Np.sub (3 # 10, 3 # 10) (0, 0)) <= default_match_radius.
Proof.
  assert (Hin : In Scenario.two_floors_group
                   (Summary64.group_by_proximity (float := Exact.floats)
                      Scenario.two_floors default_match_radius))
    by (vm_compute; left; reflexivity).
  split; [exact Hin|].
  exact (consecutive_points_within_radius (float := Exact.floats)
           Scenario.two_floors default_match_radius Scenario.two_floors_group 0
           {| p0 := "02"; p1 := 0; p2 := 0; p3 := 9; p4 := 5; p5 := "Column" |}
           {| p0 := "01"; p1 := 3 # 10; p2 := 3 # 10; p3 := 9; p4 := 7; p5 := "Column" |}
           Hin eq_refl eq_refl).
Defined.

Lemma zero_load_is_missing_witness :
  exists r,
    In r (Summary64.group_columns_by_alignment (float := Exact.floats)
            Scenario.zero_load_data default_match_radius)
    /\ Floor r = "01"%string
    /\ Permanent_Load r = PyNone
    /\ Imposed_Load r = Num (Py.round (5 # 2) 2).
Proof.
  destruct (zero_load_is_missing (float := Exact.floats) Scenario.zero_load_data
              default_match_radius) as (_ & Hrow & _).
  destruct (Hrow Scenario.zero_load_group 0%nat "01"%string)
    as (r & Hin & _ & _ & Hfloor & Hcells).
  - vm_compute. left. reflexivity.
  - reflexivity.
  - exists r. split; [exact Hin|]. split; [exact Hfloor|]. split.
    + apply (proj1 (Hcells 0%nat (Permanent_Load r) (or_introl (conj eq_refl eq_refl)))).
      reflexivity.
    + apply (proj2 (Hcells 1%nat (Imposed_Load r) (or_intror (conj eq_refl eq_refl)))).
      discriminate.
Defined.

Lemma totals_on_first_row_witness :
  exists r,
    In r (Summary64.group_columns_by_alignment (float := Exact.floats)
            Scenario.zero_load_data default_match_radius)
    /\ Total_Permanent_Load r = Num (Py.round (Py.sum [0]) 2)
    /\ Total_Imposed_Load r = Num (Py.round (Py.sum [5 # 2]) 2)
    /\ Total_SLS_Load r = Num (Py.round (Py.sum [0; 5 # 2]) 2).
Proof.
  destruct (totals_on_first_row (float := Exact.floats) Scenario.zero_load_data
              default_match_radius) as (_ & Hrow).
  destruct (Hrow Scenario.zero_load_group 0%nat "01"%string)
    as (r & perm_loads & imposed_loads & Hin & _ & Hperm & Himp & Hfirst & _).
  - vm_compute. left. reflexivity.
  - reflexivity.
  - exists r. split; [exact Hin|].
    destruct (Hfirst eq_refl) as (H1 & H2 & H3).
    assert (Ep : perm_loads = [0]).
    { apply list_eq. intros [|j]; rewrite Hperm; [reflexivity|].
      replace (2 * S j)%nat with (S (S (2 * j))) by lia. reflexivity. }
    assert (Ei : imposed_loads = [5 # 2]).
    { apply list_eq. intros [|j]; rewrite Himp; [reflexivity|].
      replace (2 * S j + 1)%nat with (S (S (2 * j + 1))) by lia. reflexivity. }
    rewrite Ep in H1. rewrite Ei in H2. auto.
Defined.

End Summary64Facts.

(** ** More on the cells ([vornoi5.py]) *)

Module VoronoiExtra.
Import Py Voronoi5 PyFacts VoronoiFacts.

(** *** The vertex indices the builder returns *)

Lemma insert_by_angle_perm {A} (ang : A -> Q * Q) (x : A) (l : list A) :
  Permutation (Np.insert_by_angle ang x l) (x :: l).
Proof.
  induction l as [|y l IH]; simpl; [reflexivity|].
  destruct (Np.angle_lt (ang y) (ang x)); [|reflexivity].
  rewrite IH. apply perm_swap.
Qed.

Lemma sort_by_angle_perm {A} (ang : A -> Q * Q) (l : list A) :
  Permutation (Np.sort_by_angle ang l) l.
Proof.
  induction l as [|x l IH]; simpl; [reflexivity|].
  rewrite insert_by_angle_perm. now constructor.
Qed.

Lemma in_range_mono (n m : nat) (l : list Z) :
  (n <= m)%nat ->
  Forall (fun v => (0 <= v < Z.of_nat n)%Z) l ->
  Forall (fun v => (0 <= v < Z.of_nat m)%Z) l.
Proof.
  intros Hnm H. eapply Forall_impl; [exact H|]. simpl. intros v Hv. lia.
Qed.

Lemma extend_ridge_inv vor pts center radius p1 (base nv : list (Q * Q)) (nr : list Z)
    (ridge : nat * Z * Z) :
  (exists extra, nv = base ++ extra) ->
  Forall (fun v => (0 <= v < Z.of_nat (length nv))%Z) nr ->
  (exists extra, fst (extend_ridge vor pts center radius p1 (nv, nr) ridge) = base ++ extra)
  /\ Forall (fun v => (0 <= v
                       < Z.of_nat (length (fst (extend_ridge vor pts center radius p1
                                                  (nv, nr) ridge))))%Z)
            (snd (extend_ridge vor pts center radius p1 (nv, nr) ridge)).
Proof.
  intros [extra ->] Hr. unfold extend_ridge.
  destruct ridge as [[p2 v1] v2].
  destruct (v2 <? 0)%Z; [destruct (0 <=? v2)%Z | destruct (0 <=? v1)%Z]; cbn [fst snd];
    try (split; [now exists extra | exact Hr]).
  - split; [eexists; rewrite <- app_assoc; reflexivity|].
    apply Forall_app. split.
    + eapply in_range_mono; [|exact Hr]. rewrite !length_app. simpl. lia.
    + constructor; [|constructor]. rewrite !length_app. simpl. lia.
  - split; [eexists; rewrite <- app_assoc; reflexivity|].
    apply Forall_app. split.
    + eapply in_range_mono; [|exact Hr]. rewrite !length_app. simpl. lia.
    + constructor; [|constructor]. rewrite !length_app. simpl. lia.
Qed.

Lemma extend_ridges_inv vor pts center radius p1 (base : list (Q * Q)) ridges :
  forall (nv : list (Q * Q)) (nr : list Z),
  (exists extra, nv = base ++ extra) ->
  Forall (fun v => (0 <= v < Z.of_nat (length nv))%Z) nr ->
  (exists extra,
     fst (fold_left (extend_ridge vor pts center radius p1) ridges (nv, nr)) = base ++ extra)
  /\ Forall (fun v => (0 <= v
                       < Z.of_nat (length (fst (fold_left
                                                  (extend_ridge vor pts center radius p1)
                                                  ridges (nv, nr)))))%Z)
            (snd (fold_left (extend_ridge vor pts center radius p1) ridges (nv, nr))).
Proof.
  induction ridges as [|ridge ridges IH]; intros nv nr Hb Hr; cbn [fold_left].
  - auto.
  - destruct (extend_ridge_inv vor pts center radius p1 base nv nr ridge Hb Hr) as [Hb' Hr'].
    destruct (extend_ridge vor pts center radius p1 (nv, nr) ridge) as [nv' nr'].
    cbn [fst snd] in *. now apply IH.
Qed.

Lemma finite_region_inv vor pts center radius (base : list (Q * Q))
    (regions : list (list Z)) (verts : list (Q * Q)) (site : nat * nat) :
  Forall (Forall (fun v => (-1 <= v < Z.of_nat (length base))%Z)) (vor_regions vor) ->
  (exists extra, verts = base ++ extra) ->
  Forall (Forall (fun v => (0 <= v < Z.of_nat (length verts))%Z)) regions ->
  (exists extra, snd (finite_region vor pts center radius (regions, verts) site)
                 = base ++ extra)
  /\ Forall (Forall (fun v =>
                       (0 <= v
                        < Z.of_nat (length (snd (finite_region vor pts center radius
                                                   (regions, verts) site))))%Z))
            (fst (finite_region vor pts center radius (regions, verts) site))
  /\ (length (fst (finite_region vor pts center radius (regions, verts) site))
      <= S (length regions))%nat.
Proof.
  intros Hwf Hb Hr. unfold finite_region. destruct site as [p1 region_idx].
  assert (Hreg : Forall (fun v => (-1 <= v < Z.of_nat (length base))%Z)
                        (nth region_idx (vor_regions vor) [])).
  { destruct (nth_in_or_default region_idx (vor_regions vor) []) as [Hin | ->];
      [|constructor].
    rewrite List.Forall_forall in Hwf. now apply Hwf. }
  assert (Hlen : (length base <= length verts)%nat).
  { destruct Hb as [extra ->]. rewrite length_app. lia. }
  destruct (forallb _ (nth region_idx (vor_regions vor) [])) eqn:Hall; cbn [fst snd].
  - split; [exact Hb|]. split; [|rewrite length_app; simpl; lia].
    apply Forall_app. split; [exact Hr|]. constructor; [|constructor].
    rewrite forallb_forall in Hall. rewrite List.Forall_forall in Hreg |- *.
    intros v Hv. specialize (Hall v Hv). specialize (Hreg v Hv). lia.
  - assert (Hfil : Forall (fun v => (0 <= v < Z.of_nat (length verts))%Z)
                          (List.filter (fun v => (0 <=? v)%Z)
                                       (nth region_idx (vor_regions vor) []))).
    { rewrite List.Forall_forall in Hreg |- *. intros v Hv.
      apply filter_In in Hv as [Hv H0]. specialize (Hreg v Hv). lia. }
    destruct (extend_ridges_inv vor pts center radius p1 verts (ridges_of vor p1)
                verts _ (ex_intro _ [] (eq_sym (app_nil_r verts))) Hfil) as [Hv' Hr'].
    destruct (fold_left _ (ridges_of vor p1) _) as [nv nr]. cbn [fst snd] in *.
    destruct Hv' as [e2 ->].
    assert (Hb' : exists extra, verts ++ e2 = base ++ extra).
    { destruct Hb as [e1 ->]. exists (e1 ++ e2). now rewrite app_assoc. }
    assert (Hmono : Forall (Forall (fun v => (0 <= v < Z.of_nat (length (verts ++ e2)))%Z))
                           regions).
    { eapply Forall_impl; [exact Hr|]. intros l Hl.
      eapply in_range_mono; [|exact Hl]. rewrite length_app. lia. }
    destruct (length nr <? 3)%nat; cbn [fst snd].
    + split; [exact Hb'|]. split; [exact Hmono | lia].
    + split; [exact Hb'|]. split; [|rewrite length_app; simpl; lia].
      apply Forall_app. split; [exact Hmono|]. constructor; [|constructor].
      rewrite sort_by_angle_perm. exact Hr'.
Qed.

Lemma finite_regions_inv vor pts center radius (base : list (Q * Q)) sites :
  Forall (Forall (fun v => (-1 <= v < Z.of_nat (length base))%Z)) (vor_regions vor) ->
  forall (regions : list (list Z)) (verts : list (Q * Q)),
  (exists extra, verts = base ++ extra) ->
  Forall (Forall (fun v => (0 <= v < Z.of_nat (length verts))%Z)) regions ->
  (exists extra,
     snd (fold_left (finite_region vor pts center radius) sites (regions, verts))
     = base ++ extra)
  /\ Forall (Forall (fun v =>
                       (0 <= v
                        < Z.of_nat (length (snd (fold_left
                                                   (finite_region vor pts center radius)
                                                   sites (regions, verts)))))%Z))
            (fst (fold_left (finite_region vor pts center radius) sites (regions, verts)))
  /\ (length (fst (fold_left (finite_region vor pts center radius) sites (regions, verts)))
      <= length regions + length sites)%nat.
Proof.
  intros Hwf. induction sites as [|site sites IH]; intros regions verts Hb Hr;
    cbn [fold_left].
  - split; [exact Hb|]. split; [exact Hr | simpl; lia].
  - destruct (finite_region_inv vor pts center radius base regions verts site Hwf Hb Hr)
      as (Hb' & Hr' & Hlen).
    destruct (finite_region vor pts center radius (regions, verts) site) as [rs vs].
    cbn [fst snd] in *.
    destruct (IH rs vs Hb' Hr') as (Hb'' & Hr'' & Hlen'').
    split; [exact Hb''|]. split; [exact Hr''|]. simpl. lia.
Qed.

(** X8: on a diagram whose regions only hold indices of its own vertices
    (or -1), the builder keeps the diagram's vertices in front of the ones
    it adds, returns at most one region per site, and every index of every
    returned region points into the returned vertices; so the engine's test
    for an index beyond the vertices never rejects a region. *)
Theorem builder_indices_in_range (vor : Vor) (radius : option Q)
    (regions : list (list Z)) (vertices : list (Q * Q)) :
  Forall (Forall (fun v => (-1 <= v < Z.of_nat (length (vor_vertices vor)))%Z))
         (vor_regions vor) ->
  voronoi_finite_polygons_2d vor radius = Ok (regions, vertices) ->
  (exists extra, vertices = map Np.xy (vor_vertices vor) ++ extra)
  /\ (length regions <= length (point_region vor))%nat
  /\ Forall (Forall (fun v => (0 <= v < Z.of_nat (length vertices))%Z)) regions
  /\ Forall (fun region =>
               existsb (fun v => (Z.of_nat (length vertices) <=? v)%Z) region = false)
            regions.
Proof.
  intros Hwf. unfold voronoi_finite_polygons_2d.
  destruct (negb _); [discriminate|]. intros [= Hfold].
  set (base := map Np.xy (vor_vertices vor)) in *.
  assert (Hwf' : Forall (Forall (fun v => (-1 <= v < Z.of_nat (length base))%Z))
                        (vor_regions vor))
    by (unfold base; now rewrite length_map).
  destruct (finite_regions_inv vor (map Np.xy (vor_points vor))
              (Np.mean (map Np.xy (vor_points vor)))
              (match radius with
               | Some r => r
               | None => Np.ptp_max (map Np.xy (vor_points vor)) * 2
               end)
              base (imap pair (point_region vor)) Hwf' [] base
              (ex_intro _ [] (eq_sym (app_nil_r base))) (List.Forall_nil _))
    as (Hb & Hr & Hlen).
  rewrite Hfold in Hb, Hr, Hlen. cbn [fst snd] in *.
  split; [exact Hb|]. split; [now rewrite length_imap in Hlen|]. split; [exact Hr|].
  eapply Forall_impl; [exact Hr|]. intros region Hreg.
  apply not_true_iff_false. intros He. apply existsb_exists in He as (v & Hv & Hge).
  rewrite List.Forall_forall in Hreg. specialize (Hreg v Hv). lia.
Qed.

Lemma builder_indices_in_range_witness :
  exists regions vertices,
    voronoi_finite_polygons_2d
      {| vor_points := [[18; 14]; [22; 14]; [18; 17]];
         vor_vertices := [[20; 31 # 2]];
         ridge_points := [(0, 1); (0, 2); (1, 2)]%nat;
         ridge_vertices := [(-1, 0); (-1, 0); (-1, 0)]%Z;
         vor_regions := [[-1; 0]; [-1; 0]; [-1; 0]]%Z;
         point_region := [0; 1; 2]%nat |} None = Ok (regions, vertices)
    /\ length regions = 3%nat
    /\ Forall (Forall (fun v => (0 <= v < Z.of_nat (length vertices))%Z)) regions.
Proof.
  eexists _, _. split; [vm_compute; reflexivity|]. split; [reflexivity|].
  refine (proj1 (proj2 (proj2 (builder_indices_in_range
            {| vor_points := [[18; 14]; [22; 14]; [18; 17]];
               vor_vertices := [[20; 31 # 2]];
               ridge_points := [(0, 1); (0, 2); (1, 2)]%nat;
               ridge_vertices := [(-1, 0); (-1, 0); (-1, 0)]%Z;
               vor_regions := [[-1; 0]; [-1; 0]; [-1; 0]]%Z;
               point_region := [0; 1; 2]%nat |} None _ _ _ _)))).
  - repeat (apply List.Forall_cons || apply List.Forall_nil); simpl; lia.
  - vm_compute. reflexivity.
Defined.

Section EngineExtra.
Context {shapely : Shapely}.
Variable Voronoi : list (Q * Q) -> result Vor.

(** *** Floors with few supports *)

Lemma weighted_zones_of_accepts (load_type : string) (load_zones : list zone_json) :
  Forall (fun z => (3 <= length (Vertices z))%nat -> exists g, Polygon (Vertices z) = Ok g)
         load_zones ->
  exists weighted_zones, weighted_zones_of load_type load_zones = Ok weighted_zones.
Proof.
  induction load_zones as [|z rest IH]; intros H; cbn [weighted_zones_of].
  - now exists [].
  - apply Forall_cons in H as [Hz Hrest]. destruct (IH Hrest) as [wz Hwz].
    destruct (3 <=? length (Vertices z))%nat eqn:H3; [|now exists wz].
    apply Nat.leb_le in H3. destruct (Hz H3) as [g Hg].
    rewrite Hg, Hwz. cbn [bind]. eauto.
Qed.

Lemma floor_pass_few_supports (info : floor_info) (load_zones : list zone_json)
    (load_type : string) (boundary_poly : geom) :
  (length (columns info ++ walls info ++ foundations info) < 3)%nat ->
  Polygon (floor_boundary info) = Ok boundary_poly ->
  Forall (fun z => (3 <= length (Vertices z))%nat -> exists g, Polygon (Vertices z) = Ok g)
         load_zones ->
  floor_pass Voronoi info load_zones load_type = Ok [].
Proof.
  intros Hlen Hb Hz. unfold floor_pass.
  destruct load_zones as [|z rest]; [reflexivity|].
  destruct (weighted_zones_of_accepts load_type (z :: rest) Hz) as [wz ->]. cbn [bind].
  destruct wz as [|w wz]; [reflexivity|].
  rewrite (compute_few_sites Voronoi _ _ _ boundary_poly Hlen Hb). reflexivity.
Qed.

(** X11: a floor with fewer than 3 support points (columns, wall samples
    and foundations together) gets an empty "columns" list, whatever its
    load zones: its supports receive no tributary area. *)
Theorem few_supports_give_no_records (info : floor_info)
    (loading : string -> list zone_json) (boundary_poly : geom) :
  (length (columns info ++ walls info ++ foundations info) < 3)%nat ->
  Polygon (floor_boundary info) = Ok boundary_poly ->
  (forall load_type,
     Forall (fun z => (3 <= length (Vertices z))%nat ->
                      exists g, Polygon (Vertices z) = Ok g) (loading load_type)) ->
  floor_columns Voronoi info (Some loading) = Ok [].
Proof.
  intros Hlen Hb Hz. unfold floor_columns.
  rewrite (floor_pass_few_supports info _ _ boundary_poly Hlen Hb (Hz _)). cbn [bind].
  rewrite (floor_pass_few_supports info _ _ boundary_poly Hlen Hb (Hz _)). reflexivity.
Qed.

End EngineExtra.

Import Exact.

Lemma few_supports_give_no_records_witness :
  floor_columns (shapely := exact_shapely) voronoi3
    {| floor_boundary := Scenario.unit_square; columns := Scenario.two_sites;
       walls := []; foundations := [] |}
    (Some Scenario.slab_loading) = Ok [].
Proof.
  apply (few_supports_give_no_records (shapely := exact_shapely) voronoi3
           {| floor_boundary := Scenario.unit_square; columns := Scenario.two_sites;
              walls := []; foundations := [] |}
           Scenario.slab_loading (Ring Scenario.unit_square)).
  - simpl. lia.
  - reflexivity.
  - intros load_type. unfold Scenario.slab_loading.
    destruct (String.eqb load_type "Permanent Loading"); repeat constructor.
    intros _. eexists. reflexivity.
Defined.

End VoronoiExtra.

(** ** Level names ([LTD_floor4.py], [visual_check2.py], [filled_regions2.py]) *)

Module LevelsFacts.
Import Py Levels PyFacts.

(** *** Stripping blanks *)

Lemma lstrip_app (a b : list ascii) (c : ascii) :
  is_space c = false -> lstrip (a ++ c :: b) = lstrip a ++ c :: b.
Proof.
  intros Hc. induction a as [|x a IH]; simpl.
  - now rewrite Hc.
  - destruct (is_space x); [exact IH | reflexivity].
Qed.

Lemma lstrip_head (l : list ascii) :
  match lstrip l with
  | [] => True
  | c :: _ => is_space c = false
  end.
Proof.
  induction l as [|x l IH]; simpl; [exact I|].
  destruct (is_space x) eqn:E; [exact IH | exact E].
Qed.

Lemma lstrip_find (l : list ascii) :
  hd_error (lstrip l) = find (fun c => negb (is_space c)) l.
Proof.
  induction l as [|x l IH]; simpl; [reflexivity|].
  destruct (is_space x); simpl; [exact IH | reflexivity].
Qed.

Lemma strip_unfold (l : list ascii) :
  strip l = match lstrip l with
            | [] => []
            | c :: m => c :: rev (lstrip (rev m))
            end.
Proof.
  unfold strip. pose proof (lstrip_head l) as H.
  destruct (lstrip l) as [|c m]; [reflexivity|].
  simpl. rewrite (lstrip_app (rev m) [] c H), rev_app_distr. reflexivity.
Qed.

Lemma strip_head (l : list ascii) :
  hd_error (strip l) = find (fun c => negb (is_space c)) l.
Proof.
  rewrite strip_unfold, <- lstrip_find. now destruct (lstrip l).
Qed.

Lemma strip_trimmed (l : list ascii) :
  (forall c, hd_error l = Some c -> is_space c = false) ->
  (forall c, hd_error (rev l) = Some c -> is_space c = false) ->
  strip l = l.
Proof.
  intros Hh Hl. unfold strip.
  assert (E : forall m : list ascii,
             (forall c, hd_error m = Some c -> is_space c = false) -> lstrip m = m).
  { intros [|x m] H; simpl; [reflexivity|]. now rewrite (H x eq_refl). }
  rewrite (E l Hh), (E (rev l) Hl). apply rev_involutive.
Qed.

Lemma alnum_not_space (c : ascii) : is_alnum c = true -> is_space c = false.
Proof.
  destruct c as [[] [] [] [] [] [] [] []]; vm_compute; congruence.
Qed.

Lemma chars_of_string (l : list ascii) :
  list_ascii_of_string (string_of_list_ascii l) = l.
Proof. apply list_ascii_of_string_of_list_ascii. Qed.

(** X13: on a string, [extract_level_prefix] returns at most two
    characters, and applying it to its own result changes nothing. *)
Theorem extract_level_prefix_idempotent (name : string) :
  (String.length (extract_level_prefix (Some name)) <= 2)%nat
  /\ extract_level_prefix (Some (extract_level_prefix (Some name)))
     = extract_level_prefix (Some name).
Proof.
  assert (Hshort : forall c1 c2,
             is_alnum c1 = true -> is_alnum c2 = true ->
             extract_level_prefix (Some (String c1 (String c2 EmptyString)))
             = String c1 (String c2 EmptyString)).
  { intros c1 c2 H1 H2. unfold extract_level_prefix. cbn [list_ascii_of_string].
    rewrite strip_trimmed.
    - now rewrite H1, H2.
    - intros c [= <-]. now apply alnum_not_space.
    - intros c [= <-]. now apply alnum_not_space. }
  assert (Hone : forall c1,
             is_alnum c1 = true ->
             extract_level_prefix (Some (String c1 EmptyString)) = String c1 EmptyString).
  { intros c1 H1. unfold extract_level_prefix. cbn [list_ascii_of_string].
    rewrite strip_trimmed.
    - now rewrite H1.
    - intros c [= <-]. now apply alnum_not_space.
    - intros c [= <-]. now apply alnum_not_space. }
  assert (Htake : (String.length (str_take 2 name) <= 2)%nat).
  { unfold str_take. destruct (list_ascii_of_string name) as [|a [|b t]]; simpl; lia. }
  assert (Hfall : match find (fun c => negb (is_space c)) (list_ascii_of_string name) with
                  | Some c => is_alnum c = false
                  | None => True
                  end ->
                  extract_level_prefix (Some (str_take 2 name)) = str_take 2 name).
  { intros Hno. unfold extract_level_prefix, str_take.
    rewrite !chars_of_string.
    assert (Hidem : take 2 (take 2 (list_ascii_of_string name))
                    = take 2 (list_ascii_of_string name))
      by (destruct (list_ascii_of_string name) as [|a [|b t]]; reflexivity).
    rewrite Hidem.
    destruct (list_ascii_of_string name) as [|a [|b t]];
      [change (take 2 (@nil ascii)) with (@nil ascii) in *
      |change (take 2 [a]) with [a] in *
      |change (take 2 (a :: b :: t)) with [a; b] in *]; cbn [find] in *.
    - pose proof (strip_head []) as Hh. cbn [find] in Hh.
      destruct (strip []); [reflexivity | discriminate].
    - pose proof (strip_head [a]) as Hh. cbn [find] in Hh.
      destruct (strip [a]) as [|c r]; [reflexivity|]. cbn [hd_error] in Hh.
      destruct (is_space a); cbn [negb] in *; [discriminate|].
      injection Hh as ->. now rewrite Hno.
    - pose proof (strip_head [a; b]) as Hh. cbn [find] in Hh.
      destruct (strip [a; b]) as [|c r]; [reflexivity|]. cbn [hd_error] in Hh.
      destruct (is_space a); cbn [negb] in *;
        [destruct (is_space b); cbn [negb] in *; [discriminate|]|];
        injection Hh as ->; now rewrite Hno. }
  unfold extract_level_prefix at 1 3 4.
  pose proof (strip_head (list_ascii_of_string name)) as Hh.
  destruct (strip (list_ascii_of_string name)) as [|c1 rest]; simpl in Hh.
  - split; [exact Htake|]. apply Hfall. now rewrite <- Hh.
  - destruct (is_alnum c1) eqn:H1.
    + destruct rest as [|c2 rest]; [split; [simpl; lia | now apply Hone]|].
      destruct (is_alnum c2) eqn:H2; (split; [simpl; lia|]);
        [now apply Hshort | now apply Hone].
    + split; [exact Htake|]. apply Hfall. now rewrite <- Hh, H1.
Qed.


(** *** Reading integers *)

Lemma int_unfold (s : string) :
  int s =
  match
    match strip (list_ascii_of_string s) with
    | c :: l =>
        if Ascii.eqb c "-" then option_map Z.opp (digits 0 false l)
        else if Ascii.eqb c "+" then digits 0 false l
        else digits 0 false (c :: l)
    | [] => None
    end
  with
  | Some n => Ok n
  | None => Raise (ValueError "invalid literal for int() with base 10")
  end.
Proof.
  unfold int.
  destruct (strip (list_ascii_of_string s)) as [|[[] [] [] [] [] [] [] []] l];
    reflexivity.
Qed.

Lemma digit_val_range (c : ascii) :
  is_digit c = true -> (0 <= digit_val c <= 9)%Z.
Proof.
  unfold is_digit, digit_val. intros H.
  apply andb_prop in H as [H1 H2].
  apply Nat.leb_le in H1, H2. lia.
Qed.

Lemma digit_not_sign (c : ascii) :
  is_digit c = true ->
  Ascii.eqb c "-" = false /\ Ascii.eqb c "+" = false /\ is_space c = false.
Proof.
  destruct c as [[] [] [] [] [] [] [] []]; vm_compute; intuition congruence.
Qed.

Lemma digits_one (acc : Z) (b : bool) (c : ascii) (n : Z) :
  digits acc b [c] = Some n ->
  is_digit c = true /\ n = (10 * acc + digit_val c)%Z.
Proof.
  cbn [digits]. destruct (is_digit c).
  - intros [= <-]. split; reflexivity.
  - destruct (Ascii.eqb c "_" && b)%bool; discriminate.
Qed.

Lemma digits_two (c1 c2 : ascii) (n : Z) :
  digits 0 false [c1; c2] = Some n -> (0 <= n <= 99)%Z.
Proof.
  cbn [digits]. destruct (is_digit c1) eqn:H1.
  - pose proof (digit_val_range c1 H1).
    destruct (is_digit c2) eqn:H2.
    + pose proof (digit_val_range c2 H2). intros [= <-]. lia.
    + destruct (Ascii.eqb c2 "_" && true)%bool; discriminate.
  - rewrite andb_false_r. discriminate.
Qed.

Lemma length_lstrip (l : list ascii) : (length (lstrip l) <= length l)%nat.
Proof.
  induction l as [|c l IH]; simpl; [lia|].
  destruct (is_space c); simpl; lia.
Qed.

Lemma length_strip (l : list ascii) : (length (strip l) <= length l)%nat.
Proof.
  unfold strip. rewrite length_rev.
  etransitivity; [apply length_lstrip|]. rewrite length_rev. apply length_lstrip.
Qed.

Lemma length_chars (s : string) :
  length (list_ascii_of_string s) = String.length s.
Proof. induction s as [|c s IH]; simpl; congruence. Qed.

Lemma length_of_chars (l : list ascii) :
  String.length (string_of_list_ascii l) = length l.
Proof. induction l as [|c l IH]; simpl; congruence. Qed.

Lemma length_upper (s : string) : String.length (upper s) = String.length s.
Proof. induction s as [|c s IH]; simpl; congruence. Qed.

Lemma length_str_take (n : nat) (s : string) :
  (String.length (str_take n s) <= n)%nat.
Proof.
  unfold str_take. rewrite length_of_chars, length_take. lia.
Qed.

(** A one-character literal is a digit; a two-character literal is a signed
    digit or two digits. *)
Lemma int_one_char (s : string) (n : Z) :
  (String.length s <= 1)%nat -> int s = Ok n -> (0 <= n <= 9)%Z.
Proof.
  intros Hlen. rewrite int_unfold.
  pose proof (length_strip (list_ascii_of_string s)) as Hs.
  rewrite length_chars in Hs.
  destruct (strip (list_ascii_of_string s)) as [|a [|b l]];
    [discriminate| |simpl in Hs; lia].
  destruct (Ascii.eqb a "-"); [discriminate|].
  destruct (Ascii.eqb a "+"); [discriminate|].
  destruct (digits 0 false [a]) as [m|] eqn:E; [|discriminate].
  intros [= <-]. apply digits_one in E as [Hd ->].
  pose proof (digit_val_range a Hd). lia.
Qed.

Lemma int_two_chars (s : string) (n : Z) :
  (String.length s <= 2)%nat -> int s = Ok n -> (-9 <= n <= 99)%Z.
Proof.
  intros Hlen. rewrite int_unfold.
  pose proof (length_strip (list_ascii_of_string s)) as Hs.
  rewrite length_chars in Hs.
  destruct (strip (list_ascii_of_string s)) as [|a [|b [|c l]]];
    [discriminate| | |simpl in Hs; lia].
  - destruct (Ascii.eqb a "-"); [discriminate|].
    destruct (Ascii.eqb a "+"); [discriminate|].
    destruct (digits 0 false [a]) as [m|] eqn:E; [|discriminate].
    intros [= <-]. apply digits_one in E as [Hd ->].
    pose proof (digit_val_range a Hd). lia.
  - destruct (Ascii.eqb a "-").
    { destruct (digits 0 false [b]) as [m|] eqn:E; [|discriminate].
      cbn [option_map]. intros [= <-]. apply digits_one in E as [Hd ->].
      pose proof (digit_val_range b Hd). lia. }
    destruct (Ascii.eqb a "+").
    { destruct (digits 0 false [b]) as [m|] eqn:E; [|discriminate].
      intros [= <-]. apply digits_one in E as [Hd ->].
      pose proof (digit_val_range b Hd). lia. }
    destruct (digits 0 false [a; b]) as [m|] eqn:E; [|discriminate].
    intros [= <-]. apply digits_two in E. lia.
Qed.

(** *** Decimal numerals *)

Lemma uint_chars_digits (d : Decimal.uint) :
  List.Forall (fun c => is_digit c = true)
    (list_ascii_of_string (NilEmpty.string_of_uint d)).
Proof.
  induction d; cbn [NilEmpty.string_of_uint list_ascii_of_string];
    constructor; (reflexivity || assumption).
Qed.

Lemma digits_uint (d : Decimal.uint) : forall acc : Z,
  (0 <= acc)%Z ->
  digits acc true (list_ascii_of_string (NilEmpty.string_of_uint d))
  = Some (Z.of_nat (Nat.of_uint_acc d (Z.to_nat acc))).
Proof.
  induction d; intros acc Hacc;
    cbn [NilEmpty.string_of_uint list_ascii_of_string Nat.of_uint_acc];
    [cbn [digits]; f_equal; lia|..];
    match goal with
    | |- digits ?a true (?c :: ?l) = _ =>
        let v := eval vm_compute in (digit_val c) in
        change (digits a true (c :: l)) with (digits (10 * a + v) true l)
    end;
    rewrite IHd by lia;
    f_equal; f_equal; f_equal; rewrite Nat.tail_mul_spec; lia.
Qed.

Lemma strip_no_space (l : list ascii) :
  List.Forall (fun c => is_space c = false) l -> strip l = l.
Proof.
  intros H. rewrite List.Forall_forall in H.
  apply strip_trimmed; intros c Hc; apply H.
  - destruct l; [discriminate|]. injection Hc as ->. now left.
  - apply List.in_rev. destruct (rev l); [discriminate|]. injection Hc as ->. now left.
Qed.

Lemma int_uint (d : Decimal.uint) :
  d <> Decimal.Nil ->
  int (NilEmpty.string_of_uint d) = Ok (Z.of_nat (Nat.of_uint d)).
Proof.
  intros Hd. rewrite int_unfold, strip_no_space.
  2:{ eapply List.Forall_impl; [|apply uint_chars_digits].
      intros c Hc. now apply digit_not_sign. }
  pose proof (digits_uint d 0 (Z.le_refl 0)) as E.
  change (Nat.of_uint_acc d (Z.to_nat 0)) with (Nat.of_uint d) in E.
  destruct d; [congruence|..];
    cbn [NilEmpty.string_of_uint list_ascii_of_string] in *;
    match goal with
    | |- context [Ascii.eqb ?c "-"] => change (Ascii.eqb c "-") with false
    end;
    match goal with
    | |- context [Ascii.eqb ?c "+"] => change (Ascii.eqb c "+") with false
    end;
    cbv iota;
    match goal with
    | E : digits 0 true ?l = _ |- _ => change (digits 0 false l) with (digits 0 true l)
    end;
    now rewrite E.
Qed.

Lemma to_uint_not_nil (n : nat) : Nat.to_uint n <> Decimal.Nil.
Proof.
  rewrite <- (DecimalNat.Unsigned.of_to n) at 1.
  rewrite DecimalNat.Unsigned.to_of. apply DecimalFacts.unorm_nonnil.
Qed.

Lemma int_decimal (n : nat) : int (decimal n) = Ok (Z.of_nat n).
Proof.
  unfold decimal. rewrite int_uint by apply to_uint_not_nil.
  now rewrite DecimalNat.Unsigned.of_to.
Qed.

(** *** Level numbers *)

Lemma str_take_2 (s : string) :
  str_take 2 s = match s with
                 | String a (String b _) => String a (String b EmptyString)
                 | _ => s
                 end.
Proof. destruct s as [|a [|b t]]; reflexivity. Qed.

Lemma startswith_take_2 (s : string) (a b : ascii) :
  startswith (upper (str_take 2 s)) (String a (String b EmptyString))
  = startswith (upper s) (String a (String b EmptyString)).
Proof.
  rewrite str_take_2. unfold startswith.
  destruct s as [|x [|y t]]; try reflexivity.
  cbn [upper String.prefix].
  destruct (ascii_dec a (upper_char x)); [|reflexivity].
  destruct (ascii_dec b (upper_char y)); [destruct (upper t)|]; reflexivity.
Qed.

Lemma level_to_number_range (name : string) (n : Z) :
  level_to_number (Some name) = Some n ->
  if startswith (upper (str_strip name)) "RF" then n = 999%Z
  else (-9 <= n <= 99)%Z.
Proof.
  unfold level_to_number.
  rewrite <- (startswith_take_2 (str_strip name) "R" "F").
  set (L := upper (str_take 2 (str_strip name))).
  assert (HL : (String.length L <= 2)%nat)
    by (unfold L; rewrite length_upper; apply length_str_take).
  destruct (startswith L "RF"); [now intros [= <-]|].
  destruct (startswith L "LB"); [intros [= <-]; lia|].
  destruct (startswith L "B").
  - destruct (list_ascii_of_string L) as [|c0 [|c l]]; try discriminate.
    destruct (int (String c EmptyString)) as [m|e] eqn:E; [|discriminate].
    intros [= <-]. apply int_one_char in E; [lia | simpl; lia].
  - destruct (int L) as [m|e] eqn:E; [|discriminate].
    intros [= <-]. now apply int_two_chars in E.
Qed.

(** X14: whatever label [level_to_number] can read, a roof label (one that
    starts with RF once stripped and upper-cased) gives 999 and every other
    label gives a number from -9 to 99. *)
Theorem level_numbers_are_bounded (level_name : option string) (n : Z) :
  level_to_number level_name = Some n ->
  exists name, level_name = Some name
  /\ ((startswith (upper (str_strip name)) "RF" = true /\ n = 999%Z)
      \/ (startswith (upper (str_strip name)) "RF" = false /\ (-9 <= n <= 99)%Z)).
Proof.
  destruct level_name as [name|]; [|discriminate].
  intros H. exists name. split; [reflexivity|].
  apply level_to_number_range in H.
  destruct (startswith (upper (str_strip name)) "RF"); [left | right]; auto.
Qed.

Lemma level_numbers_are_bounded_witness :
  level_to_number (Some " b2 x"%string) = Some (-2)%Z
  /\ exists name, Some " b2 x"%string = Some name
     /\ ((startswith (upper (str_strip name)) "RF" = true /\ (-2)%Z = 999%Z)
         \/ (startswith (upper (str_strip name)) "RF" = false
             /\ (-9 <= -2 <= 99)%Z)).
Proof.
  split; [reflexivity|].
  apply (level_numbers_are_bounded (Some " b2 x"%string) (-2)). reflexivity.
Defined.

Lemma In_range (lo hi k : Z) : In k (range lo hi) <-> (lo <= k < hi)%Z.
Proof.
  unfold range. rewrite List.in_map_iff. split.
  - intros (i & <- & Hi). apply List.in_seq in Hi. lia.
  - intros H. exists (Z.to_nat (k - lo)). split; [lia|]. apply List.in_seq. lia.
Qed.

(** X15: the key written for a level number is read back as that number
    exactly for the numbers from -9 to 99. *)
Theorem level_key_round_trip (lvl : Z) :
  level_to_number (Some (level_key lvl)) = Some lvl <-> (-9 <= lvl <= 99)%Z.
Proof.
  split.
  - intros H. pose proof (level_to_number_range _ _ H) as Hr.
    destruct (startswith (upper (str_strip (level_key lvl))) "RF");
      [|exact Hr].
    subst lvl. vm_compute in H. discriminate H.
  - intros H.
    assert (Hin : In lvl (range (-9) 100)) by (apply In_range; lia).
    assert (Hall : forallb
                     (fun l => match level_to_number (Some (level_key l)) with
                               | Some n => (n =? l)%Z
                               | None => false
                               end) (range (-9) 100) = true)
      by (vm_compute; reflexivity).
    rewrite List.forallb_forall in Hall. specialize (Hall lvl Hin).
    destruct (level_to_number (Some (level_key lvl))) as [n|]; [|discriminate].
    apply Z.eqb_eq in Hall. now subst.
Qed.

(** *** Level keys in the summary's floor order *)

Lemma floor_sort_key_digit_head (c : ascii) (t : string) :
  is_digit c = true ->
  Summary.floor_sort_key (String c t)
  = match int (String c t) with Ok n => n | Raise _ => 0%Z end.
Proof.
  intros H. unfold Summary.floor_sort_key, startswith. cbn [upper].
  destruct c as [[] [] [] [] [] [] [] []];
    try (vm_compute in H; discriminate H); reflexivity.
Qed.

Lemma floor_sort_key_B (t : string) : Summary.floor_sort_key (String "B" t) = 0%Z.
Proof.
  unfold Summary.floor_sort_key, startswith. cbn [upper].
  change (upper_char "B") with "B"%char.
  change (String.prefix "RF" (String "B" (upper t))) with false.
  change (String.prefix "LB" (String "B" (upper t))) with false.
  cbv iota. rewrite int_unfold, strip_unfold.
  cbn [list_ascii_of_string lstrip].
  change (is_space "B") with false. cbv iota.
  reflexivity.
Qed.

Lemma decimal_head (n : nat) :
  exists c t, decimal n = String c t /\ is_digit c = true.
Proof.
  unfold decimal. pose proof (uint_chars_digits (Nat.to_uint n)) as H.
  pose proof (to_uint_not_nil n) as Hn.
  destruct (Nat.to_uint n) eqn:E; [congruence|..];
    cbn [NilEmpty.string_of_uint]; eexists _, _; split; reflexivity.
Qed.

Lemma int_zero_decimal (n : nat) :
  int (String "0" (decimal n)) = Ok (Z.of_nat n).
Proof.
  unfold decimal.
  change (String "0" (NilEmpty.string_of_uint (Nat.to_uint n)))
    with (NilEmpty.string_of_uint (Decimal.D0 (Nat.to_uint n))).
  rewrite int_uint by discriminate.
  change (Nat.of_uint (Decimal.D0 (Nat.to_uint n)))
    with (Nat.of_uint (Nat.to_uint n)).
  now rewrite DecimalNat.Unsigned.of_to.
Qed.

(** X16: in the summary's floor order a key written for level [lvl] sorts
    by [lvl] itself when [lvl] is not negative, and by 0 when it is: the
    basement keys B1, B2, ... all share the key of ground level 00. *)
Theorem level_keys_sort_by_number (lvl : Z) :
  Summary.floor_sort_key (level_key lvl) = Z.max 0 lvl.
Proof.
  unfold level_key. destruct (Z.leb_spec 0 lvl) as [H|H].
  - rewrite Z.max_r by exact H.
    rewrite <- (Z2Nat.id lvl H) at 2.
    unfold format_02d.
    destruct (decimal_head (Z.to_nat lvl)) as (c & t & E & Hc).
    destruct (String.length (decimal (Z.to_nat lvl))) as [|[|k]].
    + rewrite E, floor_sort_key_digit_head, <- E, int_decimal by exact Hc.
      reflexivity.
    + change ("0" ++ decimal (Z.to_nat lvl))%string
        with (String "0" (decimal (Z.to_nat lvl))).
      rewrite floor_sort_key_digit_head, int_zero_decimal by reflexivity.
      reflexivity.
    + rewrite E, floor_sort_key_digit_head, <- E, int_decimal by exact Hc.
      reflexivity.
  - rewrite Z.max_l by lia.
    change ("B" ++ decimal (Z.abs_nat lvl))%string
      with (String "B" (decimal (Z.abs_nat lvl))).
    apply floor_sort_key_B.
Qed.

(** *** Columns by level *)

Lemma In_span (b t lvl : Z) :
  In lvl (span b t) <-> (Z.min (b + 1) t <= lvl <= Z.max (b + 1) t)%Z.
Proof. unfold span. rewrite In_range. lia. Qed.

Lemma get_setdefault_append {V} (d : gmap string (list V)) (kv : string * V)
    (key : string) :
  get (setdefault_append d kv) key
  = get d key ++ (if String.eqb (fst kv) key then [snd kv] else []).
Proof.
  unfold get, setdefault_append.
  destruct (String.eqb_spec (fst kv) key) as [<-|Hne].
  - now rewrite lookup_insert_eq.
  - rewrite lookup_insert_ne by exact Hne. now rewrite app_nil_r.
Qed.

Lemma get_fold_setdefault {V} (kvs : list (string * V)) (key : string) :
  forall d : gmap string (list V),
  get (fold_left setdefault_append kvs d) key
  = get d key ++ map snd (List.filter (fun kv => String.eqb (fst kv) key) kvs).
Proof.
  induction kvs as [|kv kvs IH]; intros d; cbn [fold_left List.filter map].
  - now rewrite app_nil_r.
  - rewrite IH, get_setdefault_append, <- app_assoc.
    now destruct (String.eqb (fst kv) key).
Qed.

Lemma get_fold_columns (cols : list col_info) (key : string) :
  forall d : gmap string (list (Q * Q)),
  get (fold_left (fun d c => fold_left setdefault_append (column_levels c) d) cols d) key
  = get d key
    ++ map snd (List.filter (fun kv => String.eqb (fst kv) key)
                  (flat_map column_levels cols)).
Proof.
  induction cols as [|c cols IH]; intros d; cbn [fold_left flat_map].
  - now rewrite app_nil_r.
  - rewrite IH, get_fold_setdefault, List.filter_app, map_app, app_assoc.
    reflexivity.
Qed.

(** X17: the points stored under a level key are the points of the entries
    written for that key, column after column, in the order of the column
    list; nothing is lost, merged or reordered. *)
Theorem columns_by_level_groups_in_order (cols : list col_info) (key : string) :
  get (columns_by_level cols) key
  = map snd (List.filter (fun kv => String.eqb (fst kv) key)
               (flat_map column_levels cols)).
Proof.
  unfold columns_by_level. rewrite get_fold_columns.
  unfold get. now rewrite lookup_empty.
Qed.

(** X18: a column with coordinates and readable base and top labels is
    stored on every level from the smaller to the larger of [base + 1] and
    [top]; with equal base and top numbers that is the level itself and
    the one above it. *)
Theorem column_is_on_every_level_of_its_span
    (cols : list col_info) (c : col_info) (x y : Q) (b t lvl : Z) :
  In c cols ->
  match Top c with Some xy => xy | None => (Top_X_m c, Top_Y_m c) end
  = (Some x, Some y) ->
  level_to_number (py_or (TopLevel c) (Top_Level c)) = Some t ->
  level_to_number (py_or (BaseLevel c) (Base_Level c)) = Some b ->
  (Z.min (b + 1) t <= lvl <= Z.max (b + 1) t)%Z ->
  In (x, y) (get (columns_by_level cols) (level_key lvl)).
Proof.
  intros Hc Hxy Ht Hb Hl.
  unfold columns_by_level. rewrite get_fold_columns.
  apply List.in_or_app. right.
  apply (List.in_map snd _ (level_key lvl, (x, y))).
  apply List.filter_In. split; [|cbn [fst]; apply String.eqb_refl].
  apply List.in_flat_map. exists c. split; [exact Hc|].
  unfold column_levels. rewrite Hxy, Ht, Hb.
  apply List.in_or_app. left.
  apply (List.in_map (fun l => (level_key l, (x, y)))).
  now apply In_span.
Qed.

Lemma column_is_on_every_level_of_its_span_witness :
  level_key 2 = "02"%string
  /\ In (3, 4) (get (columns_by_level [Samples.one_level_column]) (level_key 2)).
Proof.
  split; [reflexivity|].
  apply (column_is_on_every_level_of_its_span
           [Samples.one_level_column] Samples.one_level_column 3 4 1 1 2).
  - now left.
  - reflexivity.
  - reflexivity.
  - reflexivity.
  - lia.
Defined.

(** *** Level names of the load views *)

Lemma strip_idem (l : list ascii) : strip (strip l) = strip l.
Proof.
  apply strip_trimmed.
  - intros c Hc. rewrite strip_head in Hc.
    apply List.find_some in Hc as [_ Hc]. now destruct (is_space c).
  - intros c Hc. unfold strip in Hc. rewrite rev_involutive in Hc.
    pose proof (lstrip_head (rev (lstrip l))) as H.
    destruct (lstrip (rev (lstrip l))); [discriminate|].
    now injection Hc as <-.
Qed.

Lemma str_strip_idem (s : string) : str_strip (str_strip s) = str_strip s.
Proof. unfold str_strip. now rewrite chars_of_string, strip_idem. Qed.

Lemma chars_app (a b : string) :
  list_ascii_of_string (String.append a b)
  = list_ascii_of_string a ++ list_ascii_of_string b.
Proof.
  induction a as [|c a IH]; [reflexivity|].
  change (c :: list_ascii_of_string (String.append a b)
          = c :: (list_ascii_of_string a ++ list_ascii_of_string b)).
  now rewrite IH.
Qed.

Lemma str_strip_Lvl (raw : string) :
  str_strip raw <> EmptyString ->
  str_strip (str_strip raw ++ " Lvl") = (str_strip raw ++ " Lvl")%string.
Proof.
  intros Hne. unfold str_strip at 1.
  rewrite strip_trimmed; [apply string_of_list_ascii_of_string|..];
    rewrite chars_app.
  - intros c Hc. unfold str_strip in Hc, Hne. rewrite chars_of_string in Hc.
    pose proof (strip_head (list_ascii_of_string raw)) as Hh.
    destruct (strip (list_ascii_of_string raw)) as [|c' m];
      [now elim Hne|].
    cbn [app hd_error] in Hc, Hh. injection Hc as <-.
    symmetry in Hh. apply List.find_some in Hh as [_ Hh].
    now destruct (is_space c').
  - rewrite rev_app_distr. cbn. now intros c [= <-].
Qed.

Lemma contains_app_r (sub a b : string) :
  contains sub b = true -> contains sub (a ++ b) = true.
Proof.
  intros H. induction a as [|c a IH]; [exact H|].
  change (String.append (String c a) b) with (String c (String.append a b)).
  cbn [contains]. rewrite IH. apply orb_true_r.
Qed.

Lemma startswith_LB_Lvl (s : string) :
  startswith (s ++ " Lvl") "LB" = startswith s "LB".
Proof.
  unfold startswith. destruct s as [|c [|d t]].
  - reflexivity.
  - change (String.append (String c EmptyString) " Lvl") with (String c " Lvl").
    cbn [String.prefix]. destruct (ascii_dec "L" c); reflexivity.
  - change (String.append (String c (String d t)) " Lvl")
      with (String c (String d (String.append t " Lvl"))).
    cbn [String.prefix].
    destruct (ascii_dec "L" c); [|reflexivity].
    destruct (ascii_dec "B" d); [|reflexivity].
    now destruct t.
Qed.

(** X19: every name [normalize_level_name] returns contains Lvl, and a
    second pass leaves the result unchanged exactly when the name is not
    blank. *)
Theorem normalized_names_are_stable (raw_level : string) :
  contains "Lvl" (normalize_level_name raw_level) = true
  /\ (normalize_level_name (normalize_level_name raw_level)
      = normalize_level_name raw_level
      <-> str_strip raw_level <> EmptyString).
Proof.
  unfold normalize_level_name at 1 3 4.
  destruct (startswith (str_strip raw_level) "LB") eqn:HLB.
  { split; [reflexivity|]. split; [|reflexivity].
    intros _ E. now rewrite E in HLB. }
  destruct (contains "Lvl" (str_strip raw_level)) eqn:HL; cbn [negb].
  { split; [exact HL|]. split.
    - intros _ E. now rewrite E in HL.
    - intros _. unfold normalize_level_name.
      now rewrite str_strip_idem, HLB, HL. }
  split; [now apply contains_app_r|]. split.
  - intros E Hblank. rewrite Hblank in E. vm_compute in E. discriminate E.
  - intros Hne. unfold normalize_level_name.
    rewrite (str_strip_Lvl raw_level Hne), startswith_LB_Lvl, HLB.
    now rewrite contains_app_r.
Qed.

(** *** The key under which the loads of a floor are looked up *)

Lemma two_chars_no_Lvl (c1 c2 : ascii) :
  contains "Lvl" (String c1 (String c2 EmptyString)) = false.
Proof.
  cbn [contains String.prefix].
  destruct (ascii_dec "L" c1), (ascii_dec "v" c2), (ascii_dec "L" c2);
    reflexivity.
Qed.

(** X23: when the level name of a floor and the level part of a load view
    are the same text, and that text starts with LB or is two letters or
    digits once stripped, the key [vornoi5.py] looks up for the floor is the
    key [filled_regions2.py] files the view under. *)
Theorem floor_key_finds_its_loads (name : string) :
  startswith (str_strip name) "LB" = true
  \/ (exists c1 c2, str_strip name = String c1 (String c2 EmptyString)
                    /\ is_alnum c1 = true /\ is_alnum c2 = true) ->
  load_key (extract_level_prefix (Some name)) = normalize_level_name name.
Proof.
  unfold load_key, normalize_level_name, extract_level_prefix, str_strip.
  intros [HLB|(c1 & c2 & E & H1 & H2)].
  - rewrite HLB. unfold startswith in HLB.
    destruct (strip (list_ascii_of_string name)) as [|a [|b l]];
      cbn [string_of_list_ascii String.prefix] in HLB; try discriminate.
    + destruct (ascii_dec "L" a); discriminate.
    + destruct (ascii_dec "L" a) as [<-|]; [|discriminate].
      destruct (ascii_dec "B" b) as [<-|]; [|discriminate].
      reflexivity.
  - rewrite E.
    assert (El : strip (list_ascii_of_string name) = [c1; c2]).
    { rewrite <- (chars_of_string (strip (list_ascii_of_string name))), E.
      reflexivity. }
    rewrite El, H1, H2, two_chars_no_Lvl. cbn [negb].
    destruct (startswith (String c1 (String c2 EmptyString)) "LB") eqn:HLB;
      [|reflexivity].
    unfold startswith in HLB. cbn [String.prefix] in HLB.
    destruct (ascii_dec "L" c1) as [<-|]; [|discriminate].
    destruct (ascii_dec "B" c2) as [<-|]; [|discriminate].
    reflexivity.
Qed.

Lemma floor_key_finds_its_loads_witness :
  load_key (extract_level_prefix (Some " LB1"%string)) = "LB Lvl"%string
  /\ load_key (extract_level_prefix (Some " LB1"%string))
     = normalize_level_name " LB1".
Proof.
  split; [reflexivity|].
  apply (floor_key_finds_its_loads " LB1"). left. reflexivity.
Defined.

End LevelsFacts.

(** ** The load regions ([filled_regions2.py]) *)

Module RegionsFacts.
Import Py Regions.

(** *** Collecting the vertices *)

Lemma keys_setdefault_old (k : key) (new : region_info) (v : Q * Q)
    (rd : list (key * region_info)) :
  In k (map fst rd) -> map fst (setdefault_vertex k new v rd) = map fst rd.
Proof.
  induction rd as [|[k' info] rd IH]; cbn [setdefault_vertex map fst];
    [now intros []|].
  intros [->|Hin].
  - now rewrite bool_decide_eq_true_2.
  - destruct (bool_decide (k' = k)); cbn [map fst]; [reflexivity|].
    now rewrite IH.
Qed.

Lemma setdefault_new (k : key) (new : region_info) (v : Q * Q)
    (rd : list (key * region_info)) :
  ~ In k (map fst rd) ->
  setdefault_vertex k new v rd = rd ++ [(k, append_vertex v new)].
Proof.
  induction rd as [|[k' info] rd IH]; cbn [setdefault_vertex map fst app];
    [reflexivity|].
  intros Hn. rewrite bool_decide_eq_false_2 by (intros ->; apply Hn; now left).
  rewrite IH; [reflexivity|]. intros H; apply Hn; now right.
Qed.

Lemma setdefault_old_entries (k : key) (new : region_info) (v : Q * Q)
    (rd : list (key * region_info)) (k' : key) (i' : region_info) :
  List.NoDup (map fst rd) -> In k (map fst rd) ->
  In (k', i') (setdefault_vertex k new v rd) ->
  (k' <> k /\ In (k', i') rd)
  \/ (k' = k /\ exists i, In (k, i) rd /\ i' = append_vertex v i).
Proof.
  induction rd as [|[k0 info] rd IH]; cbn [setdefault_vertex map fst];
    [now intros _ []|].
  intros Hnd Hin. apply List.NoDup_cons_iff in Hnd as [Hk0 Hnd].
  destruct (bool_decide (k0 = k)) eqn:E.
  - apply bool_decide_eq_true_1 in E. subst k0.
    intros [Heq|Hrest].
    + injection Heq as <- <-. right. split; [reflexivity|].
      exists info. split; [now left | reflexivity].
    + left. split.
      * intros ->. apply Hk0. now apply (List.in_map fst) in Hrest.
      * now right.
  - apply bool_decide_eq_false_1 in E.
    destruct Hin as [->|Hin]; [congruence|].
    intros [Heq|Hrest].
    + injection Heq as <- <-. left. split; [exact E | now left].
    + destruct (IH Hnd Hin Hrest) as [[Hne H]|[-> (i & Hi & ->)]].
      * left. split; [exact Hne | now right].
      * right. split; [reflexivity|]. exists i. split; [now right | reflexivity].
Qed.

Lemma region_data_snoc (rows : list row) (r : row) :
  region_data (rows ++ [r]) = add_row (region_data rows) r.
Proof. unfold region_data. now rewrite fold_left_app. Qed.

Lemma filter_none {A} (f : A -> bool) (l : list A) :
  (forall a, In a l -> f a = false) -> List.filter f l = [].
Proof.
  induction l as [|a l IH]; intros H; cbn [List.filter]; [reflexivity|].
  rewrite (H a) by now left. apply IH. intros b Hb. apply H. now right.
Qed.

(** The dictionary built from the rows: one entry for each key that occurs,
    holding the identifiers of the key and the vertices of its rows in the
    order of the rows. *)
Lemma region_data_spec (rows : list row) :
  List.NoDup (map fst (region_data rows))
  /\ (forall k, In k (map fst (region_data rows))
                <-> exists r, In r rows /\ key_of r = k)
  /\ (forall k info, In (k, info) (region_data rows) ->
        Vertices info
        = map (fun r => (X_m r, Y_m r))
            (List.filter (fun r => bool_decide (key_of r = k)) rows)
        /\ RegionID info = snd (fst (fst k))
        /\ RegionType info = snd (fst k)
        /\ LoopIndex info = snd k).
Proof.
  induction rows as [|r rows IH] using rev_ind.
  - split; [constructor|]. split.
    + intros k. split; [intros [] | intros (r & [] & _)].
    + intros k info [].
  - destruct IH as (Hnd & Hkeys & Hent). rewrite region_data_snoc.
    unfold add_row.
    set (new := {| RegionID := region_id r; RegionType := region_type r;
                   LoopIndex := loop_index r; Vertices := [] |}).
    destruct (List.in_dec (fun a b : key => decide (a = b)) (key_of r)
                (map fst (region_data rows))) as [Hin|Hnin].
    + rewrite (keys_setdefault_old _ new _ _ Hin).
      split; [exact Hnd|]. split.
      * intros k. rewrite Hkeys. split.
        -- intros (r' & Hr' & E). exists r'. split; [|exact E].
           apply List.in_or_app. now left.
        -- intros (r' & Hr' & E). apply List.in_app_or in Hr' as [Hr'|[<-|[]]].
           ++ now exists r'.
           ++ subst k. now apply Hkeys.
      * intros k info Hi.
        apply setdefault_old_entries in Hi as [[Hne H]|[-> (i & Hi & ->)]];
          try assumption.
        -- destruct (Hent _ _ H) as (Hv & Hf).
           rewrite List.filter_app, map_app. cbn [List.filter].
           rewrite bool_decide_eq_false_2 by (intros E; apply Hne; now symmetry).
           cbn [map]. rewrite app_nil_r. now split.
        -- destruct (Hent _ _ Hi) as (Hv & Hf).
           rewrite List.filter_app, map_app. cbn [List.filter].
           rewrite bool_decide_eq_true_2 by reflexivity.
           cbn [map append_vertex Vertices RegionID RegionType LoopIndex].
           rewrite Hv. now split.
    + rewrite (setdefault_new _ new _ _ Hnin), map_app. cbn [map fst].
      split.
      { apply (Permutation_NoDup (l := key_of r :: map fst (region_data rows))).
        - apply Permutation_cons_append.
        - now constructor. }
      split.
      * intros k. rewrite List.in_app_iff, Hkeys. split.
        -- intros [(r' & Hr' & E)|[<-|[]]].
           ++ exists r'. split; [|exact E]. apply List.in_or_app. now left.
           ++ exists r. split; [|reflexivity]. apply List.in_or_app.
              right. now left.
        -- intros (r' & Hr' & E). apply List.in_app_or in Hr' as [Hr'|[<-|[]]].
           ++ left. now exists r'.
           ++ right. now left.
      * intros k info Hi. apply List.in_app_or in Hi as [Hi|[Heq|[]]].
        -- destruct (Hent _ _ Hi) as (Hv & Hf).
           assert (Hne : key_of r <> k).
           { intros <-. apply Hnin. now apply (List.in_map fst) in Hi. }
           rewrite List.filter_app, map_app. cbn [List.filter].
           rewrite bool_decide_eq_false_2 by exact Hne.
           cbn [map]. rewrite app_nil_r. now split.
        -- injection Heq as <- <-.
           rewrite List.filter_app, map_app. cbn [List.filter].
           rewrite bool_decide_eq_true_2 by reflexivity.
           rewrite filter_none.
           2:{ intros r' Hr'. apply bool_decide_eq_false_2. intros E.
               apply Hnin. apply Hkeys. now exists r'. }
           repeat split.
Qed.

(** X20: every row has its region in the collected data, under the row's
    own identifiers, and the region's vertices are the coordinates of the
    rows with the same key, in the order of the file. *)
Theorem vertices_follow_the_rows (rows : list row) (r : row) :
  In r rows ->
  exists info,
    In (key_of r, info) (region_data rows)
    /\ (forall info', In (key_of r, info') (region_data rows) -> info' = info)
    /\ RegionID info = region_id r
    /\ RegionType info = region_type r
    /\ LoopIndex info = loop_index r
    /\ Vertices info
       = map (fun r' => (X_m r', Y_m r'))
           (List.filter (fun r' => bool_decide (key_of r' = key_of r)) rows).
Proof.
  intros Hr. destruct (region_data_spec rows) as (Hnd & Hkeys & Hent).
  assert (Hk : In (key_of r) (map fst (region_data rows)))
    by (apply Hkeys; now exists r).
  apply List.in_map_iff in Hk as ([k info] & Hfst & Hi). cbn [fst] in Hfst.
  subst k. exists info. split; [exact Hi|].
  destruct (Hent _ _ Hi) as (Hv & Hid & Hty & Hloop). split.
  - intros info' Hi'.
    destruct (Hent _ _ Hi') as (Hv' & Hid' & Hty' & Hloop').
    destruct info, info'. cbn in *. congruence.
  - repeat split; assumption.
Qed.

Lemma vertices_follow_the_rows_witness :
  exists info,
    In (key_of (Samples.permanent_corner 0 0), info)
       (region_data Samples.load_rows)
    /\ Vertices info = [(0, 0); (4, 0); (4, 3)].
Proof.
  destruct (vertices_follow_the_rows Samples.load_rows
              (Samples.permanent_corner 0 0)) as (info & Hi & _ & _ & _ & _ & Hv).
  - now left.
  - exists info. split; [exact Hi|]. rewrite Hv. reflexivity.
Defined.

(** *** Sorting the regions by level and load *)

Lemma load_type_of_cases (view_name : string) :
  load_type_of view_name = "Permanent Loading"%string
  \/ load_type_of view_name = "Imposed Loading"%string
  \/ load_type_of view_name = "Other"%string.
Proof.
  unfold load_type_of.
  destruct (Levels.contains "Permanent" view_name); [now left|].
  destruct (Levels.contains "Imposed" view_name); [right; now left|].
  right; now right.
Qed.

Lemma loads_of_insert (data : gmap string loads) (level level' : string)
    (d : loads) :
  loads_of (<[level := d]> data) level'
  = if String.eqb level level' then d else loads_of data level'.
Proof.
  unfold loads_of. destruct (String.eqb_spec level level') as [<-|Hne].
  - now rewrite lookup_insert_eq.
  - now rewrite lookup_insert_ne.
Qed.

(** When the loop over the collected regions ends normally, each list holds
    what it held before followed by the regions of its level and load. *)
Lemma organise_done (entries : list (key * region_info)) :
  forall data data' : gmap string loads,
  organise entries data = Done data' ->
  forall level,
    Permanent_Loading (loads_of data' level)
    = Permanent_Loading (loads_of data level)
      ++ map snd (List.filter
                    (fun e => String.eqb (level_of (fst e)) level
                              && String.eqb (load_type_in (fst e)) "Permanent Loading")
                    entries)
    /\ Imposed_Loading (loads_of data' level)
       = Imposed_Loading (loads_of data level)
         ++ map snd (List.filter
                       (fun e => String.eqb (level_of (fst e)) level
                                 && String.eqb (load_type_in (fst e)) "Imposed Loading")
                       entries).
Proof.
  induction entries as [|[k info] rest IH]; intros data data';
    cbn [organise List.filter map fst].
  - intros [= <-] level. now rewrite !app_nil_r.
  - fold (loads_of data (level_of k)). unfold append_region.
    destruct (String.eqb_spec (load_type_in k) "Permanent Loading") as [EP|NP].
    + intros H level. destruct (IH _ _ H level) as [HP HI].
      rewrite HP, HI, loads_of_insert, EP.
      change (String.eqb "Permanent Loading" "Imposed Loading") with false.
      rewrite andb_true_r, andb_false_r.
      destruct (String.eqb_spec (level_of k) level) as [<-|Hne];
        cbn [Permanent_Loading Imposed_Loading map snd];
        [now rewrite <- app_assoc | now split].
    + destruct (String.eqb_spec (load_type_in k) "Imposed Loading") as [EI|NI];
        [|discriminate].
      intros H level. destruct (IH _ _ H level) as [HP HI].
      rewrite HP, HI, loads_of_insert, andb_true_r, andb_false_r.
      destruct (String.eqb_spec (level_of k) level) as [<-|Hne];
        cbn [Permanent_Loading Imposed_Loading map snd];
        [now rewrite <- app_assoc | now split].
Qed.

Lemma organise_total (entries : list (key * region_info)) :
  forall data : gmap string loads,
  (forall e, In e entries ->
     load_type_in (fst e) = "Permanent Loading"%string
     \/ load_type_in (fst e) = "Imposed Loading"%string) ->
  exists data', organise entries data = Done data'.
Proof.
  induction entries as [|[k info] rest IH]; intros data Hall; cbn [organise].
  - now exists data.
  - unfold append_region.
    destruct (Hall (k, info) (or_introl eq_refl)) as [E|E]; cbn [fst] in E;
      rewrite E; cbn [String.eqb]; apply IH; intros e He; apply Hall; now right.
Qed.

Lemma organise_raises (entries : list (key * region_info)) :
  forall (data : gmap string loads) (missing : string),
  organise entries data = KeyError missing ->
  exists e, In e entries /\ load_type_in (fst e) = missing
            /\ missing <> "Permanent Loading"%string
            /\ missing <> "Imposed Loading"%string.
Proof.
  induction entries as [|[k info] rest IH]; intros data missing;
    cbn [organise]; [discriminate|].
  unfold append_region.
  destruct (String.eqb_spec (load_type_in k) "Permanent Loading") as [EP|NP].
  { intros H. destruct (IH _ _ H) as (e & He & Hm). exists e.
    split; [now right | exact Hm]. }
  destruct (String.eqb_spec (load_type_in k) "Imposed Loading") as [EI|NI].
  { intros H. destruct (IH _ _ H) as (e & He & Hm). exists e.
    split; [now right | exact Hm]. }
  intros [= <-]. exists (k, info). split; [now left|]. now split.
Qed.

Lemma organise_stops (entries : list (key * region_info)) :
  forall data : gmap string loads,
  (exists e, In e entries
             /\ load_type_in (fst e) <> "Permanent Loading"%string
             /\ load_type_in (fst e) <> "Imposed Loading"%string) ->
  exists missing, organise entries data = KeyError missing.
Proof.
  induction entries as [|[k info] rest IH]; intros data (e & He & NP & NI);
    [destruct He|].
  cbn [organise]. unfold append_region.
  destruct (String.eqb_spec (load_type_in k) "Permanent Loading") as [EP|NP'].
  { destruct He as [<-|He]; [now elim NP|]. apply IH. now exists e. }
  destruct (String.eqb_spec (load_type_in k) "Imposed Loading") as [EI|NI'].
  { destruct He as [<-|He]; [now elim NI|]. apply IH. now exists e. }
  now exists (load_type_in k).
Qed.

Lemma entry_load_type (rows : list row) (e : key * region_info) :
  In e (region_data rows) ->
  exists r, In r rows /\ load_type_in (fst e) = load_type_of (view_name r).
Proof.
  intros He. destruct (region_data_spec rows) as (_ & Hkeys & _).
  apply (List.in_map fst) in He. apply Hkeys in He as (r & Hr & E).
  exists r. split; [exact Hr|]. now rewrite <- E.
Qed.

(** X21: the function ends normally exactly when every row comes from a
    view whose name contains Permanent or Imposed; one row from any other
    view makes it raise [KeyError] for the key Other, whatever the other
    rows are. *)
Theorem other_views_raise_KeyError (rows : list row) :
  if existsb (fun r => String.eqb (load_type_of (view_name r)) "Other") rows
  then generate_filled_regions_json rows = KeyError "Other"
  else exists data, generate_filled_regions_json rows = Done data.
Proof.
  unfold generate_filled_regions_json.
  destruct (existsb _ rows) eqn:Ex.
  - apply List.existsb_exists in Ex as (r & Hr & E).
    apply String.eqb_eq in E.
    destruct (region_data_spec rows) as (_ & Hkeys & _).
    assert (Hk : In (key_of r) (map fst (region_data rows)))
      by (apply Hkeys; now exists r).
    apply List.in_map_iff in Hk as (e & Hfst & He).
    destruct (organise_stops (region_data rows) ∅) as (missing & Hm).
    { exists e. rewrite Hfst. unfold load_type_in, key_of. cbn [fst snd].
      rewrite E. split; [exact He|]. split; discriminate. }
    rewrite Hm. f_equal.
    apply organise_raises in Hm as (e' & He' & <- & NP & NI).
    apply entry_load_type in He' as (r' & _ & E').
    rewrite E' in *.
    destruct (load_type_of_cases (view_name r')) as [H|[H|H]]; congruence.
  - apply organise_total. intros e He.
    apply entry_load_type in He as (r & Hr & ->).
    destruct (load_type_of_cases (view_name r)) as [H|[H|H]];
      [now left | now right|].
    assert (Ht : existsb (fun r => String.eqb (load_type_of (view_name r)) "Other")
                   rows = true).
    { apply List.existsb_exists. exists r. split; [exact Hr|].
      now apply String.eqb_eq. }
    congruence.
Qed.

Lemma other_views_raise_KeyError_witness :
  generate_filled_regions_json Samples.rows_with_section_view = KeyError "Other".
Proof.
  exact (other_views_raise_KeyError Samples.rows_with_section_view).
Defined.

(** X22: when the function ends normally, the list written for a level
    and a load holds the collected regions of that level and load, in the
    order in which they were collected. *)
Theorem regions_are_listed_by_level_and_load
    (rows : list row) (data : gmap string loads) (level : string) :
  generate_filled_regions_json rows = Done data ->
  Permanent_Loading (loads_of data level)
  = map snd (List.filter
               (fun e => String.eqb (level_of (fst e)) level
                         && String.eqb (load_type_in (fst e)) "Permanent Loading")
               (region_data rows))
  /\ Imposed_Loading (loads_of data level)
     = map snd (List.filter
                  (fun e => String.eqb (level_of (fst e)) level
                            && String.eqb (load_type_in (fst e)) "Imposed Loading")
                  (region_data rows)).
Proof.
  unfold generate_filled_regions_json. intros H.
  destruct (organise_done _ _ _ H level) as [HP HI].
  rewrite HP, HI. unfold loads_of. now rewrite lookup_empty.
Qed.

Lemma sample_rows_end_normally :
  exists data, generate_filled_regions_json Samples.load_rows = Done data.
Proof.
  apply organise_total. intros e He. vm_compute in He.
  destruct He as [<-|[<-|[]]]; [left | right]; reflexivity.
Qed.

Lemma regions_are_listed_by_level_and_load_witness :
  exists data,
    generate_filled_regions_json Samples.load_rows = Done data
    /\ map Vertices (Permanent_Loading (loads_of data "01 Lvl"))
       = [[(0, 0); (4, 0); (4, 3)]]
    /\ map Vertices (Imposed_Loading (loads_of data "01 Lvl")) = [[(9, 9)]].
Proof.
  destruct sample_rows_end_normally as (data & Hd).
  exists data. split; [exact Hd|].
  destruct (regions_are_listed_by_level_and_load Samples.load_rows data "01 Lvl" Hd)
    as [HP HI].
  rewrite HP, HI. split; reflexivity.
Defined.

End RegionsFacts.
